(** * Supervised Reptile: task sampling, mini-batches, train/test split,
      the Reptile and FOML meta-steps and the evaluation episode.

    Shallow embedding of [supervised_reptile/reptile.py].

    - Python's process-wide [random] module is an explicit tape of raw draws
      ([rng]); [random.shuffle], [random.sample] and [random.choices] follow
      CPython's algorithms over that tape.
    - The TensorFlow session is a record of live variable values (the
      trainable scope and the remaining global variables) together with the
      list of [session.run] calls made so far.
    - Exceptions are values of [exn]; code that can raise or loop lives in a
      small state-and-outcome monad [M] over the [world].
    - A generator is denoted by the list of values it yields before it
      returns, raises, or runs out of fuel ([gen_result]).
    - What the module imports is a parameter ([Backend]): the arithmetic
      on snapshots, the augmenter, and numpy's reshape of a stack of
      examples into 84 x 84 x 3 images, which can fail. *)

From Stdlib Require Import ZArith Lia.
From stdpp Require Import base tactics option list numbers sorting.

Local Open Scope Z_scope.
Local Open Scope nat_scope.

(** ** Python's [random] module over an explicit tape *)

Definition rng := list nat.

(** [Random._randbelow(n)]: the next raw draw of the tape reduced below [n]
    (an exhausted tape keeps answering 0). *)
Definition randbelow (n : nat) (g : rng) : nat * rng :=
  match g with
  | [] => (0, [])
  | x :: g' => (x mod n, g')
  end.

(** [x[i], x[j] = x[j], x[i]] *)
Definition swap {A} (x : list A) (i j : nat) : list A :=
  match x !! i, x !! j with
  | Some a, Some b => <[j:=a]> (<[i:=b]> x)
  | _, _ => x
  end.

(** [for i in reversed(range(1, len(x))): j = randbelow(i + 1); swap],
    entered with [i = len(x) - 1]. *)
Fixpoint shuffle_from {A} (i : nat) (x : list A) (g : rng) : list A * rng :=
  match i with
  | 0 => (x, g)
  | S i' =>
      let '(j, g) := randbelow (i + 1) g in
      shuffle_from i' (swap x i j) g
  end.

(** [random.shuffle(x)] (in place: the caller keeps the returned list). *)
Definition random_shuffle {A} (x : list A) (g : rng) : list A * rng :=
  shuffle_from (length x - 1) x g.

Inductive exn := ValueError | IndexError | UnboundLocalError.

(** The selection loop of [random.sample] over a copy of the population.
    This is the branch CPython takes for a population of at most 21 items
    (more for [k > 5]); for a larger one it draws positions into a set and
    draws again on a repeat, which reads the random source differently but
    picks [k] distinct positions of the population all the same:
    [for i in range(k): j = randbelow(n - i); result[i] = pool[j];
     pool[j] = pool[n - i - 1]], with [todo] iterations left. *)
Fixpoint sample_pool {A} (todo i : nat) (pool : list A) (g : rng)
  : list A * rng :=
  match todo with
  | 0 => ([], g)
  | S todo' =>
      let n := length pool in
      let '(j, g) := randbelow (n - i) g in
      match pool !! j, pool !! (n - i - 1) with
      | Some r, Some last =>
          let '(result, g) := sample_pool todo' (S i) (<[j:=last]> pool) g in
          (r :: result, g)
      | _, _ => ([], g)
      end
  end.

(** [random.sample(population, k)]: [ValueError] unless [0 <= k <= n]. *)
Definition random_sample {A} (population : list A) (k : Z) (g : rng)
  : (exn + list A) * rng :=
  if ((0 <=? k) && (k <=? Z.of_nat (length population)))%Z
  then let '(result, g) := sample_pool (Z.to_nat k) 0 population g in
       (inr result, g)
  else (inl ValueError, g).

(** [random.choices(population, k=k)]: [k] independent indices below
    [len(population)]; indexing an empty population raises [IndexError]. *)
Fixpoint random_choices {A} (population : list A) (k : nat) (g : rng)
  : (exn + list A) * rng :=
  match k with
  | 0 => (inr [], g)
  | S k' =>
      let '(j, g) := randbelow (length population) g in
      match population !! j with
      | None => (inl IndexError, g)
      | Some c =>
          match random_choices population k' g with
          | (inr cs, g) => (inr (c :: cs), g)
          | (inl e, g) => (inl e, g)
          end
      end
  end.

(** ** Outcomes and generators *)

(** How a computation ends: with a value, with a Python exception, or
    without having ended when its fuel ran out. *)
Inductive outcome (A : Type) :=
  | Ok (a : A)
  | Raise (e : exn)
  | Timeout.
Arguments Ok {A} a.
Arguments Raise {A} e.
Arguments Timeout {A}.

(** What a generator does when it is run to its end: the values it yields,
    in order, and how it stops. *)
Record gen_result (A : Type) := GenResult {
  yielded : list A;
  finish : outcome unit
}.
Arguments GenResult {A} yielded finish.
Arguments yielded {A} g.
Arguments finish {A} g.

(** ** Mini-batches *)

(** [for _ in range(num_batches): yield random.sample(samples, batch_size)] *)
Fixpoint sample_batches {A} (samples : list A) (batch_size : Z)
    (rounds : nat) (g : rng) : gen_result (list A) * rng :=
  match rounds with
  | 0 => (GenResult [] (Ok tt), g)
  | S rounds' =>
      match random_sample samples batch_size g with
      | (inl e, g) => (GenResult [] (Raise e), g)
      | (inr batch, g) =>
          let '(r, g) := sample_batches samples batch_size rounds' g in
          (GenResult (batch :: yielded r) (finish r), g)
      end
  end.

(** How one pass of [for sample in samples] ends: the generator returned,
    or the pass ran out of samples with this much local state. *)
Inductive pass_result (A : Type) :=
  | Returned (out : list (list A))
  | Exhausted (cur_batch : list A) (batch_count : Z) (out : list (list A)).
Arguments Returned {A} out.
Arguments Exhausted {A} cur_batch batch_count out.

Fixpoint for_samples {A} (batch_size num_batches : Z) (rest : list A)
    (cur_batch : list A) (batch_count : Z) (out : list (list A))
  : pass_result A :=
  match rest with
  | [] => Exhausted cur_batch batch_count out
  | sample :: rest' =>
      let cur_batch := cur_batch ++ [sample] in
      if (Z.of_nat (length cur_batch) <? batch_size)%Z
      then for_samples batch_size num_batches rest' cur_batch batch_count out
      else
        let out := out ++ [cur_batch] in
        let batch_count := (batch_count + 1)%Z in
        if (batch_count =? num_batches)%Z
        then Returned out
        else for_samples batch_size num_batches rest' [] batch_count out
  end.

(** [while True: random.shuffle(samples); for sample in samples: ...],
    with [fuel] bounding the number of reshuffles. *)
Fixpoint shuffle_batches {A} (fuel : nat) (batch_size num_batches : Z)
    (samples cur_batch : list A) (batch_count : Z) (out : list (list A))
    (g : rng) : gen_result (list A) * rng :=
  match fuel with
  | 0 => (GenResult out Timeout, g)
  | S fuel' =>
      let '(samples, g) := random_shuffle samples g in
      match for_samples batch_size num_batches samples cur_batch batch_count out with
      | Returned out => (GenResult out (Ok tt), g)
      | Exhausted cur_batch batch_count out =>
          shuffle_batches fuel' batch_size num_batches samples cur_batch
            batch_count out g
      end
  end.

Definition _mini_batches {A} (fuel : nat) (samples : list A)
    (batch_size num_batches : Z) (replacement : bool) (g : rng)
  : gen_result (list A) * rng :=
  if replacement
  then sample_batches samples batch_size (Z.to_nat num_batches) g
  else shuffle_batches fuel batch_size num_batches samples [] 0%Z [] g.

(** The length of a batch when the no-replacement loop yields it:
    [batch_size], or 1 when [batch_size] is smaller. *)
Definition batch_len (batch_size : Z) : nat := Z.to_nat (Z.max batch_size 1).

(** ** The collaborators of the module

    What [reptile.py] imports and does not define, taken as parameters:
    the type of examples, the type of trainable snapshots with the
    arithmetic of [variables.py] on them, the type of the remaining global
    variables of the session, the type of interpolation coefficients, the
    state of the image augmenter, and numpy's
    [np.asarray(rows).reshape([-1, 84, 84, 3])] on a list of rows of
    examples, which gives the images of the reshaped array, or nothing
    where numpy raises [ValueError] (rows of unequal shapes, or data that
    does not divide into 84 x 84 x 3 images). *)
Record Backend := {
  input : Type;
  vars : Type;
  aux : Type;
  scalar : Type;
  aug_state : Type;
  interpolate_vars : vars -> vars -> scalar -> vars;
  average_vars : list vars -> vars;
  subtract_vars : vars -> vars -> vars;
  add_vars : vars -> vars -> vars;
  scale_vars : vars -> scalar -> vars;
  reshape_images : list (list input) -> option (list input);
}.

(** A data class: [class_obj.sample(n)]. *)
Record ClassSource (X : Type) := {
  sample : nat -> rng -> list X * rng
}.
Arguments sample {X} c n g.
Arguments interpolate_vars {b} _ _ _.
Arguments average_vars {b} _.
Arguments subtract_vars {b} _ _.
Arguments add_vars {b} _ _.
Arguments scale_vars {b} _ _.
Arguments reshape_images {b} _.

(** Labels are the class indices of [enumerate]. *)
Definition label := nat.

Section Reptile.
Context {B : Backend}.

Abbreviation input := (input B).
Abbreviation vars := (vars B).
Abbreviation item := (input * label)%type.

(** Modelled from the spec: [VariableState] of [variables.py] is not among
    the sources.  The session holds the live values of its global
    variables, split into the trainable scope wrapped by [_model_state]
    and the auxiliary rest that [_full_state] also covers; a snapshot of a
    scope is the value of that part. *)
Record store := Store {
  model_vars : vars;
  other_vars : aux B
}.

(** The [session.run] calls of the module. *)
Inductive event :=
  | RunPreStep
  | RunMinimize (inputs : list input) (labels : list label)
  | RunPredict (inputs : list input).

(** Everything the methods act on: the session's variables, the calls run
    on it so far, the state of Python's [random] and of the augmenter. *)
Record world := World {
  session_vars : store;
  session_log : list event;
  random_state : rng;
  augmenter : aug_state B
}.

Definition set_vars (s : store) (w : world) : world :=
  World s (session_log w) (random_state w) (augmenter w).
Definition set_rng (g : rng) (w : world) : world :=
  World (session_vars w) (session_log w) g (augmenter w).
Definition set_augmenter (a : aug_state B) (w : world) : world :=
  World (session_vars w) (session_log w) (random_state w) a.
Definition log_event (e : event) (w : world) : world :=
  World (session_vars w) (session_log w ++ [e]) (random_state w) (augmenter w).

(** Computations over the world that return, raise, or run out of fuel. *)
Definition M (A : Type) := world -> outcome A * world.

Definition ret {A} (a : A) : M A := fun w => (Ok a, w).
Definition raise {A} (e : exn) : M A := fun w => (Raise e, w).
Definition bind {A C} (m : M A) (k : A -> M C) : M C :=
  fun w =>
    match m w with
    | (Ok a, w') => k a w'
    | (Raise e, w') => (Raise e, w')
    | (Timeout, w') => (Timeout, w')
    end.

#[global] Instance M_ret : MRet M := @ret.
#[global] Instance M_bind : MBind M := fun A C k m => bind m k.

Definition modify (f : world -> world) : M unit := fun w => (Ok tt, f w).
Definition get_vars : M store := fun w => (Ok (session_vars w), w).

Definition lift_rng {A} (f : rng -> A * rng) : M A :=
  fun w => let '(a, g) := f (random_state w) in (Ok a, set_rng g w).
Definition lift_exn {A} (r : exn + A) : M A :=
  match r with
  | inl e => raise e
  | inr a => ret a
  end.
Definition lift_rng_exn {A} (f : rng -> (exn + A) * rng) : M A :=
  r ← lift_rng f; lift_exn r.

(** [for x in xs: body(x)] *)
Fixpoint for_each {A} (xs : list A) (body : A -> M unit) : M unit :=
  match xs with
  | [] => ret tt
  | x :: xs' => body x ;; for_each xs' body
  end.

(** [for _ in range(n): body()], collecting what each round returns. *)
Fixpoint repeatM {A} (n : nat) (body : M A) : M (list A) :=
  match n with
  | 0 => ret []
  | S n' => a ← body; r ← repeatM n' body; ret (a :: r)
  end.

(** The way a generator stops, once the loop over it has consumed all it
    yielded. *)
Definition gen_finish {A} (r : gen_result A) : M unit :=
  fun w => (finish r, w).

(** [for x in generator: body(x)]: the body runs on every value the
    generator yields, then the loop ends the way the generator does.  The
    generators of this module only draw from the random source, which no
    loop body reads. *)
Definition for_gen {A} (gen : rng -> gen_result A * rng) (body : A -> M unit)
  : M unit :=
  r ← lift_rng gen;
  for_each (yielded r) body ;;
  gen_finish r.

(** ** Task sampling *)

(** The body of [for class_idx, class_obj in enumerate(...)] in
    [_sample_mini_dataset], entered at index [class_idx]. *)
Fixpoint sample_classes (class_idx : nat) (classes : list (ClassSource input))
    (num_shots : nat) (g : rng) : list item * rng :=
  match classes with
  | [] => ([], g)
  | class_obj :: rest =>
      let '(samples, g) := sample class_obj num_shots g in
      let '(more, g) := sample_classes (S class_idx) rest num_shots g in
      (map (fun s => (s, class_idx)) samples ++ more, g)
  end.

Definition _sample_mini_dataset (dataset : list (ClassSource input))
    (num_classes num_shots : nat) (g : rng) : list item * rng :=
  let '(shuffled, g) := random_shuffle dataset g in
  sample_classes 0 (take num_classes shuffled) num_shots g.

(** The enumerate loop of [_sample_mini_dataset_with_replacements]. *)
Fixpoint sample_draws (class_idx : nat) (draws : list (ClassSource input))
    (num_classes : nat) (g : rng) : list item * rng :=
  match draws with
  | [] => ([], g)
  | class_obj :: rest =>
      let '(samples, g) := sample class_obj 1 g in
      let '(more, g) := sample_draws (S class_idx) rest num_classes g in
      (map (fun s => (s, class_idx mod num_classes)) samples ++ more, g)
  end.

Definition _sample_mini_dataset_with_replacements
    (dataset : list (ClassSource input)) (num_classes num_shots : nat)
    (g : rng) : (exn + list item) * rng :=
  let '(shuffled, g) := random_shuffle dataset g in
  match random_choices shuffled (num_classes * num_shots) g with
  | (inl e, g) => (inl e, g)
  | (inr shuffled, g) =>
      let '(task, g) := sample_draws 0 shuffled num_classes g in
      (inr task, g)
  end.

(** [_sample_mini_dataset_force_1class]: one class drawn by
    [random.choices(shuffled, k=1)], all its examples under label 0 (the
    single round of [for i in range(1)]). *)
Definition _sample_mini_dataset_force_1class
    (dataset : list (ClassSource input)) (num_shots : nat) (g : rng)
  : (exn + list item) * rng :=
  let '(shuffled, g) := random_shuffle dataset g in
  match random_choices shuffled 1 g with
  | (inl e, g) => (inl e, g)
  | (inr shuffled, g) =>
      match shuffled !! 0 with
      | None => (inl IndexError, g)
      | Some class_obj =>
          let '(samples, g) := sample class_obj num_shots g in
          (inr (map (fun s => (s, 0)) samples), g)
      end
  end.

(** ** Train/test split *)

(** [for i, item in enumerate(train_set): if item[1] == label:
      del train_set[i]; test_set.append(item); break] *)
Fixpoint move_first (l : label) (train_set : list item)
  : option (item * list item) :=
  match train_set with
  | [] => None
  | it :: rest =>
      if decide (it.2 = l) then Some (it, rest)
      else match move_first l rest with
           | Some (found, rest') => Some (found, it :: rest')
           | None => None
           end
  end.

(** [for label in labels: ...] *)
Fixpoint split_labels (labels : list label) (train_set test_set : list item)
  : list item * list item :=
  match labels with
  | [] => (train_set, test_set)
  | l :: labels' =>
      match move_first l train_set with
      | Some (found, train_set') =>
          split_labels labels' train_set' (test_set ++ [found])
      | None => split_labels labels' train_set test_set
      end
  end.

(** [for _ in range(test_shots): for label in labels: ...] *)
Fixpoint split_rounds (test_shots : nat) (labels : list label)
    (train_set test_set : list item) : list item * list item :=
  match test_shots with
  | 0 => (train_set, test_set)
  | S n =>
      let '(train_set, test_set) := split_labels labels train_set test_set in
      split_rounds n labels train_set test_set
  end.

(** Iteration order of [set(item[1] for item in train_set)]: the distinct
    labels in ascending order.  This is the order in which CPython walks
    the set for the labels [0, 1, ..., n-1] that the samplers of this
    module produce (a small integer sits in the slot of its own value).
    For other sets of labels CPython's order can be another one (it walks
    the set of 8 and 1 as 8, 1), which changes the order of the examples
    within the test set and nothing else. *)
Definition label_set (samples : list item) : list label :=
  merge_sort Nat.le (remove_dups (map snd samples)).

Definition _split_train_test (samples : list item) (test_shots : nat)
  : exn + (list item * list item) :=
  let labels := label_set samples in
  let '(train_set, test_set) := split_rounds test_shots labels samples [] in
  if length test_set <? length labels * test_shots
  then inl IndexError
  else inr (train_set, test_set).

(** ** The Reptile session *)

(** What running [minimize_op] on a feed does to the variables, and what
    fetching [predictions] on a feed returns. *)
Definition train_op := list input -> list label -> store -> store.
Definition predict_op := list input -> store -> list label.

(** The fields of a [Reptile] object that its methods read. *)
Record Reptile := {
  _transductive : bool;
  _pre_step_op : option (store -> store);
  aug : list input -> aug_state B -> list input * aug_state B
}.

(** Modelled from the spec: [VariableState.export_variables] and
    [import_variables] of [variables.py], for [_model_state] and
    [_full_state].  An export is a copy of the scope's current values; an
    import overwrites the scope's live values with the snapshot and leaves
    the rest of the session alone. *)
Definition export_model : M vars :=
  fun w => (Ok (model_vars (session_vars w)), w).
Definition import_model (v : vars) : M unit :=
  modify (fun w => set_vars (Store v (other_vars (session_vars w))) w).
Definition export_full : M store := get_vars.
Definition import_full (s : store) : M unit := modify (set_vars s).

(** [inputs, labels = zip] of the unpacked [batch]: unpacking fails on an empty batch. *)
Definition unzip_batch (batch : list item) : M (list input * list label) :=
  match batch with
  | [] => raise ValueError
  | _ => ret (map fst batch, map snd batch)
  end.

(** [if self._pre_step_op: self.session.run(self._pre_step_op)] *)
Definition run_pre_step (self : Reptile) : M unit :=
  match _pre_step_op self with
  | Some op => modify (fun w => log_event RunPreStep (set_vars (op (session_vars w)) w))
  | None => ret tt
  end.

(** [self.session.run(minimize_op, feed_dict={input_ph: .., label_ph: ..})] *)
Definition run_minimize (minimize_op : train_op) (inputs : list input)
    (labels : list label) : M unit :=
  modify (fun w => log_event (RunMinimize inputs labels)
                     (set_vars (minimize_op inputs labels (session_vars w)) w)).

(** [self.session.run(predictions, feed_dict={input_ph: inputs})] *)
Definition run_predict (predictions : predict_op) (inputs : list input)
  : M (list label) :=
  fun w => (Ok (predictions inputs (session_vars w)),
            log_event (RunPredict inputs) w).

(** One inner-loop step on a batch (lines 57-62 and 101-104). *)
Definition inner_step (self : Reptile) (minimize_op : train_op)
    (batch : list item) : M unit :=
  '(inputs, labels) ← unzip_batch batch;
  run_pre_step self ;;
  run_minimize minimize_op inputs labels.

(** The body of [for _ in range(meta_batch_size)] in [Reptile.train_step]. *)
Definition reptile_task (fuel : nat) (self : Reptile)
    (dataset : list (ClassSource input)) (minimize_op : train_op)
    (num_classes num_shots : nat) (inner_batch_size inner_iters : Z)
    (replacement : bool) (old_vars : vars) : M vars :=
  mini_dataset ← lift_rng_exn
    (_sample_mini_dataset_with_replacements dataset num_classes num_shots);
  for_gen (_mini_batches fuel mini_dataset inner_batch_size inner_iters replacement)
    (inner_step self minimize_op) ;;
  new ← export_model;
  import_model old_vars ;;
  ret new.

Definition train_step (fuel : nat) (self : Reptile)
    (dataset : list (ClassSource input)) (minimize_op : train_op)
    (num_classes num_shots : nat) (inner_batch_size inner_iters : Z)
    (replacement : bool) (meta_step_size : scalar B) (meta_batch_size : nat)
  : M unit :=
  old_vars ← export_model;
  new_vars ← repeatM meta_batch_size
    (reptile_task fuel self dataset minimize_op num_classes num_shots
       inner_batch_size inner_iters replacement old_vars);
  let new_vars := average_vars new_vars in
  import_model (interpolate_vars old_vars new_vars meta_step_size).

(** [augment(inputs)] *)
Definition run_aug (self : Reptile) (inputs : list input) : M (list input) :=
  fun w => let '(imgs, a) := aug self inputs (augmenter w) in
           (Ok imgs, set_augmenter a w).

(** [augmented_images = np.asarray(augmented_images).reshape([-1,84,84,3])],
    which raises [ValueError] where the stacked rows do not reshape. *)
Definition reshape_stack (augmented_images : list (list input))
  : M (list input) :=
  match reshape_images augmented_images with
  | Some images => ret images
  | None => raise ValueError
  end.

(** [Reptile.train_augmetation]: the batch, then three augmented copies,
    the labels flattened and the images reshaped into one feed. *)
Fixpoint augment_rounds (self : Reptile) (rounds : list nat)
    (batch : list item) (augmented_images : list (list input))
    (augmented_labels : list (list label))
  : M (list (list input) * list (list label)) :=
  match rounds with
  | [] => ret (augmented_images, augmented_labels)
  | i :: rounds' =>
      '(inputs, labels) ← unzip_batch batch;
      let '(augmented_images, augmented_labels) :=
        if decide (i = 0)
        then (augmented_images ++ [inputs], augmented_labels ++ [labels])
        else (augmented_images, augmented_labels) in
      more ← run_aug self inputs;
      augment_rounds self rounds' batch (augmented_images ++ [more])
        (augmented_labels ++ [labels])
  end.

Definition train_augmetation (self : Reptile) (batch : list item)
    (minimize_op : train_op) : M unit :=
  '(augmented_images, augmented_labels) ←
    augment_rounds self (seq 0 3) batch [] [];
  let augmented_labels := concat augmented_labels in
  augmented_images ← reshape_stack augmented_images;
  run_pre_step self ;;
  run_minimize minimize_op augmented_images augmented_labels.

(** [res.append(self.session.run(predictions, ...)[-1])] for each test
    sample. *)
Fixpoint predict_each (train_set test_set : list item)
    (predictions : predict_op) (res : list label) : M (list label) :=
  match test_set with
  | [] => ret res
  | test_sample :: test_set' =>
      '(inputs, _) ← unzip_batch train_set;
      let inputs := inputs ++ [test_sample.1] in
      preds ← run_predict predictions inputs;
      match last preds with
      | None => raise IndexError
      | Some p => predict_each train_set test_set' predictions (res ++ [p])
      end
  end.

Definition _test_predictions (self : Reptile) (train_set test_set : list item)
    (predictions : predict_op) : M (list label) :=
  if _transductive self
  then '(inputs, _) ← unzip_batch test_set;
       run_predict predictions inputs
  else predict_each train_set test_set predictions [].

(** [sum([pred == sample[1] for pred, sample in zip(test_preds, test_set)])] *)
Definition count_correct (test_preds : list label) (test_set : list item)
  : nat :=
  length (filter (fun ps => ps.1 = (ps.2).2) (zip test_preds test_set)).

Definition evaluate (fuel : nat) (self : Reptile)
    (dataset : list (ClassSource input)) (minimize_op : train_op)
    (predictions : predict_op) (num_classes num_shots : nat)
    (inner_batch_size inner_iters : Z) (replacement : bool) (augment : bool)
  : M nat :=
  task ← lift_rng (_sample_mini_dataset dataset num_classes (num_shots + 1));
  '(train_set, test_set) ← lift_exn (_split_train_test task 1);
  old_vars ← export_full;
  for_gen (_mini_batches fuel train_set inner_batch_size inner_iters replacement)
    (fun batch =>
       if augment
       then train_augmetation self batch minimize_op
       else inner_step self minimize_op batch) ;;
  test_preds ← _test_predictions self train_set test_set predictions;
  let num_correct := count_correct test_preds test_set in
  import_full old_vars ;;
  ret num_correct.

(** ** FOML *)

(** [class FOML(Reptile)]: a Reptile session with [tail_shots]. *)
Record FOML := {
  reptile : Reptile;
  tail_shots : option nat
}.

(** [FOML._mini_batches] *)
Definition FOML_mini_batches (fuel : nat) (self : FOML)
    (mini_dataset : list item) (inner_batch_size inner_iters : Z)
    (replacement : bool) (g : rng) : gen_result (list item) * rng :=
  match tail_shots self with
  | None => _mini_batches fuel mini_dataset inner_batch_size inner_iters replacement g
  | Some shots =>
      match _split_train_test mini_dataset shots with
      | inl e => (GenResult [] (Raise e), g)
      | inr (train, tail) =>
          let '(r, g) := _mini_batches fuel train inner_batch_size
                           (inner_iters - 1) replacement g in
          match finish r with
          | Ok _ => (GenResult (yielded r ++ [tail]) (Ok tt), g)
          | _ => (r, g)
          end
      end
  end.

(** The body of [for batch in mini_batches] in [FOML.train_step];
    [last_backup] is the method's local variable, unbound until the first
    batch of the call. *)
Fixpoint foml_batches (self : FOML) (minimize_op : train_op)
    (batches : list (list item)) (last_backup : option vars)
  : M (option vars) :=
  match batches with
  | [] => ret last_backup
  | batch :: batches' =>
      '(inputs, labels) ← unzip_batch batch;
      backup ← export_model;
      run_pre_step (reptile self) ;;
      run_minimize minimize_op inputs labels ;;
      foml_batches self minimize_op batches' (Some backup)
  end.

(** The body of [for _ in range(meta_batch_size)] in [FOML.train_step]. *)
Definition foml_task (fuel : nat) (self : FOML)
    (dataset : list (ClassSource input)) (minimize_op : train_op)
    (num_classes num_shots : nat) (inner_batch_size inner_iters : Z)
    (replacement : bool) (old_vars : vars) (last_backup : option vars)
  : M (vars * option vars) :=
  mini_dataset ← lift_rng_exn
    (_sample_mini_dataset_with_replacements dataset num_classes num_shots);
  mini_batches ← lift_rng
    (FOML_mini_batches fuel self mini_dataset inner_batch_size inner_iters
       replacement);
  last_backup ← foml_batches self minimize_op (yielded mini_batches) last_backup;
  gen_finish mini_batches ;;
  current ← export_model;
  match last_backup with
  | None => raise UnboundLocalError
  | Some backup =>
      import_model old_vars ;;
      ret (subtract_vars current backup, Some backup)
  end.

(** [for _ in range(meta_batch_size)], threading [updates] and
    [last_backup]. *)
Fixpoint foml_tasks (fuel : nat) (self : FOML)
    (dataset : list (ClassSource input)) (minimize_op : train_op)
    (num_classes num_shots : nat) (inner_batch_size inner_iters : Z)
    (replacement : bool) (old_vars : vars) (rounds : nat)
    (updates : list vars) (last_backup : option vars) : M (list vars) :=
  match rounds with
  | 0 => ret updates
  | S rounds' =>
      '(update, last_backup) ←
        foml_task fuel self dataset minimize_op num_classes num_shots
          inner_batch_size inner_iters replacement old_vars last_backup;
      foml_tasks fuel self dataset minimize_op num_classes num_shots
        inner_batch_size inner_iters replacement old_vars rounds'
        (updates ++ [update]) last_backup
  end.

Definition FOML_train_step (fuel : nat) (self : FOML)
    (dataset : list (ClassSource input)) (minimize_op : train_op)
    (num_classes num_shots : nat) (inner_batch_size inner_iters : Z)
    (replacement : bool) (meta_step_size : scalar B) (meta_batch_size : nat)
  : M unit :=
  old_vars ← export_model;
  updates ← foml_tasks fuel self dataset minimize_op num_classes num_shots
    inner_batch_size inner_iters replacement old_vars meta_batch_size [] None;
  let update := average_vars updates in
  import_model (add_vars old_vars (scale_vars update meta_step_size)).

End Reptile.

(** ** Vocabulary of the properties *)

(** A batch that is a contiguous slice of one full shuffle of [samples]. *)
Definition slice_of_shuffle {A} (samples y : list A) : Prop :=
  ∃ s pre post, s ≡ₚ samples ∧ s = pre ++ y ++ post.

(** The examples of a task that carry label [l], in task order. *)
Definition by_label {X} (l : label) (task : list (X * label)) : list (X * label) :=
  filter (λ it, it.2 = l) task.

(** The state of the split loops, relative to the task they started from:
    [n l] first examples of every label [l] have moved to the test set, in
    order, and nothing else has changed. *)
Definition split_inv {X} (task : list (X * label)) (n : label → nat)
    (train test : list (X * label)) : Prop :=
  (∀ l, by_label l test = take (n l) (by_label l task) ∧
        by_label l train = drop (n l) (by_label l task)) ∧
  train ++ test ≡ₚ task ∧
  train `sublist_of` task.

(** A data class that hands out as many examples as it is asked for. *)
Definition supplies {X} (c : ClassSource X) : Prop :=
  ∀ n g, length (sample c n g).1 = n.

(** Steps taken one after the other: [chain step w vs w'] threads the
    state through one [step] per element of [vs]. *)
Inductive chain {W V} (step : W → V → W → Prop) : W → list V → W → Prop :=
  | chain_nil w : chain step w [] w
  | chain_cons w v w1 vs w2 :
      step w v w1 → chain step w1 vs w2 → chain step w (v :: vs) w2.

(** One inner adaptation of a Reptile meta-step, from world [w] to world
    [w']: it starts with the trainable scope at [old_vars], samples a task
    with class replacement, takes one inner step per mini-batch of that
    task ([inner_iters] of them), exports [new], and leaves the trainable
    scope back at [old_vars]. *)
Definition reptile_adaptation {B : Backend} (fuel : nat) (self : Reptile)
    (dataset : list (ClassSource (input B))) (minimize_op : train_op)
    (num_classes num_shots : nat) (inner_batch_size inner_iters : Z)
    (replacement : bool) (old_vars : vars B)
    (w : world) (new : vars B) (w' : world) : Prop :=
  model_vars (session_vars w) = old_vars ∧
  ∃ task g1 batches g2 w_end,
    _sample_mini_dataset_with_replacements dataset num_classes num_shots
      (random_state w) = (inr task, g1) ∧
    _mini_batches fuel task inner_batch_size inner_iters replacement g1
      = (GenResult batches (Ok tt), g2) ∧
    length batches = Z.to_nat inner_iters ∧
    for_each batches (inner_step self minimize_op) (set_rng g2 w)
      = (Ok tt, w_end) ∧
    new = model_vars (session_vars w_end) ∧
    w' = set_vars (Store old_vars (other_vars (session_vars w_end))) w_end.

(** One inner adaptation of a FOML meta-step: as above, but the batches
    split into the [earlier] ones and the [final] one, and what is recorded
    is the trainable snapshot after the final step minus the one taken
    right before it. *)
Definition foml_adaptation {B : Backend} (fuel : nat) (self : FOML)
    (dataset : list (ClassSource (input B))) (minimize_op : train_op)
    (num_classes num_shots : nat) (inner_batch_size inner_iters : Z)
    (replacement : bool) (old_vars : vars B)
    (w : world) (update : vars B) (w' : world) : Prop :=
  model_vars (session_vars w) = old_vars ∧
  ∃ task g1 earlier final g2 w_pre w_end,
    _sample_mini_dataset_with_replacements dataset num_classes num_shots
      (random_state w) = (inr task, g1) ∧
    FOML_mini_batches fuel self task inner_batch_size inner_iters replacement g1
      = (GenResult (earlier ++ [final]) (Ok tt), g2) ∧
    for_each earlier (inner_step (reptile self) minimize_op) (set_rng g2 w)
      = (Ok tt, w_pre) ∧
    inner_step (reptile self) minimize_op final w_pre = (Ok tt, w_end) ∧
    update = subtract_vars (model_vars (session_vars w_end))
               (model_vars (session_vars w_pre)) ∧
    w' = set_vars (Store old_vars (other_vars (session_vars w_end))) w_end.

(** The configurations in which [FOML._mini_batches] returns without
    having yielded a batch. *)
Definition no_batches {B : Backend} (self : @FOML B) (inner_iters : Z)
    (replacement : bool) : Prop :=
  tail_shots self = None ∧ replacement = true ∧ (inner_iters ≤ 0)%Z.

(** The [session.run] calls that fetch predictions. *)
Definition is_predict {B : Backend} (e : event (B:=B)) : Prop :=
  match e with
  | RunPredict _ => True
  | _ => False
  end.

(** Fine-tuning from [w] to [w']: the session has run some ops, none of
    which is a prediction. *)
Definition trained {B : Backend} (w w' : world (B:=B)) : Prop :=
  ∃ steps, session_log w' = session_log w ++ steps ∧
           Forall (λ e, ¬ is_predict e) steps.

(** The feeds of the predict calls the two evaluation modes make: all test
    inputs at once, or, per test example, the training inputs followed by
    that example. *)
Definition predict_feeds {B : Backend} (self : Reptile (B:=B))
    (train_set test_set : list (input B * label)) : list (list (input B)) :=
  if _transductive self
  then [map fst test_set]
  else map (λ test_sample, map fst train_set ++ [test_sample.1]) test_set.

(** One call of [evaluate], with the number it returned. *)
Record evaluation {B : Backend} := {
  ev_fuel : nat;
  ev_dataset : list (ClassSource (input B));
  ev_minimize_op : train_op (B:=B);
  ev_predictions : predict_op (B:=B);
  ev_num_classes : nat;
  ev_num_shots : nat;
  ev_inner_batch_size : Z;
  ev_inner_iters : Z;
  ev_replacement : bool;
  ev_augment : bool;
  ev_result : nat
}.

Definition evaluates {B : Backend} (self : Reptile (B:=B))
    (w : world) (e : evaluation) (w' : world) : Prop :=
  evaluate (ev_fuel e) self (ev_dataset e) (ev_minimize_op e)
    (ev_predictions e) (ev_num_classes e) (ev_num_shots e)
    (ev_inner_batch_size e) (ev_inner_iters e) (ev_replacement e)
    (ev_augment e) w
  = (Ok (ev_result e), w').

(** Arguments with which the sampling and the inner loop of a meta-step
    go through: a non-empty dataset whose classes supply what they are
    asked for, batches of at least one example, and either batches drawn
    with replacement that the task of [num_classes * num_shots] examples
    can fill, or batches cut from shuffles of a non-empty task, at least
    one of them, with fuel for all the reshuffles. *)
Definition inner_loop_runs {X} (fuel : nat) (dataset : list (ClassSource X))
    (num_classes num_shots : nat) (inner_batch_size inner_iters : Z)
    (replacement : bool) : Prop :=
  dataset ≠ [] ∧ Forall supplies dataset ∧ (1 ≤ inner_batch_size)%Z ∧
  if replacement
  then (inner_batch_size ≤ Z.of_nat (num_classes * num_shots))%Z
  else 0 < num_classes * num_shots ∧ (1 ≤ inner_iters)%Z ∧
       (inner_iters * inner_batch_size ≤ Z.of_nat fuel)%Z.

(** Arguments with which an evaluation episode goes through: classes that
    supply what they are asked for, batches of at least one example that
    the training portion ([num_shots] examples of each sampled class) can
    fill, or, without replacement, a non-empty training portion, at least
    one inner iteration and fuel for the reshuffles; and, when predictions
    are fetched per test example, a prediction op that answers every
    non-empty feed with at least one label. *)
Definition evaluate_runs {B : Backend} (fuel : nat) (self : Reptile (B:=B))
    (dataset : list (ClassSource (input B))) (predictions : predict_op (B:=B))
    (num_classes num_shots : nat) (inner_batch_size inner_iters : Z)
    (replacement : bool) : Prop :=
  Forall supplies dataset ∧ (1 ≤ inner_batch_size)%Z ∧
  (if replacement
   then (inner_batch_size
         ≤ Z.of_nat ((num_classes `min` length dataset) * num_shots))%Z
   else 0 < (num_classes `min` length dataset) * num_shots ∧
        (1 ≤ inner_iters)%Z ∧
        (inner_iters * inner_batch_size ≤ Z.of_nat fuel)%Z) ∧
  (_transductive self = false →
   ∀ inputs s, inputs ≠ [] → predictions inputs s ≠ []).

(** The feeds of the [minimize_op] runs of a log, in order. *)
Fixpoint minimize_feeds {B : Backend} (log : list (event (B:=B)))
  : list (list (input B) * list label) :=
  match log with
  | [] => []
  | RunMinimize inputs labels :: log' =>
      (inputs, labels) :: minimize_feeds log'
  | _ :: log' => minimize_feeds log'
  end.

(** What a logged call does to the variables of the session, and what a
    whole log does to them, call after call. *)
Definition replay_event {B : Backend} (self : Reptile (B:=B))
    (minimize_op : train_op) (e : event) (s : store) : store :=
  match e with
  | RunPreStep =>
      match _pre_step_op self with
      | Some op => op s
      | None => s
      end
  | RunMinimize inputs labels => minimize_op inputs labels s
  | RunPredict _ => s
  end.

Definition replay {B : Backend} (self : Reptile (B:=B))
    (minimize_op : train_op) (log : list event) (s : store) : store :=
  foldl (λ s e, replay_event self minimize_op e s) s log.

(** From [w] to [w'] the session has only run ops: its log has grown by
    some calls and its variables are what these calls make of the
    variables of [w]. *)
Definition ran {B : Backend} (self : Reptile (B:=B)) (minimize_op : train_op)
    (w w' : world) : Prop :=
  ∃ calls, session_log w' = session_log w ++ calls ∧
           session_vars w' = replay self minimize_op calls (session_vars w).

(** The rows that [train_augmetation] stacks for a batch with these
    [inputs]: the inputs themselves, then three successive outputs of the
    augmenter on them; and the state the augmenter is left in. *)
Definition augmented_stack {B : Backend} (self : Reptile (B:=B))
    (inputs : list (input B)) (a : aug_state B)
  : list (list (input B)) * aug_state B :=
  let r1 := aug self inputs a in
  let r2 := aug self inputs r1.2 in
  let r3 := aug self inputs r2.2 in
  ([inputs; r1.1; r2.1; r3.1], r3.2).

(** The augmenter and the examples go together: whatever the inputs of a
    batch and the state of the augmenter, the stacked rows reshape into
    84 x 84 x 3 images. *)
Definition augmentation_fits {B : Backend} (self : Reptile (B:=B)) : Prop :=
  ∀ inputs a, inputs ≠ [] →
    is_Some (reshape_images (augmented_stack self inputs a).1).

(** The feed of the optimisation step that fine-tuning takes on a batch:
    the inputs and labels of the batch, or, on the augmentation path, the
    reshaped stack of the inputs and their three augmented copies (for
    some state of the augmenter) and the labels four times over. *)
Definition fine_tuning_feed {B : Backend} (self : Reptile (B:=B))
    (augment : bool) (batch : list (input B * label))
    (feed : list (input B) * list label) : Prop :=
  if augment
  then (∃ a, reshape_images (augmented_stack self (map fst batch) a).1
             = Some feed.1) ∧
       feed.2 = map snd batch ++ map snd batch ++ map snd batch
                ++ map snd batch
  else feed = (map fst batch, map snd batch).

(** A computation that, however it ends, has only run ops. *)
Definition only_runs {B : Backend} {A} (self : Reptile (B:=B))
    (minimize_op : train_op) (m : M A) : Prop :=
  ∀ w o w', m w = (o, w') → ran self minimize_op w w'.

(** ** A one-parameter integer model

    A concrete backend on which the definitions run: examples are numbers,
    the trainable scope is one integer weight and the rest of the session
    is a step counter. *)
Module Scalar.

(** Modelled from the spec: the snapshot arithmetic of [variables.py] on a
    single integer parameter, with [interpolate(a, b, t) = a + t * (b - a)]
    and the mean as the (integer) quotient of the sum by the count.
    Examples are plain numbers, and a stack of numbers is no stack of
    84 x 84 x 3 images: reshaping it fails unless it is empty (as numpy
    does for the stacks of fewer than 84 * 84 * 3 numbers used here). *)
Definition backend : Backend := {|
  input := nat;
  vars := Z;
  aux := nat;
  scalar := Z;
  aug_state := unit;
  interpolate_vars := fun a b t => (a + t * (b - a))%Z;
  average_vars := fun l => (foldr Z.add 0 l / Z.of_nat (length l))%Z;
  subtract_vars := Z.sub;
  add_vars := Z.add;
  scale_vars := Z.mul;
  reshape_images := fun rows =>
    match concat rows with
    | [] => Some []
    | _ => None
    end
|}.

(** A data class with the examples [x, x+1, ...], handing out the first
    [n] of them. *)
Definition counting_class (x : nat) : ClassSource nat :=
  {| sample := fun n g => (seq x n, g) |}.

(** A step that adds the inputs of the batch to the weight and counts
    itself in the auxiliary state. *)
Definition sum_step : @train_op backend :=
  fun inputs _ s =>
    Store (B:=backend) (model_vars s + Z.of_nat (foldr Nat.add 0%nat inputs))%Z
      (S (other_vars s)).

(** Predicts, for every input, the input itself reduced modulo 2. *)
Definition parity : @predict_op backend :=
  fun inputs _ => map (fun x => x mod 2) inputs.

Definition session (transductive : bool) : @Reptile backend := {|
  _transductive := transductive;
  _pre_step_op := None;
  aug := fun inputs a => (inputs, a)
|}.

Definition start (g : rng) : @world backend :=
  World (B:=backend) (Store (B:=backend) 10%Z 0) [] g tt.

Definition two_classes : list (ClassSource nat) :=
  [counting_class 10; counting_class 20].

Definition foml_session (tail_shots : option nat) : @FOML backend :=
  {| reptile := session false; tail_shots := tail_shots |}.

(** An evaluation of [two_classes] with two shots, batches of two and
    three inner iterations, which returned [result]. *)
Definition evaluation_of (replacement : bool) (result : nat)
  : @evaluation backend :=
  @Build_evaluation backend 10 two_classes sum_step parity 2 2 2 3
    replacement false result.

End Scalar.

(** ** An integer model with images

    The same one-parameter model, with examples that are 84 x 84 x 3
    images, each named by a number.  Rows of equally many images stack
    into an array that reshapes to the images of the rows, one row after
    the other; rows of different lengths do not make an array.  The
    augmenter counts its calls and gives the copy of image [x] made in
    call [a] the name [x + 100 * a]. *)
Module Images.

Definition backend : Backend := {|
  input := nat;
  vars := Z;
  aux := nat;
  scalar := Z;
  aug_state := nat;
  interpolate_vars := fun a b t => (a + t * (b - a))%Z;
  average_vars := fun l => (foldr Z.add 0 l / Z.of_nat (length l))%Z;
  subtract_vars := Z.sub;
  add_vars := Z.add;
  scale_vars := Z.mul;
  reshape_images := fun rows =>
    match rows with
    | [] => Some []
    | row :: rest =>
        if forallb (fun r => length r =? length row) rest
        then Some (concat rows)
        else None
    end
|}.

Definition sum_step : @train_op backend :=
  fun inputs _ s =>
    Store (B:=backend) (model_vars s + Z.of_nat (foldr Nat.add 0%nat inputs))%Z
      (S (other_vars s)).

Definition parity : @predict_op backend :=
  fun inputs _ => map (fun x => x mod 2) inputs.

Definition session (transductive : bool) : @Reptile backend :=
  @Build_Reptile backend transductive None
    (fun (inputs : list nat) (a : nat) =>
       (map (fun x => x + 100 * S a) inputs, S a)).

Definition start (g : rng) : @world backend :=
  World (B:=backend) (Store (B:=backend) 10%Z 0) [] g 0.

Definition two_classes : list (ClassSource nat) :=
  [{| sample := fun n g => (seq 10 n, g) |};
   {| sample := fun n g => (seq 20 n, g) |}].

End Images.

(** * Properties *)

(** ** The random source *)

Lemma randbelow_lt n g : 0 < n → (randbelow n g).1 < n.
Proof.
  intros Hn. destruct g as [|x g]; simpl; [lia|].
  apply Nat.mod_upper_bound. lia.
Qed.

Lemma insert_Permutation {A} (l : list A) j r y :
  l !! j = Some r → r :: <[j:=y]> l ≡ₚ y :: l.
Proof.
  revert j. induction l as [|a l IH]; intros [|j] Hj; simplify_eq/=.
  - apply perm_swap.
  - etrans; [apply perm_swap|].
    etrans; [apply perm_skip, (IH _ Hj)|]. apply perm_swap.
Qed.

Lemma swap_Permutation {A} (x : list A) i j : swap x i j ≡ₚ x.
Proof.
  unfold swap.
  destruct (x !! i) as [a|] eqn:Hi; [|done].
  destruct (x !! j) as [b|] eqn:Hj; [|done].
  destruct (decide (i = j)) as [->|Hne].
  - simplify_eq. rewrite list_insert_insert_eq. by rewrite list_insert_id.
  - apply (Permutation_cons_inv (a:=b)).
    etrans; [apply insert_Permutation; by rewrite list_lookup_insert_ne|].
    by apply insert_Permutation.
Qed.

Lemma shuffle_from_Permutation {A} i (x : list A) g :
  (shuffle_from i x g).1 ≡ₚ x.
Proof.
  revert x g. induction i as [|i IH]; intros x g; simpl; [done|].
  destruct (randbelow _ g) as [j g'].
  etrans; [apply IH|apply swap_Permutation].
Qed.

Lemma random_shuffle_Permutation {A} (x : list A) g :
  (random_shuffle x g).1 ≡ₚ x.
Proof. apply shuffle_from_Permutation. Qed.

Lemma random_shuffle_length {A} (x : list A) g :
  length (random_shuffle x g).1 = length x.
Proof. by rewrite random_shuffle_Permutation. Qed.

(** The selection loop picks [todo] entries of the live prefix of the pool,
    each position at most once. *)
Lemma sample_pool_spec {A} todo i (pool : list A) g :
  i + todo ≤ length pool →
  length (sample_pool todo i pool g).1 = todo ∧
  (sample_pool todo i pool g).1 ⊆+ take (length pool - i) pool.
Proof.
  revert i pool g. induction todo as [|todo IH]; intros i pool g Hle; simpl.
  { split; [done|]. apply submseteq_nil_l. }
  pose proof (randbelow_lt (length pool - i) g ltac:(lia)) as Hj.
  destruct (randbelow (length pool - i) g) as [j g']. simpl in Hj.
  destruct (lookup_lt_is_Some_2 pool j ltac:(lia)) as [r Hr].
  destruct (lookup_lt_is_Some_2 pool (length pool - i - 1) ltac:(lia))
    as [y Hy].
  rewrite Hr, Hy.
  destruct (IH (S i) (<[j:=y]> pool) g') as [Hlen Hsub].
  { rewrite length_insert. lia. }
  destruct (sample_pool todo (S i) (<[j:=y]> pool) g') as [res g''].
  simpl in *. split; [by rewrite Hlen|].
  rewrite length_insert in Hsub.
  set (m := length pool - i - 1) in *.
  replace (length pool - S i) with m in Hsub by lia.
  replace (length pool - i) with (S m) by lia.
  rewrite (take_S_r pool m y Hy).
  transitivity (r :: take m (<[j:=y]> pool)); [by apply submseteq_skip|].
  apply Permutation_submseteq.
  destruct (decide (j = m)) as [->|Hne].
  - rewrite take_insert_ge by lia. simplify_eq.
    by rewrite Permutation_cons_append.
  - rewrite take_insert_lt by lia.
    rewrite insert_Permutation.
    + by rewrite Permutation_cons_append.
    + rewrite lookup_take_lt by lia. done.
Qed.

Lemma random_sample_ok {A} (population : list A) k g :
  (0 ≤ k ≤ Z.of_nat (length population))%Z →
  ∃ batch g', random_sample population k g = (inr batch, g') ∧
    length batch = Z.to_nat k ∧ batch ⊆+ population.
Proof.
  intros Hk. unfold random_sample.
  destruct (Z.leb_spec 0 k); [|lia].
  destruct (Z.leb_spec k (Z.of_nat (length population))); [|lia]. simpl.
  destruct (sample_pool_spec (Z.to_nat k) 0 population g ltac:(lia))
    as [Hlen Hsub].
  destruct (sample_pool (Z.to_nat k) 0 population g) as [res g'].
  exists res, g'. simpl in *. split_and!; [done..|].
  by rewrite Nat.sub_0_r, firstn_all in Hsub.
Qed.

Lemma random_sample_error {A} (population : list A) k g :
  (k < 0 ∨ Z.of_nat (length population) < k)%Z →
  random_sample population k g = (inl ValueError, g).
Proof.
  intros Hk. unfold random_sample.
  destruct (Z.leb_spec 0 k); [|done].
  destruct (Z.leb_spec k (Z.of_nat (length population))); [lia|done].
Qed.

(** ** Mini-batches with replacement *)

Lemma sample_batches_ok {A} (samples : list A) batch_size rounds g :
  (0 ≤ batch_size ≤ Z.of_nat (length samples))%Z →
  finish (sample_batches samples batch_size rounds g).1 = Ok tt ∧
  length (yielded (sample_batches samples batch_size rounds g).1) = rounds ∧
  Forall (λ batch, length batch = Z.to_nat batch_size ∧ batch ⊆+ samples)
    (yielded (sample_batches samples batch_size rounds g).1).
Proof.
  intros Hk. revert g. induction rounds as [|rounds IH]; intros g; simpl.
  { by split_and!. }
  destruct (random_sample_ok samples batch_size g Hk)
    as (batch & g' & -> & Hlen & Hsub).
  specialize (IH g').
  destruct (sample_batches samples batch_size rounds g') as [r g''].
  simpl in *. destruct IH as (? & ? & ?).
  split_and!; [done|by f_equal|by constructor].
Qed.

Lemma sample_batches_error {A} (samples : list A) batch_size rounds g :
  (batch_size < 0 ∨ Z.of_nat (length samples) < batch_size)%Z →
  sample_batches samples batch_size (S rounds) g
  = (GenResult [] (Raise ValueError), g).
Proof. intros Hk. simpl. by rewrite random_sample_error. Qed.

(** ** Mini-batches without replacement *)

Lemma for_samples_spec {A} batch_size num_batches (rest cur : list A)
    batch_count out :
  length cur < batch_len batch_size →
  match for_samples batch_size num_batches rest cur batch_count out with
  | Returned out' =>
      ∃ ys used unused,
        out' = out ++ ys ∧ rest = used ++ unused ∧ concat ys = cur ++ used ∧
        Forall (λ y, length y = batch_len batch_size) ys ∧
        (batch_count + Z.of_nat (length ys) = num_batches)%Z ∧ ys ≠ []
  | Exhausted cur' batch_count' out' =>
      ∃ ys,
        out' = out ++ ys ∧ concat ys ++ cur' = cur ++ rest ∧
        Forall (λ y, length y = batch_len batch_size) ys ∧
        batch_count' = (batch_count + Z.of_nat (length ys))%Z ∧
        length cur' < batch_len batch_size ∧
        ∀ k, 0 < k ≤ length ys → (batch_count + Z.of_nat k)%Z ≠ num_batches
  end.
Proof.
  unfold batch_len.
  revert cur batch_count out.
  induction rest as [|sample rest IH]; intros cur batch_count out Hcur; simpl.
  { exists []. rewrite !app_nil_r. simpl.
    split_and!; [done|done|constructor|lia|done|intros; lia]. }
  rewrite length_app. simpl.
  destruct (Z.ltb_spec (Z.of_nat (length cur + 1)) batch_size) as [Hlt|Hge].
  - specialize (IH (cur ++ [sample]) batch_count out).
    rewrite length_app in IH. simpl in IH. specialize (IH ltac:(lia)).
    destruct (for_samples batch_size num_batches rest (cur ++ [sample])
                batch_count out) as [out'|cur' bc' out'].
    + destruct IH as (ys & used & unused & -> & -> & Hcat & Hall & Hbc & Hne).
      exists ys, (sample :: used), unused.
      rewrite Hcat, <- app_assoc. by split_and!.
    + destruct IH as (ys & -> & Hcat & Hall & -> & Hlen & Hk).
      exists ys. rewrite Hcat, <- app_assoc. by split_and!.
  - assert (length (cur ++ [sample]) = Z.to_nat (Z.max batch_size 1)) as Hfull.
    { rewrite length_app. simpl. lia. }
    destruct (Z.eqb_spec (batch_count + 1) num_batches) as [Heq|Hneq].
    + exists [cur ++ [sample]], [sample], rest. simpl. rewrite app_nil_r.
      split_and!; [done|done|done|by repeat constructor|lia|done].
    + specialize (IH [] (batch_count + 1)%Z (out ++ [cur ++ [sample]])).
      specialize (IH ltac:(simpl; lia)).
      destruct (for_samples batch_size num_batches rest []
                  (batch_count + 1) (out ++ [cur ++ [sample]]))
        as [out'|cur' bc' out'].
      * destruct IH as (ys & used & unused & -> & -> & Hcat & Hall & Hbc & Hne).
        exists ((cur ++ [sample]) :: ys), (sample :: used), unused. simpl.
        rewrite Hcat, <- !app_assoc. simpl.
        split_and!; [done|done|done|by constructor|lia|done].
      * destruct IH as (ys & -> & Hcat & Hall & -> & Hlen & Hk).
        exists ((cur ++ [sample]) :: ys). simpl.
        rewrite <- !app_assoc. simpl. rewrite Hcat. simpl.
        split_and!; [done|done|by constructor|lia|done|].
        intros k Hk'. destruct (decide (k = 1)) as [->|]; [lia|].
        specialize (Hk (k - 1) ltac:(lia)). lia.
Qed.

Lemma concat_length_uniform {A} (ys : list (list A)) n :
  Forall (λ y, length y = n) ys → length (concat ys) = length ys * n.
Proof.
  induction 1 as [|y ys Hy _ IH]; simpl; [done|].
  rewrite length_app, IH, Hy. lia.
Qed.

Lemma concat_infix {A} (ys : list (list A)) y :
  y ∈ ys → ∃ pre post, concat ys = pre ++ y ++ post.
Proof.
  induction 1 as [y ys|y z ys _ (pre & post & IH)]; simpl.
  - by exists [], (concat ys).
  - exists (z ++ pre), post. by rewrite IH, <- app_assoc.
Qed.

Lemma concat_subseteq {A} (ys : list (list A)) (l : list A) :
  concat ys ⊆ l → Forall (λ y, y ⊆ l) ys.
Proof.
  intros Hsub. apply Forall_forall. intros y Hy x Hx.
  apply Hsub, list_elem_of_In, in_concat. exists y.
  by rewrite <- !list_elem_of_In.
Qed.

Lemma shuffle_batches_spec {A} fuel batch_size num_batches
    (samples cur : list A) batch_count out g :
  samples ≠ [] →
  (batch_count < num_batches)%Z →
  length cur < batch_len batch_size →
  cur ⊆ samples →
  ((num_batches - batch_count) * Z.of_nat (batch_len batch_size)
   - Z.of_nat (length cur) ≤ Z.of_nat fuel)%Z →
  ∃ ys g',
    shuffle_batches fuel batch_size num_batches samples cur batch_count out g
    = (GenResult (out ++ ys) (Ok tt), g') ∧
    Forall (λ y, length y = batch_len batch_size) ys ∧
    Z.of_nat (length ys) = (num_batches - batch_count)%Z ∧
    Forall (λ y, y ⊆ samples) ys ∧
    (cur = [] → (batch_len batch_size | length samples) →
     Forall (slice_of_shuffle samples) ys) ∧
    (∃ shuffles unused,
       Forall (λ s, s ≡ₚ samples) shuffles ∧
       cur ++ concat shuffles = concat ys ++ unused).
Proof.
  revert samples cur batch_count out g.
  induction fuel as [|fuel IH];
    intros samples cur batch_count out g Hne Hbc Hcur Hsub Hfuel.
  { exfalso. nia. }
  simpl.
  pose proof (random_shuffle_Permutation samples g) as Hperm.
  destruct (random_shuffle samples g) as [s g1]. simpl in Hperm.
  assert (s ≠ []) as Hs.
  { intros ->. apply Permutation_nil_l in Hperm. done. }
  assert (length s = length samples) as Hlen by by rewrite Hperm.
  pose proof (for_samples_spec batch_size num_batches s cur batch_count out
                Hcur) as Hpass.
  destruct (for_samples batch_size num_batches s cur batch_count out)
    as [out'|cur' bc' out'].
  - destruct Hpass as (ys & used & unused & -> & Hs' & Hcat & Hall & Hcnt & _).
    exists ys, g1. split_and!; [done|done|lia| | |].
    + apply concat_subseteq. rewrite Hcat. intros x [Hx|Hx]%elem_of_app.
      * by apply Hsub.
      * rewrite <- Hperm, Hs'. apply elem_of_app. by left.
    + intros -> _. apply Forall_forall. intros y Hy.
      destruct (concat_infix ys y Hy) as (pre & post & Hpp).
      exists s, pre, (post ++ unused). split; [done|].
      simpl in Hcat. rewrite Hs', <- Hcat, Hpp.
      by rewrite <- !app_assoc.
    + exists [s], unused. split; [by repeat constructor|].
      simpl. by rewrite app_nil_r, Hcat, Hs', app_assoc.
  - destruct Hpass as (ys & -> & Hcat & Hall & -> & Hcur' & Hk).
    pose proof (concat_length_uniform ys _ Hall) as Hcl.
    assert (length ys * batch_len batch_size + length cur'
            = length cur + length s) as Hsum.
    { rewrite <- Hcl, <- !length_app. by rewrite Hcat. }
    assert (cur' ⊆ s ∧ Forall (λ y, y ⊆ s) ys) as [Hsub' Hys].
    { assert (concat ys ++ cur' ⊆ s) as Hall'.
      { rewrite Hcat. intros x [Hx|Hx]%elem_of_app; [|done].
        rewrite Hperm. by apply Hsub. }
      split.
      - intros x Hx. apply Hall', elem_of_app. by right.
      - apply concat_subseteq. intros x Hx. apply Hall', elem_of_app.
        by left. }
    assert (batch_count + Z.of_nat (length ys) < num_batches)%Z as Hbc'.
    { destruct (Z.ltb_spec (batch_count + Z.of_nat (length ys)) num_batches)
        as [|Hge]; [done|]. exfalso.
      apply (Hk (Z.to_nat (num_batches - batch_count))); lia. }
    destruct (IH s cur' (batch_count + Z.of_nat (length ys))%Z (out ++ ys) g1)
      as (zs & g' & Heq & Hzlen & Hzcnt & Hzsub & Hzslice & Hstream);
      [done|done|done|done| |].
    { destruct s; [done|]. simpl in Hsum. nia. }
    exists (ys ++ zs), g'. rewrite Heq, <- app_assoc.
    split_and!; [done|by apply Forall_app|rewrite length_app; lia| | |].
    + apply Forall_app. split.
      * eapply Forall_impl; [exact Hys|]. intros y Hy. by rewrite <- Hperm.
      * eapply Forall_impl; [exact Hzsub|]. intros y Hy. by rewrite <- Hperm.
    + intros -> Hdiv. simpl in *.
      assert (cur' = []) as ->.
      { apply length_zero_iff_nil. destruct Hdiv as [z Hz].
        rewrite Hlen, Hz in Hsum. simpl in Hsum.
        destruct (Nat.lt_trichotomy z (length ys)) as [?|[?|?]]; nia. }
      rewrite app_nil_r in Hcat.
      apply Forall_app. split.
      * apply Forall_forall. intros y Hy.
        destruct (concat_infix ys y Hy) as (pre & post & Hpp).
        exists s, pre, post. split; [done|]. by rewrite <- Hcat.
      * eapply Forall_impl; [apply Hzslice; [done|by rewrite Hlen]|].
        intros y (s' & pre & post & Hp & ->).
        exists (pre ++ y ++ post), pre, post. split; [|done].
        by rewrite Hp.
    + destruct Hstream as (shuffles & unused & Hshuf & Hstr).
      exists (s :: shuffles), unused. split.
      * constructor; [done|]. eapply Forall_impl; [exact Hshuf|].
        intros s' Hs'. by rewrite Hs'.
      * simpl. rewrite concat_app, app_assoc, <- Hcat, <- !app_assoc.
        by rewrite Hstr.
Qed.

(** Whatever the fuel: the shape of what has been yielded so far. *)
Lemma shuffle_batches_prefix {A} fuel batch_size num_batches
    (samples cur : list A) batch_count out g :
  length cur < batch_len batch_size →
  ∃ ys,
    yielded (shuffle_batches fuel batch_size num_batches samples cur
               batch_count out g).1 = out ++ ys ∧
    Forall (λ y, length y = batch_len batch_size) ys ∧
    (finish (shuffle_batches fuel batch_size num_batches samples cur
               batch_count out g).1 = Timeout ∨
     finish (shuffle_batches fuel batch_size num_batches samples cur
               batch_count out g).1 = Ok tt ∧
     (batch_count + Z.of_nat (length ys))%Z = num_batches ∧ ys ≠ []) ∧
    (cur = [] → (batch_len batch_size | length samples) →
     Forall (slice_of_shuffle samples) ys).
Proof.
  revert samples cur batch_count out g.
  induction fuel as [|fuel IH]; intros samples cur batch_count out g Hcur.
  { exists []. simpl. rewrite app_nil_r. split_and!; auto. }
  simpl.
  pose proof (random_shuffle_Permutation samples g) as Hperm.
  destruct (random_shuffle samples g) as [s g1]. simpl in Hperm.
  assert (length s = length samples) as Hlen by by rewrite Hperm.
  pose proof (for_samples_spec batch_size num_batches s cur batch_count out
                Hcur) as Hpass.
  destruct (for_samples batch_size num_batches s cur batch_count out)
    as [out'|cur' bc' out'].
  - destruct Hpass as (ys & used & unused & -> & Hs' & Hcat & Hall & Hcnt & ?).
    exists ys. simpl. split_and!; [done|done|by right|].
    intros -> _. apply Forall_forall. intros y Hy.
    destruct (concat_infix ys y Hy) as (pre & post & Hpp).
    exists s, pre, (post ++ unused). split; [done|].
    simpl in Hcat. rewrite Hs', <- Hcat, Hpp. by rewrite <- !app_assoc.
  - destruct Hpass as (ys & -> & Hcat & Hall & -> & Hcur' & Hk).
    destruct (IH s cur' (batch_count + Z.of_nat (length ys))%Z (out ++ ys) g1
                Hcur') as (zs & Hy & Hzlen & Hfin & Hzslice).
    exists (ys ++ zs). rewrite Hy, <- app_assoc.
    split_and!; [done|by apply Forall_app| |].
    + destruct Hfin as [?|(? & ? & ?)]; [by left|right].
      split_and!; [done|rewrite length_app; lia|].
      intros [-> ->]%app_eq_nil. done.
    + intros -> Hdiv. simpl in *.
      pose proof (concat_length_uniform ys _ Hall) as Hcl.
      assert (cur' = []) as ->.
      { apply length_zero_iff_nil. destruct Hdiv as [z Hz].
        assert (length (concat ys ++ cur') = length s) as Hsum
          by by rewrite Hcat.
        rewrite length_app, Hcl, Hlen, Hz in Hsum.
        destruct (Nat.lt_trichotomy z (length ys)) as [?|[?|?]]; nia. }
      rewrite app_nil_r in Hcat.
      apply Forall_app. split.
      * apply Forall_forall. intros y Hy'.
        destruct (concat_infix ys y Hy') as (pre & post & Hpp).
        exists s, pre, post. split; [done|]. by rewrite <- Hcat.
      * eapply Forall_impl; [apply Hzslice; [done|by rewrite Hlen]|].
        intros y (s' & pre & post & Hp & ->).
        exists (pre ++ y ++ post), pre, post. split; [|done].
        by rewrite Hp.
Qed.

(** With no samples the loop reshuffles for ever: nothing is yielded and
    the generator never returns. *)
Lemma shuffle_batches_empty {A} fuel batch_size num_batches
    (cur : list A) batch_count out g :
  shuffle_batches fuel batch_size num_batches [] cur batch_count out g
  = (GenResult out Timeout, g).
Proof.
  revert cur batch_count out g. induction fuel as [|fuel IH]; intros; [done|].
  simpl. apply IH.
Qed.

Lemma sample_batches_length {A} (samples : list A) batch_size rounds g :
  finish (sample_batches samples batch_size rounds g).1 = Ok tt →
  length (yielded (sample_batches samples batch_size rounds g).1) = rounds.
Proof.
  revert g. induction rounds as [|rounds IH]; intros g; simpl; [done|].
  destruct (random_sample samples batch_size g) as [[e|batch] g']; [done|].
  specialize (IH g').
  destruct (sample_batches samples batch_size rounds g') as [r g''].
  simpl in *. intros Hfin. by rewrite IH.
Qed.

(** A generator that returns has yielded [num_batches] batches. *)
Lemma mini_batches_returned_length {A} fuel (samples : list A) batch_size
    num_batches replacement g :
  finish (_mini_batches fuel samples batch_size num_batches replacement g).1
  = Ok tt →
  length (yielded (_mini_batches fuel samples batch_size num_batches
                     replacement g).1) = Z.to_nat num_batches.
Proof.
  unfold _mini_batches. destruct replacement.
  - apply sample_batches_length.
  - destruct (shuffle_batches_prefix fuel batch_size num_batches samples []
                0%Z [] g) as (ys & Hy & _ & Hfin & _).
    { unfold batch_len. simpl. lia. }
    intros Hok. rewrite Hy. destruct Hfin as [Ht|(_ & Hn & _)].
    + congruence.
    + simpl. lia.
Qed.

Lemma slice_of_shuffle_NoDup {A} (samples y : list A) :
  NoDup samples → slice_of_shuffle samples y → NoDup y.
Proof.
  intros Hnd (s & pre & post & Hp & ->).
  rewrite <- Hp in Hnd.
  apply NoDup_app in Hnd as (_ & _ & Hnd).
  by apply NoDup_app in Hnd as (? & _ & _).
Qed.

Lemma NoDup_of_submseteq {A} (l k : list A) : l ⊆+ k → NoDup k → NoDup l.
Proof.
  intros [k' Hk]%submseteq_Permutation Hnd. rewrite Hk in Hnd.
  by apply NoDup_app in Hnd as (? & _ & _).
Qed.

(** ** Claims on [_mini_batches] *)

(** C4 (as the code has it). With [replacement] set, [_mini_batches] runs
    [random.sample(samples, batch_size)] once per batch.  When
    [0 <= batch_size <= len(samples)] it yields exactly [num_batches]
    batches of [batch_size] examples and returns, and every batch takes its
    examples from distinct positions of [samples] (it is a sub-multiset of
    [samples]), so no position repeats within a batch.  Otherwise the first
    request for a batch raises [ValueError] and nothing is yielded (with no
    batch requested the generator just returns). *)
Theorem mini_batches_replacement_draws {A} fuel (samples : list A)
    batch_size num_batches g :
  let r := (_mini_batches fuel samples batch_size num_batches true g).1 in
  if ((0 <=? batch_size) && (batch_size <=? Z.of_nat (length samples)))%Z
  then finish r = Ok tt ∧
       length (yielded r) = Z.to_nat num_batches ∧
       Forall (λ batch, length batch = Z.to_nat batch_size ∧ batch ⊆+ samples)
         (yielded r)
  else if (0 <? num_batches)%Z
       then r = GenResult [] (Raise ValueError)
       else r = GenResult [] (Ok tt).
Proof.
  unfold _mini_batches. simpl.
  destruct (Z.leb_spec 0 batch_size) as [H0|H0]; simpl.
  - destruct (Z.leb_spec batch_size (Z.of_nat (length samples))) as [H1|H1].
    + by apply sample_batches_ok.
    + destruct (Z.ltb_spec 0 num_batches) as [Hn|Hn].
      * destruct (Z.to_nat num_batches) as [|n] eqn:En; [lia|].
        rewrite sample_batches_error by lia. done.
      * by replace (Z.to_nat num_batches) with 0 by lia.
  - destruct (Z.ltb_spec 0 num_batches) as [Hn|Hn].
    + destruct (Z.to_nat num_batches) as [|n] eqn:En; [lia|].
      rewrite sample_batches_error by lia. done.
    + by replace (Z.to_nat num_batches) with 0 by lia.
Qed.

(** C4 as stated fails twice over: one sample cannot fill a batch of two
    (the draw is without replacement, so the call raises instead of
    yielding a batch), and a batch drawn from two distinct samples never
    holds one of them twice, whatever the random draws. *)
Lemma mini_batches_replacement_counterexample :
  (_mini_batches 0 [(7, 0)] 2 1 true []).1 = GenResult [] (Raise ValueError) ∧
  ∀ g, Forall NoDup (yielded (_mini_batches 0 [(7, 0); (8, 1)] 2 1 true g).1).
Proof.
  split; [done|]. intros g.
  destruct (sample_batches_ok [(7, 0); (8, 1)] 2 1 g) as (_ & _ & Hall).
  { simpl. lia. }
  unfold _mini_batches. simpl Z.to_nat.
  eapply Forall_impl; [exact Hall|]. intros batch [_ Hsub]. simpl in Hsub.
  eapply NoDup_of_submseteq; [exact Hsub|].
  apply (bool_decide_unpack _). by vm_compute.
Qed.

(** Batches are drawn independently of each other: the same sample can
    come back in the next batch. *)
Example mini_batches_replacement_across_batches :
  yielded (_mini_batches 0 [(7, 0); (8, 1)] 1 2 true [0; 0]).1
  = [[(7, 0)]; [(7, 0)]].
Proof. reflexivity. Qed.

(** C5 (as the code has it). Without replacement, for [samples] free of
    duplicates and a [batch_size >= 1] that divides [len(samples)], every
    batch the generator yields is a contiguous slice of one full shuffle of
    [samples], has [batch_size] examples and holds no duplicate; and for a
    non-empty [samples] and [num_batches >= 1] the generator returns after
    exactly [num_batches] batches. *)
Theorem mini_batches_no_replacement_slices {A} fuel (samples : list A)
    batch_size num_batches g :
  NoDup samples →
  (1 ≤ batch_size)%Z →
  (Z.to_nat batch_size | length samples) →
  let r := (_mini_batches fuel samples batch_size num_batches false g).1 in
  Forall (λ batch, slice_of_shuffle samples batch ∧ NoDup batch ∧
                   length batch = Z.to_nat batch_size) (yielded r) ∧
  (samples ≠ [] → (1 ≤ num_batches)%Z →
   (num_batches * batch_size ≤ Z.of_nat fuel)%Z →
   finish r = Ok tt ∧ length (yielded r) = Z.to_nat num_batches).
Proof.
  intros Hnd Hbs Hdiv. unfold _mini_batches. simpl.
  assert (batch_len batch_size = Z.to_nat batch_size) as Hbl
    by (unfold batch_len; lia).
  split.
  - destruct (shuffle_batches_prefix fuel batch_size num_batches samples []
                0%Z [] g) as (ys & -> & Hlen & _ & Hslice).
    { rewrite Hbl. simpl. lia. }
    simpl. specialize (Hslice eq_refl). rewrite Hbl in Hslice, Hlen.
    specialize (Hslice Hdiv).
    apply Forall_forall. intros y Hy.
    rewrite Forall_forall in Hslice, Hlen.
    split_and!; [by apply Hslice| |by apply Hlen].
    eapply slice_of_shuffle_NoDup; [exact Hnd|by apply Hslice].
  - intros Hne Hnb Hfuel.
    destruct (shuffle_batches_spec fuel batch_size num_batches samples []
                0%Z [] g) as (ys & g' & -> & _ & Hcnt & _);
      [done|lia|rewrite Hbl; simpl; lia|apply list_subseteq_nil|rewrite Hbl; simpl; lia|].
    simpl. split; [done|lia].
Qed.

Lemma mini_batches_no_replacement_slices_witness :
  let samples := [(1, 0); (2, 0); (3, 1); (4, 1)] in
  let r := (_mini_batches 6 samples 2 3 false [0; 0; 1; 0]).1 in
  yielded r = [[(3, 1); (2, 0)]; [(4, 1); (1, 0)]; [(2, 0); (4, 1)]] ∧
  Forall (λ batch, slice_of_shuffle samples batch ∧ NoDup batch ∧
                   length batch = 2) (yielded r) ∧
  finish r = Ok tt ∧ length (yielded r) = 3.
Proof.
  intros samples r.
  assert (NoDup samples) as Hnd by (apply (bool_decide_unpack _); by vm_compute).
  destruct (mini_batches_no_replacement_slices 6 samples 2 3 [0; 0; 1; 0] Hnd)
    as [Hall Hret]; [lia|by exists 2|].
  split; [reflexivity|]. split; [exact Hall|].
  apply Hret; [done|lia|simpl; lia].
Defined.

(** C5 as stated fails when [batch_size] does not divide [len(samples)]:
    three distinct samples in batches of two leave one sample over, which
    opens the next batch and can meet itself in the following shuffle. *)
Lemma mini_batches_no_replacement_counterexample :
  let samples := [(1, 0); (2, 0); (3, 1)] in
  let r := (_mini_batches 10 samples 2 2 false [0; 0; 1; 0]).1 in
  NoDup samples ∧
  r = GenResult [[(2, 0); (3, 1)]; [(1, 0); (1, 0)]] (Ok tt) ∧
  ¬ Forall NoDup (yielded r).
Proof.
  split_and!.
  - apply (bool_decide_unpack _). by vm_compute.
  - reflexivity.
  - simpl. intros Hall. apply Forall_cons in Hall as [_ Hall].
    apply Forall_cons in Hall as [Hdup _].
    apply NoDup_cons in Hdup as [Hin _]. apply Hin. by left.
Qed.

(** C6 (as the code has it). Without replacement a sample list shorter than
    [batch_size] is not treated as an error, and no error is raised.  For a
    non-empty [samples] and [num_batches >= 1] the generator returns after
    exactly [num_batches] batches of [batch_size] examples, each filled
    from [samples] across successive reshuffles and therefore holding some
    sample twice.  For an empty [samples] it reshuffles for ever: it yields
    nothing and never returns. *)
Theorem mini_batches_short_samples {A} fuel (samples : list A)
    batch_size num_batches g :
  (Z.of_nat (length samples) < batch_size)%Z →
  (1 ≤ num_batches)%Z →
  let r := (_mini_batches fuel samples batch_size num_batches false g).1 in
  (∀ e, finish r ≠ Raise e) ∧
  (samples = [] → r = GenResult [] Timeout) ∧
  (samples ≠ [] →
   (num_batches * batch_size ≤ Z.of_nat fuel)%Z →
   finish r = Ok tt ∧
   length (yielded r) = Z.to_nat num_batches ∧
   Forall (λ batch, Z.of_nat (length batch) = batch_size ∧ batch ⊆ samples ∧
                    ¬ NoDup batch) (yielded r)).
Proof.
  intros Hshort Hnb. unfold _mini_batches. simpl.
  assert (batch_len batch_size = Z.to_nat batch_size) as Hbl
    by (unfold batch_len; lia).
  split_and!.
  - intros e.
    destruct (shuffle_batches_prefix fuel batch_size num_batches samples []
                0%Z [] g) as (ys & _ & _ & [->|[-> _]] & _); [|done..].
    rewrite Hbl. simpl. lia.
  - intros ->. by rewrite shuffle_batches_empty.
  - intros Hne Hfuel.
    destruct (shuffle_batches_spec fuel batch_size num_batches samples []
                0%Z [] g) as (ys & g' & -> & Hlen & Hcnt & Hsub & _);
      [done|lia|rewrite Hbl; simpl; lia|apply list_subseteq_nil
      |rewrite Hbl; simpl; lia|].
    simpl. split_and!; [done|lia|].
    rewrite Forall_forall in Hlen, Hsub. apply Forall_forall. intros y Hy.
    specialize (Hlen y Hy). specialize (Hsub y Hy). rewrite Hbl in Hlen.
    split_and!; [lia|done|].
    intros Hnd. apply (NoDup_submseteq _ _ Hnd) in Hsub.
    apply submseteq_length in Hsub. lia.
Qed.

Lemma mini_batches_short_samples_witness :
  let r := (_mini_batches 4 [(1, 0)] 2 2 false []).1 in
  (Z.of_nat (length [(1, 0)]) < 2)%Z ∧
  yielded r = [[(1, 0); (1, 0)]; [(1, 0); (1, 0)]] ∧
  finish r = Ok tt ∧
  length (yielded r) = 2 ∧
  Forall (λ batch, Z.of_nat (length batch) = 2%Z ∧ batch ⊆ [(1, 0)] ∧
                   ¬ NoDup batch) (yielded r).
Proof.
  intros r.
  assert (Z.of_nat (length [(1, 0)]) < 2)%Z as Hshort by (simpl; lia).
  split; [exact Hshort|]. split; [reflexivity|].
  destruct (mini_batches_short_samples 4 [(1, 0)] 2 2 [] Hshort ltac:(lia))
    as (_ & _ & Hyields).
  apply Hyields; [done|simpl; lia].
Defined.

(** C6 as stated fails: one sample, batches of two, and the generator
    yields a batch and returns; no error is raised. *)
Lemma mini_batches_short_samples_counterexample :
  (_mini_batches 10 [(1, 0)] 2 1 false []).1
  = GenResult [[(1, 0); (1, 0)]] (Ok tt).
Proof. reflexivity. Qed.

(** ** Train/test split *)

Section Split.
Context {B : Backend}.
Implicit Types (task train test : list (input B * label)) (l : label).

Lemma by_label_app l task1 task2 :
  by_label l (task1 ++ task2) = by_label l task1 ++ by_label l task2.
Proof. apply filter_app. Qed.

Lemma move_first_None l train :
  move_first l train = None → by_label l train = [].
Proof.
  induction train as [|it rest IH]; simpl; [done|].
  unfold by_label in *. rewrite filter_cons.
  destruct (decide (it.2 = l)); [done|].
  destruct (move_first l rest) as [[found rest']|]; [done|]. auto.
Qed.

Lemma move_first_Some l train found train' :
  move_first l train = Some (found, train') →
  found.2 = l ∧
  by_label l train = found :: by_label l train' ∧
  (∀ l', l' ≠ l → by_label l' train' = by_label l' train) ∧
  train ≡ₚ found :: train' ∧
  train' `sublist_of` train.
Proof.
  revert found train'.
  induction train as [|it rest IH]; intros found train'; simpl; [done|].
  unfold by_label in *.
  destruct (decide (it.2 = l)) as [Hl|Hl].
  - intros [= <- <-]. rewrite filter_cons_True by done.
    split_and!; [done|done| |done|by apply sublist_cons].
    intros l' Hl'. rewrite filter_cons_False; [done|]. simpl. congruence.
  - destruct (move_first l rest) as [[found' rest']|]; [|done].
    intros [= <- <-].
    destruct (IH _ _ eq_refl) as (Hf & Hby & Hother & Hperm & Hsub).
    rewrite !filter_cons_False by done.
    split_and!; [done|done| | |by apply sublist_skip].
    + intros l' Hl'. rewrite !filter_cons. rewrite Hother by done. done.
    + rewrite Hperm. apply perm_swap.
Qed.

Lemma split_inv_ext task n n' train test :
  (∀ l, n l = n' l) → split_inv task n train test → split_inv task n' train test.
Proof.
  intros Hn (Hl & Hp & Hs). split_and!; [|done..].
  intros l. rewrite <- Hn. apply Hl.
Qed.

Lemma split_labels_inv task labels n train test :
  NoDup labels →
  split_inv task n train test →
  split_inv task (λ l, if decide (l ∈ labels) then S (n l) else n l)
    (split_labels labels train test).1 (split_labels labels train test).2.
Proof.
  revert n train test.
  induction labels as [|l0 labels IH]; intros n train test Hnd Hinv; simpl.
  { eapply split_inv_ext; [|exact Hinv]. intros l.
    destruct (decide (l ∈ [])) as [[]%elem_of_nil|]; done. }
  apply NoDup_cons in Hnd as [Hnotin Hnd].
  set (n1 := λ l, if decide (l = l0) then S (n l) else n l).
  assert (∀ train1 test1, split_inv task n1 train1 test1 →
    split_inv task (λ l, if decide (l ∈ l0 :: labels) then S (n l) else n l)
      (split_labels labels train1 test1).1
      (split_labels labels train1 test1).2) as Hnext.
  { intros train1 test1 H1. eapply split_inv_ext; [|apply (IH _ _ _ Hnd H1)].
    intros l. simpl. unfold n1.
    destruct (decide (l = l0)) as [->|Hne].
    - rewrite decide_False by done. rewrite decide_True; [done|by left].
    - destruct (decide (l ∈ labels)).
      + rewrite decide_True; [done|by right].
      + rewrite decide_False; [done|]. by intros [?|?]%elem_of_cons. }
  destruct Hinv as (Hl & Hp & Hs).
  destruct (move_first l0 train) as [[found train']|] eqn:Hmove.
  - apply Hnext.
    destruct (move_first_Some _ _ _ _ Hmove) as (Hf & Hby & Hother & Hperm & Hsub).
    split_and!.
    + intros l. unfold n1. destruct (Hl l) as [Htest Htrain].
      rewrite by_label_app.
      destruct (decide (l = l0)) as [->|Hne].
      * rewrite Hby in Htrain.
        assert (by_label l0 task !! n l0 = Some found) as Hlook.
        { pose proof (lookup_drop (by_label l0 task) (n l0) 0) as Hd.
          rewrite <- Htrain, Nat.add_0_r in Hd. done. }
        split.
        -- rewrite (take_S_r _ _ _ Hlook), Htest. f_equal.
           unfold by_label. by rewrite filter_cons_True.
        -- rewrite (drop_S _ _ _ Hlook) in Htrain. by injection Htrain.
      * split.
        -- rewrite Htest. unfold by_label at 2.
           rewrite filter_cons_False, filter_nil, app_nil_r; [done|].
           simpl. congruence.
        -- rewrite Hother by done. done.
    + rewrite <- Hp, Hperm, app_assoc. simpl.
      symmetry. apply Permutation_cons_append.
    + by etrans.
  - apply Hnext. pose proof (move_first_None _ _ Hmove) as Hnone.
    split_and!; [|done..].
    intros l. unfold n1. destruct (Hl l) as [Htest Htrain].
    destruct (decide (l = l0)) as [->|Hne]; [|done].
    rewrite Hnone in Htrain. symmetry in Htrain.
    apply drop_nil_inv in Htrain. split.
    + rewrite Htest. by rewrite !take_ge by lia.
    + rewrite Hnone. symmetry. apply drop_ge. lia.
Qed.

Lemma split_rounds_inv task labels k n train test :
  NoDup labels →
  split_inv task n train test →
  split_inv task (λ l, if decide (l ∈ labels) then k + n l else n l)
    (split_rounds k labels train test).1 (split_rounds k labels train test).2.
Proof.
  intros Hnd. revert n train test.
  induction k as [|k IH]; intros n train test Hinv; simpl.
  { eapply split_inv_ext; [|exact Hinv]. intros l. by destruct (decide _). }
  pose proof (split_labels_inv _ _ _ _ _ Hnd Hinv) as H1.
  destruct (split_labels labels train test) as [train1 test1]. simpl in H1.
  eapply split_inv_ext; [|apply (IH _ _ _ H1)].
  intros l. simpl. destruct (decide (l ∈ labels)); lia.
Qed.

Lemma label_set_NoDup task : NoDup (label_set task).
Proof.
  unfold label_set. rewrite merge_sort_Permutation. apply NoDup_remove_dups.
Qed.

Lemma elem_of_label_set task l : l ∈ label_set task ↔ l ∈ map snd task.
Proof.
  unfold label_set. rewrite merge_sort_Permutation. apply elem_of_remove_dups.
Qed.

Lemma by_label_nil_iff task l : by_label l task = [] ↔ l ∉ map snd task.
Proof.
  induction task as [|it task IH]; simpl.
  { split; [intros _ []%elem_of_nil|done]. }
  unfold by_label in *. rewrite filter_cons, not_elem_of_cons.
  destruct (decide (it.2 = l)) as [Hl|Hl].
  - split; [done|]. intros [Hne _]. by destruct Hne.
  - rewrite IH. split; [|by intros [_ ?]]. intros ?. split; [congruence|done].
Qed.

Lemma length_by_labels labels task :
  NoDup labels →
  (∀ l, l ∈ map snd task → l ∈ labels) →
  length task = sum_list ((λ l, length (by_label l task)) <$> labels).
Proof.
  revert task. induction labels as [|l0 labels IH]; intros task Hnd Hall.
  { destruct task as [|it task]; [done|]. exfalso.
    eapply elem_of_nil, (Hall it.2). simpl. by left. }
  apply NoDup_cons in Hnd as [Hnotin Hnd]. simpl.
  set (rest := filter (λ it : input B * label, it.2 ≠ l0) task).
  assert (length task = length (by_label l0 task) + length rest) as ->.
  { unfold by_label, rest. clear. induction task as [|it task IH]; [done|].
    rewrite !filter_cons. destruct (decide (it.2 = l0)).
    - rewrite decide_False by tauto. simpl. lia.
    - rewrite decide_True by done. simpl. lia. }
  f_equal. rewrite (IH rest Hnd).
  - f_equal. apply list_fmap_ext. intros _ l Hl%list_elem_of_lookup_2.
    unfold by_label, rest. rewrite list_filter_filter. f_equal.
    apply list_filter_iff. intros it. split; [tauto|].
    intros Hit. split; [done|]. intros Heq. apply Hnotin. congruence.
  - intros l Hl. apply list_elem_of_fmap in Hl as (it & -> & Hit).
    unfold rest in Hit. apply list_elem_of_filter in Hit as [Hne Hit].
    assert (it.2 ∈ l0 :: labels) as Hin.
    { apply Hall, list_elem_of_fmap. eauto. }
    apply elem_of_cons in Hin as [?|?]; done.
Qed.

Lemma sum_min_spec (labels : list label) (c : label → nat) k :
  sum_list ((λ l, k `min` c l) <$> labels) ≤ length labels * k ∧
  (sum_list ((λ l, k `min` c l) <$> labels) < length labels * k
   ↔ Exists (λ l, c l < k) labels).
Proof.
  induction labels as [|l0 labels [IH1 IH2]].
  { simpl. split; [lia|]. rewrite Exists_nil. lia. }
  rewrite fmap_cons, Exists_cons.
  change (sum_list (?x :: ?l)) with (x + sum_list l).
  change (length (?x :: ?l)) with (S (length l)).
  pose proof (Nat.le_min_l k (c l0)). pose proof (Nat.le_min_r k (c l0)).
  pose proof (Nat.min_spec k (c l0)).
  split; [lia|]. split.
  - intros Hlt. destruct (decide (c l0 < k)); [by left|right].
    apply IH2. lia.
  - intros [Hl|Hl]; [lia|]. apply IH2 in Hl. lia.
Qed.

(** What the split loops have done when they end. *)
Lemma split_rounds_spec task k :
  let train := (split_rounds k (label_set task) task []).1 in
  let test := (split_rounds k (label_set task) task []).2 in
  (∀ l, by_label l test = take k (by_label l task) ∧
        by_label l train = drop k (by_label l task)) ∧
  train ++ test ≡ₚ task ∧
  train `sublist_of` task ∧
  length test
  = sum_list ((λ l, k `min` length (by_label l task)) <$> label_set task).
Proof.
  intros train test.
  assert (split_inv task (λ _, 0) task []) as Hinit.
  { split_and!; [|by rewrite app_nil_r|done].
    intros l. by rewrite take_0, drop_0. }
  pose proof (split_rounds_inv task (label_set task) k _ task []
                (label_set_NoDup task) Hinit) as (Hl & Hperm & Hsub).
  fold train test in Hl, Hperm, Hsub. simpl in Hl.
  assert (∀ l, by_label l test = take k (by_label l task) ∧
               by_label l train = drop k (by_label l task)) as Hl'.
  { intros l. destruct (Hl l) as [Ht Hd].
    destruct (decide (l ∈ label_set task)) as [|Hnot].
    - by rewrite Nat.add_0_r in Ht, Hd.
    - rewrite elem_of_label_set, <- by_label_nil_iff in Hnot.
      rewrite Hnot in *. by rewrite take_nil, drop_nil, Ht, Hd. }
  split_and!; [done..|].
  rewrite (length_by_labels (label_set task) test (label_set_NoDup task)).
  - f_equal. apply list_fmap_ext. intros _ l _.
    destruct (Hl' l) as [-> _]. apply length_take.
  - intros l Hin. apply elem_of_label_set.
    destruct (decide (l ∈ map snd task)) as [|Hnot]; [done|]. exfalso.
    apply by_label_nil_iff in Hnot. destruct (Hl' l) as [Ht _].
    rewrite Hnot, take_nil in Ht. by apply by_label_nil_iff in Ht.
Qed.

(** A split that succeeds holds out [test_shots] examples per label. *)
Lemma split_train_test_length task k train test :
  _split_train_test task k = inr (train, test) →
  length test = length (label_set task) * k.
Proof.
  unfold _split_train_test.
  pose proof (split_rounds_spec task k) as (_ & _ & _ & Hlen).
  destruct (split_rounds k (label_set task) task []) as [train' test'].
  simpl in Hlen.
  destruct (sum_min_spec (label_set task) (λ l, length (by_label l task)) k)
    as [Hle _].
  destruct (Nat.ltb_spec (length test') (length (label_set task) * k));
    [done|].
  intros [= <- <-]. lia.
Qed.

(** C7. [_split_train_test task k] raises [IndexError] exactly when some
    label of the task has fewer than [k] examples.  Otherwise the held-out
    portion holds, for every label of the task, exactly [k] examples, namely
    the first [k] of that label in task order; the training portion holds
    the others, in task order; the two portions together are the task
    (every occurrence lands on exactly one side), so for a task without
    duplicate examples no example is in both. *)
Theorem split_train_test_correct task k :
  match _split_train_test task k with
  | inl e =>
      e = IndexError ∧
      ∃ l, l ∈ map snd task ∧ length (by_label l task) < k
  | inr (train, test) =>
      (∀ l, l ∈ map snd task → k ≤ length (by_label l task)) ∧
      (∀ l, l ∈ map snd task → length (by_label l test) = k) ∧
      (∀ l, by_label l test = take k (by_label l task)) ∧
      (∀ l, by_label l train = drop k (by_label l task)) ∧
      train ++ test ≡ₚ task ∧
      train `sublist_of` task ∧
      (NoDup task → ∀ x, x ∈ train → x ∉ test)
  end.
Proof.
  unfold _split_train_test.
  pose proof (split_rounds_spec task k) as (Hl' & Hperm & Hsub & Hlen).
  destruct (split_rounds k (label_set task) task []) as [train test].
  simpl in Hl', Hperm, Hsub, Hlen.
  destruct (sum_min_spec (label_set task) (λ l, length (by_label l task)) k)
    as [Hle Hiff].
  destruct (Nat.ltb_spec (length test) (length (label_set task) * k))
    as [Hshort|Hfull].
  - split; [done|]. rewrite Hlen in Hshort. apply Hiff in Hshort.
    apply Exists_exists in Hshort as (l & Hin & Hlt).
    exists l. by rewrite <- elem_of_label_set.
  - assert (∀ l, l ∈ map snd task → k ≤ length (by_label l task)) as Hall.
    { intros l Hin. destruct (decide (k ≤ length (by_label l task))); [done|].
      exfalso. rewrite Hlen in Hfull.
      assert (Exists (λ l, length (by_label l task) < k) (label_set task)) as Hex.
      { apply Exists_exists. exists l. rewrite elem_of_label_set. split; [done|lia]. }
      apply Hiff in Hex. lia. }
    split_and!; [done| |apply Hl'|apply Hl'|done|done|].
    + intros l Hin. destruct (Hl' l) as [-> _].
      rewrite length_take. specialize (Hall l Hin). lia.
    + intros Hnd x Hx Hx'. rewrite <- Hperm in Hnd.
      apply NoDup_app in Hnd as (_ & Hdisj & _). by apply (Hdisj x).
Qed.

(** A task with two shots of two classes, split with one held-out shot. *)
Example split_train_test_two_shots :
  _split_train_test (B:=Scalar.backend) [(5, 0); (6, 0); (7, 1); (8, 1)] 1
  = inr ([(6, 0); (8, 1)], [(5, 0); (7, 1)]).
Proof. reflexivity. Qed.

(** Label 1 has a single example: two held-out shots cannot be had. *)
Example split_train_test_too_few :
  _split_train_test (B:=Scalar.backend) [(5, 0); (6, 0); (7, 1)] 2
  = inl IndexError.
Proof. reflexivity. Qed.

End Split.

(** ** Task sampling *)

Section Sampling.
Context {B : Backend}.
Implicit Types (dataset classes : list (ClassSource (input B))).

Lemma sample_classes_labels classes class_idx num_shots g :
  Forall (λ it, class_idx ≤ it.2 < class_idx + length classes)
    (sample_classes class_idx classes num_shots g).1.
Proof.
  revert class_idx g.
  induction classes as [|c classes IH]; intros class_idx g; simpl; [done|].
  destruct (sample c num_shots g) as [samples g1].
  specialize (IH (S class_idx) g1).
  destruct (sample_classes (S class_idx) classes num_shots g1) as [more g2].
  simpl in *. apply Forall_app. split.
  - apply Forall_fmap, Forall_true. intros s. simpl. lia.
  - eapply Forall_impl; [exact IH|]. intros it ?. simpl in *. lia.
Qed.

Lemma by_label_tagged (l i : label) (samples : list (input B)) :
  by_label l ((λ s, (s, i)) <$> samples)
  = if decide (i = l) then (λ s, (s, i)) <$> samples else [].
Proof.
  unfold by_label. induction samples as [|s samples IH].
  { by destruct (decide _). }
  rewrite fmap_cons, filter_cons, IH. simpl. by destruct (decide (i = l)).
Qed.

Lemma sample_classes_counts classes class_idx num_shots g l :
  Forall supplies classes →
  length (by_label l (sample_classes class_idx classes num_shots g).1)
  = if decide (class_idx ≤ l < class_idx + length classes)
    then num_shots else 0.
Proof.
  intros Hall. revert class_idx g.
  induction Hall as [|c classes Hc _ IH]; intros class_idx g; simpl.
  { destruct (decide _); [lia|done]. }
  pose proof (Hc num_shots g) as Hlen.
  destruct (sample c num_shots g) as [samples g1].
  specialize (IH (S class_idx) g1).
  destruct (sample_classes (S class_idx) classes num_shots g1) as [more g2].
  simpl in *. rewrite by_label_app, length_app, IH.
  change (map ?f ?l) with (f <$> l). rewrite by_label_tagged.
  destruct (decide (class_idx = l)) as [->|Hne].
  - rewrite decide_True by done. rewrite length_fmap, Hlen.
    rewrite decide_False by lia. rewrite decide_True by lia. lia.
  - rewrite decide_False by done. simpl. repeat destruct (decide _); lia.
Qed.

Lemma sample_mini_dataset_labels dataset num_classes num_shots g :
  Forall (λ it, it.2 < num_classes `min` length dataset)
    (_sample_mini_dataset dataset num_classes num_shots g).1.
Proof.
  unfold _sample_mini_dataset.
  pose proof (random_shuffle_length dataset g) as Hlen.
  destruct (random_shuffle dataset g) as [shuffled g1]. simpl in Hlen.
  eapply Forall_impl; [apply sample_classes_labels|].
  intros it. simpl. rewrite length_take, Hlen. lia.
Qed.

(** C3 (as the code has it). [_sample_mini_dataset] has no check on the
    number of data classes: when the dataset holds fewer than
    [num_classes] of them, the slice [shuffled[:num_classes]] takes them
    all and the task is built from those [len(dataset)] classes alone.  Its
    labels are all below [len(dataset)], and when every class supplies the
    shots it is asked for, each of these labels has exactly [num_shots]
    examples. *)
Theorem sample_mini_dataset_few_classes dataset num_classes num_shots g :
  length dataset < num_classes →
  Forall (λ it, it.2 < length dataset)
    (_sample_mini_dataset dataset num_classes num_shots g).1 ∧
  (Forall supplies dataset →
   ∀ l, l < length dataset →
     length (by_label l (_sample_mini_dataset dataset num_classes num_shots g).1)
     = num_shots).
Proof.
  intros Hfew. split.
  - eapply Forall_impl; [apply sample_mini_dataset_labels|].
    intros it. simpl. lia.
  - intros Hsup l Hl. unfold _sample_mini_dataset.
    pose proof (random_shuffle_Permutation dataset g) as Hperm.
    destruct (random_shuffle dataset g) as [shuffled g1]. simpl in Hperm.
    assert (length shuffled = length dataset) as Hlen by by rewrite Hperm.
    rewrite sample_classes_counts.
    + rewrite length_take, Hlen. rewrite decide_True; [done|lia].
    + apply Forall_take. by rewrite Hperm.
Qed.

End Sampling.

Lemma sample_mini_dataset_few_classes_witness :
  let dataset := [Scalar.counting_class 10] in
  let task := (_sample_mini_dataset (B:=Scalar.backend) dataset 2 2 []).1 in
  length dataset < 2 ∧
  task = [(10, 0); (11, 0)] ∧
  Forall (λ it, it.2 < length dataset) task ∧
  ∀ l, l < length dataset → length (by_label l task) = 2.
Proof.
  intros dataset task.
  assert (length dataset < 2) as Hfew by (simpl; lia).
  split; [exact Hfew|]. split; [reflexivity|].
  destruct (sample_mini_dataset_few_classes (B:=Scalar.backend)
              dataset 2 2 [] Hfew) as [Hlabels Hcounts].
  split; [exact Hlabels|]. apply Hcounts.
  repeat constructor. intros n g. simpl. apply length_seq.
Defined.

(** C3 as stated fails: a dataset of one class, asked for a task of two
    classes, yields a task whose examples all carry label 0. *)
Lemma sample_mini_dataset_counterexample :
  _sample_mini_dataset (B:=Scalar.backend) [Scalar.counting_class 10] 2 2 []
  = ([(10, 0); (11, 0)], []).
Proof. reflexivity. Qed.

(** ** The monad *)

Section Monad.
Context {B : Backend}.

Lemma bind_Ok {A C} (m : M A) (k : A → M C) (w w' : world (B:=B)) c :
  (m ≫= k) w = (Ok c, w') ↔ ∃ a w1, m w = (Ok a, w1) ∧ k a w1 = (Ok c, w').
Proof.
  unfold mbind, M_bind, bind.
  destruct (m w) as [[a|e|] w1].
  - split; [eauto|]. by intros (? & ? & [= <- <-] & ?).
  - split; [done|]. by intros (? & ? & [=] & _).
  - split; [done|]. by intros (? & ? & [=] & _).
Qed.

Lemma bind_Ok_intro {A C} (m : M A) (k : A → M C) (w w1 : world (B:=B)) a :
  m w = (Ok a, w1) → (m ≫= k) w = k a w1.
Proof. intros Hm. unfold mbind, M_bind, bind. by rewrite Hm. Qed.

Lemma bind_Raise_intro {A C} (m : M A) (k : A → M C) (w w1 : world (B:=B)) e :
  m w = (Raise e, w1) → (m ≫= k) w = (Raise e, w1).
Proof. intros Hm. unfold mbind, M_bind, bind. by rewrite Hm. Qed.

Lemma lift_rng_Ok {A} (f : rng → A * rng) (w w' : world (B:=B)) a :
  lift_rng f w = (Ok a, w') ↔
  ∃ g, f (random_state w) = (a, g) ∧ w' = set_rng g w.
Proof.
  unfold lift_rng. destruct (f (random_state w)) as [a' g'].
  split; [intros [= <- <-]; eauto|]. by intros (g & [= <- <-] & ->).
Qed.

Lemma lift_rng_exn_Ok {A} (f : rng → (exn + A) * rng) (w w' : world (B:=B)) a :
  lift_rng_exn f w = (Ok a, w') ↔
  ∃ g, f (random_state w) = (inr a, g) ∧ w' = set_rng g w.
Proof.
  unfold lift_rng_exn. rewrite bind_Ok. split.
  - intros (r & w1 & (g & Hf & ->)%lift_rng_Ok & Hr).
    destruct r as [e|a']; [done|]. injection Hr as <- <-. eauto.
  - intros (g & Hf & ->). exists (inr a), (set_rng g w).
    split; [|done]. apply lift_rng_Ok. eauto.
Qed.

Lemma for_gen_Ok {A} (gen : rng → gen_result A * rng) (body : A → M unit)
    (w w' : world (B:=B)) :
  for_gen gen body w = (Ok tt, w') ↔
  ∃ ys g, gen (random_state w) = (GenResult ys (Ok tt), g) ∧
          for_each ys body (set_rng g w) = (Ok tt, w').
Proof.
  unfold for_gen. rewrite bind_Ok. split.
  - intros (r & w1 & (g & Hgen & ->)%lift_rng_Ok & Hrest).
    apply bind_Ok in Hrest as ([] & w2 & Hbody & Hfin).
    unfold gen_finish in Hfin. destruct r as [ys fin]. simpl in *.
    injection Hfin as -> ->. eauto.
  - intros (ys & g & Hgen & Hbody).
    exists (GenResult ys (Ok tt)), (set_rng g w). split.
    + apply lift_rng_Ok. eauto.
    + apply bind_Ok. exists tt, w'. done.
Qed.

End Monad.

(** ** The Reptile meta-step *)

Section TrainStep.
Context {B : Backend}.
Implicit Types (w : world (B:=B)) (self : Reptile (B:=B)).

Lemma reptile_task_spec fuel self dataset minimize_op num_classes num_shots
    inner_batch_size inner_iters replacement old_vars w new w' :
  reptile_task fuel self dataset minimize_op num_classes num_shots
    inner_batch_size inner_iters replacement old_vars w = (Ok new, w') →
  model_vars (session_vars w) = old_vars →
  reptile_adaptation fuel self dataset minimize_op num_classes num_shots
    inner_batch_size inner_iters replacement old_vars w new w' ∧
  model_vars (session_vars w') = old_vars.
Proof.
  unfold reptile_task. intros Hrun Hold.
  apply bind_Ok in Hrun as (task & w1 & (g1 & Htask & ->)%lift_rng_exn_Ok & Hrun).
  apply bind_Ok in Hrun as ([] & w_end & Hloop & Hrun).
  apply for_gen_Ok in Hloop as (batches & g2 & Hgen & Hloop).
  apply bind_Ok in Hrun as (new' & w2 & Hexp & Hrun).
  apply bind_Ok in Hrun as ([] & w3 & Himp & Hrun).
  unfold export_model, import_model, modify, mret, M_ret, ret in *.
  simplify_eq.
  simpl in Hgen.
  pose proof (mini_batches_returned_length fuel task inner_batch_size
                inner_iters replacement g1) as Hlen.
  rewrite Hgen in Hlen. specialize (Hlen eq_refl). simpl in Hlen.
  split; [|done]. split; [done|].
  do 5 eexists. split_and!; [exact Htask|exact Hgen|exact Hlen|exact Hloop|..];
    done.
Qed.

Lemma repeat_reptile_task fuel self dataset minimize_op num_classes num_shots
    inner_batch_size inner_iters replacement old_vars rounds w new_vars w' :
  repeatM rounds
    (reptile_task fuel self dataset minimize_op num_classes num_shots
       inner_batch_size inner_iters replacement old_vars) w
  = (Ok new_vars, w') →
  model_vars (session_vars w) = old_vars →
  chain (reptile_adaptation fuel self dataset minimize_op num_classes
           num_shots inner_batch_size inner_iters replacement old_vars)
    w new_vars w' ∧
  length new_vars = rounds.
Proof.
  revert w new_vars.
  induction rounds as [|rounds IH]; intros w new_vars Hrun Hold; simpl in Hrun.
  { unfold mret, M_ret, ret in Hrun. injection Hrun as <- <-.
    split; [constructor|done]. }
  apply bind_Ok in Hrun as (new & w1 & Htask & Hrun).
  apply bind_Ok in Hrun as (news & w2 & Hrest & Hrun).
  unfold mret, M_ret, ret in Hrun. injection Hrun as <- <-.
  destruct (reptile_task_spec _ _ _ _ _ _ _ _ _ _ _ _ _ Htask Hold)
    as [Hadapt Hold1].
  destruct (IH _ _ Hrest Hold1) as [Hchain Hlen].
  split; [by econstructor|by simpl; f_equal].
Qed.

(** What a [Reptile.train_step] that returns has done. *)
Lemma train_step_returned fuel self dataset minimize_op
    num_classes num_shots inner_batch_size inner_iters replacement
    meta_step_size meta_batch_size w w' :
  train_step fuel self dataset minimize_op num_classes num_shots
    inner_batch_size inner_iters replacement meta_step_size meta_batch_size w
  = (Ok tt, w') →
  let old := model_vars (session_vars w) in
  ∃ new_vars w_last,
    chain (reptile_adaptation fuel self dataset minimize_op num_classes
             num_shots inner_batch_size inner_iters replacement old)
      w new_vars w_last ∧
    length new_vars = meta_batch_size ∧
    w' = set_vars
           (Store (interpolate_vars old (average_vars new_vars) meta_step_size)
                  (other_vars (session_vars w_last))) w_last.
Proof.
  intros Hrun old. unfold train_step in Hrun.
  apply bind_Ok in Hrun as (old' & w0 & Hexp & Hrun).
  apply bind_Ok in Hrun as (new_vars & w_last & Hloop & Himp).
  unfold export_model, import_model, modify in *. simplify_eq.
  destruct (repeat_reptile_task _ _ _ _ _ _ _ _ _ _ _ _ _ _ Hloop eq_refl)
    as [Hchain Hlen].
  by exists new_vars, w_last.
Qed.

End TrainStep.

(** ** The FOML meta-step *)

Section FOMLStep.
Context {B : Backend}.
Implicit Types (w : world (B:=B)) (self : FOML (B:=B)).

Lemma FOML_mini_batches_empty_iff fuel self task inner_batch_size inner_iters
    replacement g :
  (FOML_mini_batches fuel self task inner_batch_size inner_iters replacement g).1
  = GenResult [] (Ok tt)
  ↔ no_batches self inner_iters replacement.
Proof.
  unfold FOML_mini_batches, no_batches.
  destruct (tail_shots self) as [shots|].
  - split; [|by intros [? _]].
    destruct (_split_train_test task shots) as [e|[train tail]]; [done|].
    destruct (_mini_batches fuel train inner_batch_size (inner_iters - 1)
                replacement g) as [[ys fin] g'].
    simpl. destruct fin as [[]|e|]; simpl; [|done..].
    intros [= Hnil]. by apply app_nil in Hnil as [_ ?].
  - unfold _mini_batches. destruct replacement.
    + destruct (Z.to_nat inner_iters) as [|n] eqn:Hn; simpl.
      * split; [intros _; split_and!; [done|done|lia]|done].
      * split; [|intros (_ & _ & ?); lia].
        destruct (random_sample task inner_batch_size g) as [[e|batch] g'];
          [done|].
        by destruct (sample_batches task inner_batch_size n g').
    + split; [|by intros (_ & ? & _)].
      destruct (shuffle_batches_prefix fuel inner_batch_size inner_iters task
                  [] 0%Z [] g) as (ys & Hy & _ & Hfin & _).
      { unfold batch_len. simpl. lia. }
      destruct (shuffle_batches fuel inner_batch_size inner_iters task []
                  0%Z [] g) as [[ys' fin] g']. simpl in *.
      intros [= -> ->]. destruct Hfin as [?|(_ & _ & Hne)]; [done|].
      by destruct ys.
Qed.

Lemma inner_step_unfold (self : Reptile (B:=B)) minimize_op batch w :
  inner_step self minimize_op batch w
  = (unzip_batch batch ≫= λ '(inputs, labels),
       run_pre_step self ;; run_minimize minimize_op inputs labels) w.
Proof. reflexivity. Qed.

(** The batch loop of FOML takes the same steps as the plain inner loop,
    and leaves in [last_backup] the trainable snapshot taken right before
    the step on the last batch. *)
Lemma foml_batches_spec self minimize_op batches last_backup w r w' :
  foml_batches self minimize_op batches last_backup w = (Ok r, w') →
  for_each batches (inner_step (reptile self) minimize_op) w = (Ok tt, w') ∧
  (batches = [] → r = last_backup) ∧
  (∀ earlier final, batches = earlier ++ [final] →
     ∃ w_pre,
       for_each earlier (inner_step (reptile self) minimize_op) w
         = (Ok tt, w_pre) ∧
       inner_step (reptile self) minimize_op final w_pre = (Ok tt, w') ∧
       r = Some (model_vars (session_vars w_pre))).
Proof.
  revert last_backup w.
  induction batches as [|batch batches IH]; intros last_backup w Hrun;
    simpl in Hrun.
  { unfold mret, M_ret, ret in Hrun. injection Hrun as <- <-.
    split_and!; [done|done|]. intros earlier final Heq.
    by destruct earlier. }
  apply bind_Ok in Hrun as ([inputs labels] & w1 & Hunzip & Hrun).
  apply bind_Ok in Hrun as (backup & w2 & Hexp & Hrun).
  unfold export_model in Hexp. injection Hexp as <- <-.
  apply bind_Ok in Hrun as ([] & w2 & Hpre & Hrun).
  apply bind_Ok in Hrun as ([] & w3 & Hmin & Hrun).
  destruct (IH _ _ Hrun) as (Hloop & Hnil & Hsnoc).
  assert (inner_step (reptile self) minimize_op batch w = (Ok tt, w3)) as Hstep.
  { rewrite inner_step_unfold. apply bind_Ok. exists (inputs, labels), w1.
    split; [done|]. apply bind_Ok. exists tt, w2. done. }
  assert (w1 = w) as ->.
  { unfold unzip_batch in Hunzip. destruct batch; [done|].
    unfold mret, M_ret, ret in Hunzip. by injection Hunzip. }
  split_and!.
  - simpl. apply bind_Ok. exists tt, w3. done.
  - done.
  - intros earlier final Heq. destruct earlier as [|b0 earlier]; simpl in Heq.
    + injection Heq as -> ->. exists w. rewrite (Hnil eq_refl).
      simpl in Hloop. unfold mret, M_ret, ret in Hloop.
      injection Hloop as <-. done.
    + injection Heq as -> ->.
      destruct (Hsnoc _ _ eq_refl) as (w_pre & Hearlier & Hfinal & ->).
      exists w_pre. split_and!; [|done|done].
      simpl. apply bind_Ok. exists tt, w3. done.
Qed.

Lemma foml_task_spec fuel self dataset minimize_op num_classes num_shots
    inner_batch_size inner_iters replacement old_vars last_backup w
    update last_backup' w' :
  foml_task fuel self dataset minimize_op num_classes num_shots
    inner_batch_size inner_iters replacement old_vars last_backup w
  = (Ok (update, last_backup'), w') →
  model_vars (session_vars w) = old_vars →
  last_backup = None ∨ ¬ no_batches self inner_iters replacement →
  foml_adaptation fuel self dataset minimize_op num_classes num_shots
    inner_batch_size inner_iters replacement old_vars w update w' ∧
  model_vars (session_vars w') = old_vars ∧
  ¬ no_batches self inner_iters replacement.
Proof.
  unfold foml_task. intros Hrun Hold Hlb.
  apply bind_Ok in Hrun as (task & w1 & (g1 & Htask & ->)%lift_rng_exn_Ok & Hrun).
  apply bind_Ok in Hrun as (r & w2 & (g2 & Hgen & ->)%lift_rng_Ok & Hrun).
  apply bind_Ok in Hrun as (lb & w3 & Hloop & Hrun).
  apply bind_Ok in Hrun as ([] & w4 & Hfin & Hrun).
  unfold gen_finish in Hfin. injection Hfin as Hfin <-.
  apply bind_Ok in Hrun as (current & w5 & Hexp & Hrun).
  unfold export_model in Hexp. injection Hexp as <- <-.
  simpl in Hgen. destruct r as [batches fin]. simpl in *. subst fin.
  pose proof (FOML_mini_batches_empty_iff fuel self task inner_batch_size
                inner_iters replacement g1) as Hempty.
  rewrite Hgen in Hempty. simpl in Hempty.
  destruct (foml_batches_spec _ _ _ _ _ _ _ Hloop) as (_ & Hnil & Hsnoc).
  destruct lb as [backup|]; [|done].
  apply bind_Ok in Hrun as ([] & w6 & Himp & Hrun).
  unfold import_model, modify in Himp. injection Himp as <-.
  unfold mret, M_ret, ret in Hrun. injection Hrun as <- <- <-.
  destruct (decide (batches = [])) as [->|Hne].
  { exfalso. specialize (Hnil eq_refl).
    destruct Hlb as [->|Hnot]; [done|]. by apply Hnot, Hempty. }
  assert (¬ no_batches self inner_iters replacement) as Hnot.
  { intros Hno. apply Hempty in Hno. by injection Hno. }
  destruct (exists_last Hne) as (earlier & final & ->).
  destruct (Hsnoc _ _ eq_refl) as (w_pre & Hearlier & Hfinal & [= ->]).
  split_and!; [|done|done]. split; [done|].
  do 7 eexists.
  split_and!; [exact Htask|exact Hgen|exact Hearlier|exact Hfinal|done|done].
Qed.

Lemma foml_tasks_spec fuel self dataset minimize_op num_classes num_shots
    inner_batch_size inner_iters replacement old_vars rounds updates
    last_backup w res w' :
  foml_tasks fuel self dataset minimize_op num_classes num_shots
    inner_batch_size inner_iters replacement old_vars rounds updates
    last_backup w = (Ok res, w') →
  model_vars (session_vars w) = old_vars →
  last_backup = None ∨ ¬ no_batches self inner_iters replacement →
  ∃ final_updates,
    res = updates ++ final_updates ∧
    length final_updates = rounds ∧
    chain (foml_adaptation fuel self dataset minimize_op num_classes
             num_shots inner_batch_size inner_iters replacement old_vars)
      w final_updates w'.
Proof.
  revert updates last_backup w.
  induction rounds as [|rounds IH]; intros updates last_backup w Hrun Hold Hlb;
    simpl in Hrun.
  { unfold mret, M_ret, ret in Hrun. injection Hrun as <- <-.
    exists []. rewrite app_nil_r. split_and!; [done|done|constructor]. }
  apply bind_Ok in Hrun as ([update lb] & w1 & Htask & Hrun).
  destruct (foml_task_spec _ _ _ _ _ _ _ _ _ _ _ _ _ _ _ Htask Hold Hlb)
    as (Hadapt & Hold1 & Hnot).
  destruct (IH _ _ _ Hrun Hold1 (or_intror Hnot)) as (rest & -> & Hlen & Hchain).
  exists (update :: rest). rewrite <- app_assoc.
  split_and!; [done|by simpl; f_equal|by econstructor].
Qed.

(** What a [FOML.train_step] that returns has done. *)
Lemma FOML_train_step_returned fuel self dataset minimize_op
    num_classes num_shots inner_batch_size inner_iters replacement
    meta_step_size meta_batch_size w w' :
  FOML_train_step fuel self dataset minimize_op num_classes num_shots
    inner_batch_size inner_iters replacement meta_step_size meta_batch_size w
  = (Ok tt, w') →
  let old := model_vars (session_vars w) in
  ∃ final_updates w_last,
    chain (foml_adaptation fuel self dataset minimize_op num_classes
             num_shots inner_batch_size inner_iters replacement old)
      w final_updates w_last ∧
    length final_updates = meta_batch_size ∧
    w' = set_vars
           (Store (add_vars old
                     (scale_vars (average_vars final_updates) meta_step_size))
                  (other_vars (session_vars w_last))) w_last.
Proof.
  intros Hrun old. unfold FOML_train_step in Hrun.
  apply bind_Ok in Hrun as (old' & w0 & Hexp & Hrun).
  unfold export_model in Hexp. injection Hexp as <- <-.
  apply bind_Ok in Hrun as (updates & w_last & Hloop & Himp).
  unfold import_model, modify in Himp. injection Himp as <-.
  destruct (foml_tasks_spec _ _ _ _ _ _ _ _ _ _ _ _ _ _ _ _ Hloop eq_refl
              (or_introl eq_refl)) as (final_updates & -> & Hlen & Hchain).
  by exists final_updates, w_last.
Qed.

(** With no batch to loop over, the first inner adaptation reaches the
    subtraction with [last_backup] still unbound. *)
Lemma foml_train_step_no_batches fuel self dataset minimize_op num_classes
    num_shots inner_batch_size inner_iters replacement meta_step_size
    meta_batch_size w task g1 :
  no_batches self inner_iters replacement →
  0 < meta_batch_size →
  _sample_mini_dataset_with_replacements dataset num_classes num_shots
    (random_state w) = (inr task, g1) →
  FOML_train_step fuel self dataset minimize_op num_classes num_shots
    inner_batch_size inner_iters replacement meta_step_size meta_batch_size w
  = (Raise UnboundLocalError, set_rng g1 w).
Proof.
  intros (Htail & -> & Hiters) Hmbs Htask.
  destruct meta_batch_size as [|n]; [lia|].
  unfold FOML_train_step.
  erewrite bind_Ok_intro by reflexivity.
  apply bind_Raise_intro. simpl foml_tasks.
  apply bind_Raise_intro. unfold foml_task.
  erewrite bind_Ok_intro; [|apply lift_rng_exn_Ok; eauto].
  erewrite bind_Ok_intro; cycle 1.
  { apply lift_rng_Ok. exists g1. split; [|reflexivity].
    unfold FOML_mini_batches. rewrite Htail. unfold _mini_batches.
    replace (Z.to_nat inner_iters) with 0 by lia. reflexivity. }
  reflexivity.
Qed.

End FOMLStep.

(** ** Evaluation *)

Section Evaluate.
Context {B : Backend}.
Implicit Types (w : world (B:=B)) (self : Reptile (B:=B)).

Lemma trained_refl w : trained w w.
Proof. exists []. by rewrite app_nil_r. Qed.

Lemma trained_trans w1 w2 w3 : trained w1 w2 → trained w2 w3 → trained w1 w3.
Proof.
  intros (s1 & H1 & Hs1) (s2 & H2 & Hs2). exists (s1 ++ s2).
  rewrite H2, H1, app_assoc. split; [done|by apply Forall_app].
Qed.

Lemma unzip_batch_Ok (batch : list (input B * label)) w r w' :
  unzip_batch batch w = (Ok r, w') →
  batch ≠ [] ∧ r = (map fst batch, map snd batch) ∧ w' = w.
Proof.
  unfold unzip_batch. destruct batch; [done|].
  unfold mret, M_ret, ret. by intros [= <- <-].
Qed.

Lemma run_pre_step_trained self w w' :
  run_pre_step self w = (Ok tt, w') → trained w w'.
Proof.
  unfold run_pre_step, modify, mret, M_ret, ret.
  destruct (_pre_step_op self); intros [= <-].
  - exists [RunPreStep]. split; [done|]. repeat constructor. by intros [].
  - apply trained_refl.
Qed.

Lemma run_minimize_trained minimize_op inputs labels w w' :
  run_minimize minimize_op inputs labels w = (Ok tt, w') → trained w w'.
Proof.
  unfold run_minimize, modify. intros [= <-].
  exists [RunMinimize inputs labels]. split; [done|].
  repeat constructor. by intros [].
Qed.

Lemma inner_step_trained self minimize_op batch w w' :
  inner_step self minimize_op batch w = (Ok tt, w') → trained w w'.
Proof.
  unfold inner_step. intros Hrun.
  apply bind_Ok in Hrun as ([inputs labels] & w1 & Hunzip & Hrun).
  apply unzip_batch_Ok in Hunzip as (_ & _ & ->).
  apply bind_Ok in Hrun as ([] & w2 & Hpre & Hmin).
  eapply trained_trans; [by eapply run_pre_step_trained|].
  by eapply run_minimize_trained.
Qed.

Lemma augment_rounds_log self rounds batch imgs lbls w r w' :
  augment_rounds self rounds batch imgs lbls w = (Ok r, w') →
  session_log w' = session_log w.
Proof.
  revert imgs lbls w.
  induction rounds as [|i rounds IH]; intros imgs lbls w Hrun; simpl in Hrun.
  { unfold mret, M_ret, ret in Hrun. by injection Hrun as <- <-. }
  apply bind_Ok in Hrun as ([inputs labels] & w1 & Hunzip & Hrun).
  apply unzip_batch_Ok in Hunzip as (_ & _ & ->).
  destruct (decide (i = 0));
    apply bind_Ok in Hrun as (more & w2 & Haug & Hrun);
    unfold run_aug in Haug;
    destruct (aug self inputs (augmenter w)) as [imgs' a];
    injection Haug as <- <-;
    by rewrite (IH _ _ _ Hrun).
Qed.

Lemma reshape_stack_Ok (rows : list (list (input B))) w images w' :
  reshape_stack rows w = (Ok images, w') →
  reshape_images rows = Some images ∧ w' = w.
Proof.
  unfold reshape_stack. destruct (reshape_images rows) as [imgs|]; [|done].
  by intros [= -> ->].
Qed.

(** The three rounds of [train_augmetation] on a batch that is not empty:
    the stack of the inputs and three augmented copies, and the labels
    four times. *)
Lemma augment_rounds_three self (batch : list (input B * label)) w :
  batch ≠ [] →
  augment_rounds self (seq 0 3) batch [] [] w
  = (Ok ((augmented_stack self (map fst batch) (augmenter w)).1,
         [map snd batch; map snd batch; map snd batch; map snd batch]),
     set_augmenter (augmented_stack self (map fst batch) (augmenter w)).2 w).
Proof.
  intros Hne. destruct batch as [|it batch]; [done|].
  unfold augmented_stack.
  repeat progress
    (unfold mbind, M_bind, bind, mret, M_ret, ret, run_aug; simpl).
  destruct (aug self _ (augmenter w)) as [a1 s1]. simpl.
  destruct (aug self _ s1) as [a2 s2]. simpl.
  destruct (aug self _ s2) as [a3 s3]. reflexivity.
Qed.

(** [train_augmetation] on a batch that is not empty, step by step. *)
Lemma train_augmetation_unfold self (batch : list (input B * label))
    minimize_op w :
  batch ≠ [] →
  train_augmetation self batch minimize_op w
  = let stack := augmented_stack self (map fst batch) (augmenter w) in
    let labels := map snd batch in
    match reshape_images stack.1 with
    | None => (Raise ValueError, set_augmenter stack.2 w)
    | Some images =>
        (run_pre_step self ;;
         run_minimize minimize_op images
           (labels ++ labels ++ labels ++ labels))
          (set_augmenter stack.2 w)
    end.
Proof.
  intros Hne. unfold train_augmetation.
  erewrite bind_Ok_intro by (by apply augment_rounds_three).
  lazy beta iota zeta. unfold reshape_stack at 1.
  destruct (reshape_images _) as [images|].
  - erewrite bind_Ok_intro by reflexivity. simpl. by rewrite app_nil_r.
  - by apply bind_Raise_intro.
Qed.

Lemma train_augmetation_trained self batch minimize_op w w' :
  train_augmetation self batch minimize_op w = (Ok tt, w') → trained w w'.
Proof.
  unfold train_augmetation. intros Hrun.
  apply bind_Ok in Hrun as ([imgs lbls] & w1 & Haug & Hrun).
  apply augment_rounds_log in Haug.
  apply bind_Ok in Hrun as (images & w1' & [_ ->]%reshape_stack_Ok & Hrun).
  apply bind_Ok in Hrun as ([] & w2 & Hpre & Hmin).
  apply run_pre_step_trained in Hpre. apply run_minimize_trained in Hmin.
  destruct (trained_trans _ _ _ Hpre Hmin) as (steps & Hlog & Hsteps).
  exists steps. by rewrite Hlog, Haug.
Qed.

Lemma for_each_trained {A} (xs : list A) (body : A → M unit) w w' :
  (∀ x w1 w2, body x w1 = (Ok tt, w2) → trained w1 w2) →
  for_each xs body w = (Ok tt, w') → trained w w'.
Proof.
  intros Hbody. revert w.
  induction xs as [|x xs IH]; intros w Hrun; simpl in Hrun.
  { unfold mret, M_ret, ret in Hrun. injection Hrun as <-.
    apply trained_refl. }
  apply bind_Ok in Hrun as ([] & w1 & Hx & Hrun).
  eapply trained_trans; [by eapply Hbody|by apply IH].
Qed.

Lemma predict_each_spec (train_set test_set : list (input B * label))
    predictions res w preds w' :
  predict_each train_set test_set predictions res w = (Ok preds, w') →
  ∃ ps,
    preds = res ++ ps ∧
    Forall2 (λ test_sample p,
               last (predictions (map fst train_set ++ [test_sample.1])
                       (session_vars w)) = Some p) test_set ps ∧
    session_vars w' = session_vars w ∧
    session_log w'
    = session_log w
      ++ map (λ test_sample,
                RunPredict (map fst train_set ++ [test_sample.1])) test_set.
Proof.
  revert res w.
  induction test_set as [|t test_set IH]; intros res w Hrun; simpl in Hrun.
  { unfold mret, M_ret, ret in Hrun. injection Hrun as <- <-.
    exists []. rewrite !app_nil_r. split_and!; [done|constructor|done|done]. }
  apply bind_Ok in Hrun as ([inputs labels] & w1 & Hunzip & Hrun).
  apply unzip_batch_Ok in Hunzip as (_ & [= -> ->] & ->).
  apply bind_Ok in Hrun as (out & w2 & Hpred & Hrun).
  unfold run_predict in Hpred. injection Hpred as <- <-.
  destruct (last _) as [p|] eqn:Hlast; [|done].
  destruct (IH _ _ Hrun) as (ps & -> & Hall & Hvars & Hlog).
  exists (p :: ps). rewrite <- app_assoc. simpl in *.
  split_and!; [done|by constructor|done|].
  by rewrite Hlog, <- app_assoc.
Qed.

Lemma test_predictions_spec self (train_set test_set : list (input B * label))
    predictions w preds w' :
  _test_predictions self train_set test_set predictions w = (Ok preds, w') →
  (if _transductive self
   then preds = predictions (map fst test_set) (session_vars w)
   else Forall2 (λ test_sample p,
                   last (predictions (map fst train_set ++ [test_sample.1])
                           (session_vars w)) = Some p) test_set preds) ∧
  session_vars w' = session_vars w ∧
  session_log w'
  = session_log w ++ map RunPredict (predict_feeds self train_set test_set).
Proof.
  unfold _test_predictions, predict_feeds.
  destruct (_transductive self); intros Hrun.
  - apply bind_Ok in Hrun as ([inputs labels] & w1 & Hunzip & Hrun).
    apply unzip_batch_Ok in Hunzip as (_ & [= -> ->] & ->).
    unfold run_predict in Hrun. by injection Hrun as <- <-.
  - apply predict_each_spec in Hrun as (ps & -> & Hall & Hvars & Hlog).
    rewrite Hlog, map_map. done.
Qed.

Lemma count_correct_le (test_preds : list label)
    (test_set : list (input B * label)) :
  count_correct test_preds test_set ≤ length test_set.
Proof.
  unfold count_correct. etrans; [apply length_filter|].
  rewrite length_zip_with. lia.
Qed.

Lemma label_set_length_le (task : list (input B * label)) n :
  Forall (λ it, it.2 < n) task → length (label_set task) ≤ n.
Proof.
  intros Hall.
  assert (label_set task ⊆+ seq 0 n) as Hsub.
  { apply NoDup_submseteq; [apply label_set_NoDup|].
    intros l Hl. apply elem_of_label_set, list_elem_of_fmap in Hl
      as (it & -> & Hit).
    rewrite Forall_forall in Hall. apply Hall in Hit. simpl in Hit.
    apply elem_of_seq. unfold label in *. lia. }
  apply submseteq_length in Hsub. by rewrite length_seq in Hsub.
Qed.

(** What a call of [evaluate] that returns has done. *)
Lemma evaluate_spec fuel self dataset minimize_op predictions num_classes
    num_shots inner_batch_size inner_iters replacement augment w n w' :
  evaluate fuel self dataset minimize_op predictions num_classes num_shots
    inner_batch_size inner_iters replacement augment w = (Ok n, w') →
  ∃ task g train_set test_set w_tuned preds,
    _sample_mini_dataset dataset num_classes (num_shots + 1) (random_state w)
      = (task, g) ∧
    _split_train_test task 1 = inr (train_set, test_set) ∧
    trained w w_tuned ∧
    (if _transductive self
     then preds = predictions (map fst test_set) (session_vars w_tuned)
     else Forall2 (λ test_sample p,
                     last (predictions (map fst train_set ++ [test_sample.1])
                             (session_vars w_tuned)) = Some p)
            test_set preds) ∧
    n = count_correct preds test_set ∧
    session_log w'
    = session_log w_tuned
      ++ map RunPredict (predict_feeds self train_set test_set) ∧
    session_vars w' = session_vars w.
Proof.
  unfold evaluate. intros Hrun.
  apply bind_Ok in Hrun as (task & w1 & (g & Htask & ->)%lift_rng_Ok & Hrun).
  apply bind_Ok in Hrun as ([train_set test_set] & w2 & Hsplit & Hrun).
  destruct (_split_train_test task 1) as [e|[tr te]] eqn:Hsp; [done|].
  unfold lift_exn, mret, M_ret, ret in Hsplit. injection Hsplit as -> -> <-.
  apply bind_Ok in Hrun as (old_vars & w3 & Hexp & Hrun).
  unfold export_full, get_vars in Hexp. injection Hexp as <- <-.
  apply bind_Ok in Hrun as ([] & w_tuned & Hloop & Hrun).
  apply for_gen_Ok in Hloop as (batches & g2 & Hgen & Hloop).
  apply bind_Ok in Hrun as (preds & w4 & Hpred & Hrun).
  apply bind_Ok in Hrun as ([] & w5 & Himp & Hrun).
  unfold import_full, modify in Himp. injection Himp as <-.
  unfold mret, M_ret, ret in Hrun. injection Hrun as <- <-.
  apply test_predictions_spec in Hpred as (Hpreds & Hvars & Hlog).
  exists task, g, train_set, test_set, w_tuned, preds.
  split_and!; [done|done| |done|done|done|done].
  apply for_each_trained in Hloop.
  - destruct Hloop as (steps & Hl & Hs). by exists steps.
  - intros batch wa wb. destruct augment.
    + apply train_augmetation_trained.
    + apply inner_step_trained.
Qed.

(** The count a returning [evaluate] gives, and the state it leaves. *)
Lemma evaluate_returned_count fuel self dataset minimize_op predictions
    num_classes num_shots inner_batch_size inner_iters replacement augment
    w n w' :
  evaluate fuel self dataset minimize_op predictions num_classes num_shots
    inner_batch_size inner_iters replacement augment w = (Ok n, w') →
  ∃ task g train_set test_set tuned preds,
    _sample_mini_dataset dataset num_classes (num_shots + 1) (random_state w)
      = (task, g) ∧
    _split_train_test task 1 = inr (train_set, test_set) ∧
    (∀ l, l ∈ map snd task → length (by_label l test_set) = 1) ∧
    length test_set ≤ num_classes ∧
    (if _transductive self
     then preds = predictions (map fst test_set) tuned
     else Forall2 (λ test_sample p,
                     last (predictions (map fst train_set ++ [test_sample.1])
                             tuned) = Some p) test_set preds) ∧
    n = count_correct preds test_set ∧
    n ≤ num_classes ∧
    session_vars w' = session_vars w.
Proof.
  intros Hrun.
  apply evaluate_spec in Hrun
    as (task & g & train_set & test_set & w_tuned & preds & Htask & Hsplit
        & _ & Hpreds & Hn & _ & Hvars).
  assert (length test_set ≤ num_classes) as Hlen.
  { rewrite (split_train_test_length _ _ _ _ Hsplit), Nat.mul_1_r.
    apply label_set_length_le.
    pose proof (sample_mini_dataset_labels dataset num_classes
                  (num_shots + 1) (random_state w)) as Hlabels.
    rewrite Htask in Hlabels. simpl in Hlabels.
    eapply Forall_impl; [exact Hlabels|]. intros it. simpl. lia. }
  exists task, g, train_set, test_set, (session_vars w_tuned), preds.
  split_and!; [done|done| |done|done|done| |done].
  - intros l Hin.
    pose proof (split_rounds_spec task 1) as (Hl & _).
    unfold _split_train_test in Hsplit.
    destruct (split_rounds 1 (label_set task) task []) as [train' test'].
    simpl in Hl. destruct (_ <? _); [done|]. injection Hsplit as <- <-.
    destruct (Hl l) as [-> _]. rewrite length_take.
    destruct (by_label l task) as [|it rest] eqn:Hby; [|simpl; lia].
    by apply by_label_nil_iff in Hby.
  - rewrite Hn. etrans; [apply count_correct_le|done].
Qed.

End Evaluate.

(** ** Runs that go through *)

Section Progress.
Context {B : Backend}.
Implicit Types (w : world (B:=B)) (dataset : list (ClassSource (input B))).

Lemma random_choices_ok {A} (population : list A) k g :
  population ≠ [] →
  ∃ cs g', random_choices population k g = (inr cs, g') ∧
           length cs = k ∧ Forall (λ c, c ∈ population) cs.
Proof.
  intros Hne. revert g. induction k as [|k IH]; intros g; simpl.
  { exists [], g. by split_and!. }
  pose proof (randbelow_lt (length population) g) as Hj.
  destruct (randbelow (length population) g) as [j g1]. simpl in Hj.
  destruct (lookup_lt_is_Some_2 population j) as [c Hc].
  { apply Hj. destruct population; [done|simpl; lia]. }
  rewrite Hc. destruct (IH g1) as (cs & g' & -> & Hlen & Hall).
  exists (c :: cs), g'. split_and!; [done|by simpl; f_equal|].
  constructor; [|done]. by eapply list_elem_of_lookup_2.
Qed.

Lemma sample_draws_length (draws : list (ClassSource (input B)))
    class_idx num_classes g :
  Forall supplies draws →
  length (sample_draws class_idx draws num_classes g).1 = length draws.
Proof.
  intros Hall. revert class_idx g.
  induction Hall as [|c draws Hc _ IH]; intros class_idx g; simpl; [done|].
  pose proof (Hc 1 g) as Hlen.
  destruct (sample c 1 g) as [samples g1].
  specialize (IH (S class_idx) g1).
  destruct (sample_draws (S class_idx) draws num_classes g1) as [more g2].
  simpl in *. rewrite length_app, length_map. unfold label in *. lia.
Qed.

Lemma sample_with_replacements_ok dataset num_classes num_shots g :
  dataset ≠ [] → Forall supplies dataset →
  ∃ task g',
    _sample_mini_dataset_with_replacements dataset num_classes num_shots g
    = (inr task, g') ∧
    length task = num_classes * num_shots.
Proof.
  intros Hne Hsup. unfold _sample_mini_dataset_with_replacements.
  pose proof (random_shuffle_Permutation dataset g) as Hperm.
  destruct (random_shuffle dataset g) as [shuffled g1]. simpl in Hperm.
  assert (shuffled ≠ []) as Hne'.
  { intros ->. by apply Permutation_nil_l in Hperm. }
  destruct (random_choices_ok shuffled (num_classes * num_shots) g1 Hne')
    as (cs & g2 & -> & Hlen & Hall).
  assert (Forall supplies cs) as Hcs.
  { rewrite Forall_forall in Hall, Hsup. apply Forall_forall.
    intros c Hc. apply Hsup. rewrite <- Hperm. by apply Hall. }
  pose proof (sample_draws_length cs 0 num_classes g2 Hcs) as Hdraws.
  destruct (sample_draws 0 cs num_classes g2) as [task g3].
  exists task, g3. simpl in Hdraws. split; [done|congruence].
Qed.

(** With enough samples and fuel the generator returns, and no batch it
    has yielded is empty. *)
Lemma mini_batches_ok {A} fuel (samples : list A) (batch_size num_batches : Z)
    (replacement : bool) g :
  (1 ≤ batch_size)%Z →
  (if replacement
   then (batch_size ≤ Z.of_nat (length samples))%Z
   else samples ≠ [] ∧ (1 ≤ num_batches)%Z ∧
        (num_batches * batch_size ≤ Z.of_nat fuel)%Z) →
  ∃ batches g',
    _mini_batches fuel samples batch_size num_batches replacement g
    = (GenResult batches (Ok tt), g') ∧
    Forall (λ batch, batch ≠ []) batches ∧
    length batches = Z.to_nat num_batches.
Proof.
  intros Hbs Hcond. unfold _mini_batches. destruct replacement.
  - destruct (sample_batches_ok samples batch_size (Z.to_nat num_batches) g)
      as (Hfin & Hlen & Hall); [lia|].
    destruct (sample_batches samples batch_size (Z.to_nat num_batches) g)
      as [[batches fin] g']. simpl in *. subst fin.
    exists batches, g'. split_and!; [done| |done].
    eapply Forall_impl; [exact Hall|]. intros batch [Hb _] ->.
    simpl in Hb. lia.
  - destruct Hcond as (Hne & Hnb & Hfuel).
    assert (batch_len batch_size = Z.to_nat batch_size) as Hbl
      by (unfold batch_len; lia).
    destruct (shuffle_batches_spec fuel batch_size num_batches samples []
                0%Z [] g) as (ys & g' & -> & Hlen & Hcnt & _);
      [done|lia|rewrite Hbl; simpl; lia|apply list_subseteq_nil
      |rewrite Hbl; simpl; lia|].
    exists ys, g'. split_and!; [done| |lia].
    eapply Forall_impl; [exact Hlen|]. intros batch Hb ->.
    simpl in Hb. lia.
Qed.

Lemma run_pre_step_Ok (self : Reptile (B:=B)) w :
  ∃ w', run_pre_step self w = (Ok tt, w').
Proof. unfold run_pre_step. destruct (_pre_step_op self); by eexists. Qed.

Lemma inner_step_Ok (self : Reptile (B:=B)) minimize_op batch w :
  batch ≠ [] → ∃ w', inner_step self minimize_op batch w = (Ok tt, w').
Proof.
  intros Hne. rewrite inner_step_unfold.
  destruct batch as [|it batch]; [done|].
  erewrite bind_Ok_intro by reflexivity.
  destruct (run_pre_step_Ok self w) as [w1 Hpre].
  erewrite bind_Ok_intro by exact Hpre. by eexists.
Qed.

Lemma for_each_Ok {A} (xs : list A) (body : A → M unit) (P : A → Prop) w :
  (∀ x w1, P x → ∃ w2, body x w1 = (Ok tt, w2)) →
  Forall P xs →
  ∃ w', for_each xs body w = (Ok tt, w').
Proof.
  intros Hbody Hall. revert w.
  induction Hall as [|x xs Hx _ IH]; intros w; simpl; [by eexists|].
  destruct (Hbody x w Hx) as [w1 H1].
  erewrite bind_Ok_intro by exact H1. apply IH.
Qed.

Lemma reptile_task_Ok fuel (self : Reptile (B:=B)) dataset minimize_op
    num_classes num_shots inner_batch_size inner_iters replacement old_vars w :
  inner_loop_runs fuel dataset num_classes num_shots inner_batch_size
    inner_iters replacement →
  ∃ new w',
    reptile_task fuel self dataset minimize_op num_classes num_shots
      inner_batch_size inner_iters replacement old_vars w = (Ok new, w').
Proof.
  intros (Hne & Hsup & Hbs & Hcond). unfold reptile_task.
  destruct (sample_with_replacements_ok dataset num_classes num_shots
              (random_state w) Hne Hsup) as (task & g1 & Htask & Hlen).
  erewrite bind_Ok_intro; [|apply lift_rng_exn_Ok; eauto].
  destruct (mini_batches_ok fuel task inner_batch_size inner_iters replacement
              g1 Hbs) as (batches & g2 & Hgen & Hall & _).
  { rewrite Hlen. destruct replacement; [done|].
    destruct Hcond as (? & ? & ?). split_and!; [|done..].
    intros ->. simpl in Hlen. lia. }
  destruct (for_each_Ok batches (inner_step self minimize_op) _
              (set_rng g2 (set_rng g1 w))
              (λ x w1, inner_step_Ok self minimize_op x w1) Hall)
    as [w_end Hloop].
  erewrite bind_Ok_intro; [|apply for_gen_Ok; eauto].
  by do 2 eexists.
Qed.

Lemma repeat_reptile_task_Ok fuel (self : Reptile (B:=B)) dataset minimize_op
    num_classes num_shots inner_batch_size inner_iters replacement old_vars
    rounds w :
  inner_loop_runs fuel dataset num_classes num_shots inner_batch_size
    inner_iters replacement →
  ∃ new_vars w',
    repeatM rounds
      (reptile_task fuel self dataset minimize_op num_classes num_shots
         inner_batch_size inner_iters replacement old_vars) w
    = (Ok new_vars, w').
Proof.
  intros Hruns. revert w.
  induction rounds as [|rounds IH]; intros w; simpl; [by do 2 eexists|].
  destruct (reptile_task_Ok fuel self dataset minimize_op num_classes
              num_shots inner_batch_size inner_iters replacement old_vars w
              Hruns) as (new & w1 & H1).
  erewrite bind_Ok_intro by exact H1.
  destruct (IH w1) as (news & w2 & H2).
  erewrite bind_Ok_intro by exact H2. by do 2 eexists.
Qed.

Lemma train_step_Ok fuel (self : Reptile (B:=B)) dataset minimize_op
    num_classes num_shots inner_batch_size inner_iters replacement
    meta_step_size meta_batch_size w :
  inner_loop_runs fuel dataset num_classes num_shots inner_batch_size
    inner_iters replacement →
  ∃ w',
    train_step fuel self dataset minimize_op num_classes num_shots
      inner_batch_size inner_iters replacement meta_step_size meta_batch_size
      w = (Ok tt, w').
Proof.
  intros Hruns. unfold train_step.
  erewrite bind_Ok_intro by reflexivity.
  destruct (repeat_reptile_task_Ok fuel self dataset minimize_op num_classes
              num_shots inner_batch_size inner_iters replacement
              (model_vars (session_vars w)) meta_batch_size w Hruns)
    as (news & w1 & H1).
  erewrite bind_Ok_intro by exact H1. by eexists.
Qed.





Lemma split_train_test_inr (task train test : list (input B * label)) k :
  _split_train_test task k = inr (train, test) →
  (∀ l, by_label l test = take k (by_label l task) ∧
        by_label l train = drop k (by_label l task)) ∧
  train ++ test ≡ₚ task ∧
  train `sublist_of` task.
Proof.
  unfold _split_train_test.
  pose proof (split_rounds_spec task k) as (Hl & Hperm & Hsub & _).
  destruct (split_rounds k (label_set task) task []) as [train' test'].
  destruct (_ <? _); [done|]. by intros [= <- <-].
Qed.

(** Holding out one shot per label never fails. *)
Lemma split_one_Ok (task : list (input B * label)) :
  ∃ train test, _split_train_test task 1 = inr (train, test).
Proof.
  unfold _split_train_test.
  pose proof (split_rounds_spec task 1) as (_ & _ & _ & Hlen).
  destruct (split_rounds 1 (label_set task) task []) as [train test].
  simpl in Hlen.
  destruct (sum_min_spec (label_set task) (λ l, length (by_label l task)) 1)
    as [_ Hiff].
  destruct (Nat.ltb_spec (length test) (length (label_set task) * 1))
    as [Hshort|_]; [|by do 2 eexists].
  exfalso. rewrite Hlen in Hshort. apply Hiff in Hshort.
  apply Exists_exists in Hshort as (l & Hin & Hlt).
  apply elem_of_label_set in Hin.
  destruct (by_label l task) as [|it rest] eqn:Hby; [|simpl in Hlt; lia].
  by apply by_label_nil_iff in Hby.
Qed.

Lemma sum_list_const {A} (l : list A) (f : A → nat) c :
  (∀ x, x ∈ l → f x = c) → sum_list (f <$> l) = length l * c.
Proof.
  induction l as [|x l IH]; intros Hf; [done|].
  rewrite fmap_cons. change (sum_list (?y :: ?k)) with (y + sum_list k).
  rewrite Hf by (by left). rewrite IH; [simpl; lia|].
  intros y Hy. apply Hf. by right.
Qed.

(** The training portion of an evaluation task holds [num_shots] examples
    of every sampled class, and the test portion is empty only when no
    class was sampled. *)
Lemma evaluate_train_set_length dataset num_classes num_shots g
    (train test : list (input B * label)) :
  Forall supplies dataset →
  _split_train_test
    (_sample_mini_dataset dataset num_classes (num_shots + 1) g).1 1
  = inr (train, test) →
  length train = (num_classes `min` length dataset) * num_shots ∧
  (0 < num_classes `min` length dataset → test ≠ []).
Proof.
  intros Hsup Hsplit.
  apply split_train_test_inr in Hsplit as (Hl & Hperm & Hsub).
  revert Hl Hperm Hsub. unfold _sample_mini_dataset.
  pose proof (random_shuffle_Permutation dataset g) as Hshuf.
  destruct (random_shuffle dataset g) as [shuffled g1]. simpl in Hshuf.
  set (classes := take num_classes shuffled).
  assert (length classes = num_classes `min` length dataset) as Hm.
  { unfold classes. by rewrite length_take, Hshuf. }
  assert (Forall supplies classes) as Hcs.
  { apply Forall_take. by rewrite Hshuf. }
  pose proof (sample_classes_labels classes 0 (num_shots + 1) g1) as Hlabels.
  pose proof (λ l, sample_classes_counts classes 0 (num_shots + 1) g1 l Hcs)
    as Hcounts.
  destruct (sample_classes 0 classes (num_shots + 1) g1) as [task g2].
  simpl in *. rewrite <- Hm. intros Hl Hperm Hsub. split.
  - rewrite (length_by_labels (seq 0 (length classes)) train).
    + rewrite (sum_list_const _ _ num_shots); [by rewrite length_seq|].
      intros l Hin%elem_of_seq. destruct (Hl l) as [_ ->].
      rewrite length_drop, Hcounts. rewrite decide_True by lia. lia.
    + apply NoDup_seq.
    + intros l (it & -> & Hit)%list_elem_of_fmap. apply elem_of_seq.
      rewrite Forall_forall in Hlabels.
      specialize (Hlabels it (elem_of_sublist _ _ _ Hit Hsub)).
      simpl in Hlabels. unfold label in *. lia.
  - intros Hpos Hnil. subst test. destruct (Hl 0) as [Hnone _].
    specialize (Hcounts 0). rewrite decide_True in Hcounts by lia.
    destruct (by_label 0 task) as [|it rest]; [simpl in Hcounts; lia|].
    done.
Qed.

Lemma train_augmetation_Ok (self : Reptile (B:=B)) batch minimize_op w :
  augmentation_fits self →
  batch ≠ [] →
  ∃ w', train_augmetation self batch minimize_op w = (Ok tt, w').
Proof.
  intros Hfits Hne. rewrite train_augmetation_unfold by done. lazy zeta.
  destruct (Hfits (map fst batch) (augmenter w)) as [images ->].
  { by destruct batch. }
  destruct (run_pre_step_Ok self
              (set_augmenter
                 (augmented_stack self (map fst batch) (augmenter w)).2 w))
    as [w2 Hpre].
  erewrite bind_Ok_intro by exact Hpre. by eexists.
Qed.

(** The step that fine-tuning takes on a batch goes through. *)
Lemma fine_tuning_step_Ok (self : Reptile (B:=B)) minimize_op
    (augment : bool) batch w :
  (augment = true → augmentation_fits self) →
  batch ≠ [] →
  ∃ w', (if augment then train_augmetation self batch minimize_op
         else inner_step self minimize_op batch) w = (Ok tt, w').
Proof.
  intros Hfits Hne. destruct augment.
  - apply train_augmetation_Ok; auto.
  - by apply inner_step_Ok.
Qed.

Lemma predict_each_Ok (train_set test_set : list (input B * label))
    (predictions : predict_op (B:=B)) res w :
  train_set ≠ [] →
  (∀ inputs s, inputs ≠ [] → predictions inputs s ≠ []) →
  ∃ preds w',
    predict_each train_set test_set predictions res w = (Ok preds, w').
Proof.
  intros Hne Hpred. revert res w.
  induction test_set as [|t test_set IH]; intros res w; simpl.
  { by do 2 eexists. }
  destruct train_set as [|it train_set]; [done|].
  erewrite bind_Ok_intro by reflexivity. lazy beta iota zeta.
  erewrite bind_Ok_intro by reflexivity.
  destruct (last _) as [p|] eqn:Hlast; [apply IH|].
  apply last_None in Hlast. exfalso. revert Hlast. apply Hpred. done.
Qed.

Lemma test_predictions_Ok (self : Reptile (B:=B))
    (train_set test_set : list (input B * label))
    (predictions : predict_op (B:=B)) w :
  train_set ≠ [] → test_set ≠ [] →
  (_transductive self = false →
   ∀ inputs s, inputs ≠ [] → predictions inputs s ≠ []) →
  ∃ preds w',
    _test_predictions self train_set test_set predictions w = (Ok preds, w').
Proof.
  intros Htrain Htest Hpred. unfold _test_predictions.
  destruct (_transductive self).
  - destruct test_set as [|t test_set]; [done|].
    erewrite bind_Ok_intro by reflexivity. by do 2 eexists.
  - apply predict_each_Ok; [done|by apply Hpred].
Qed.

Lemma evaluate_Ok fuel (self : Reptile (B:=B)) dataset minimize_op predictions
    num_classes num_shots inner_batch_size inner_iters replacement augment w :
  evaluate_runs fuel self dataset predictions num_classes num_shots
    inner_batch_size inner_iters replacement →
  (augment = true → augmentation_fits self) →
  ∃ n w',
    evaluate fuel self dataset minimize_op predictions num_classes num_shots
      inner_batch_size inner_iters replacement augment w = (Ok n, w').
Proof.
  intros (Hsup & Hbs & Hcond & Hpred) Hfits. unfold evaluate.
  destruct (_sample_mini_dataset dataset num_classes (num_shots + 1)
              (random_state w)) as [task g] eqn:Htask.
  erewrite bind_Ok_intro; [|apply lift_rng_Ok; eauto].
  destruct (split_one_Ok task) as (train_set & test_set & Hsplit).
  rewrite Hsplit. erewrite bind_Ok_intro by reflexivity. lazy beta iota zeta.
  erewrite bind_Ok_intro by reflexivity.
  pose proof (evaluate_train_set_length dataset num_classes num_shots
                (random_state w) train_set test_set Hsup) as Hlen.
  rewrite Htask in Hlen. destruct (Hlen Hsplit) as [Htrain Htest].
  assert (0 < (num_classes `min` length dataset) * num_shots) as Hpos.
  { destruct replacement; [lia|by destruct Hcond]. }
  destruct (mini_batches_ok fuel train_set inner_batch_size inner_iters
              replacement g Hbs) as (batches & g2 & Hgen & Hall & _).
  { rewrite Htrain. destruct replacement; [done|].
    destruct Hcond as (? & ? & ?). split_and!; [|done..].
    intros ->. simpl in Htrain. lia. }
  destruct (for_each_Ok batches
              (λ batch, if augment
                        then train_augmetation self batch minimize_op
                        else inner_step self minimize_op batch) _
              (set_rng g2 (set_rng g w))
              (λ x w1, fine_tuning_step_Ok self minimize_op augment x w1
                         Hfits) Hall)
    as [w_tuned Hloop].
  erewrite bind_Ok_intro; [|apply for_gen_Ok; eauto].
  destruct (test_predictions_Ok self train_set test_set predictions w_tuned)
    as (preds & w3 & Hp); [| |done|].
  { intros ->. simpl in Htrain. lia. }
  { apply Htest. lia. }
  erewrite bind_Ok_intro by exact Hp.
  erewrite bind_Ok_intro by reflexivity. by do 2 eexists.
Qed.

End Progress.

(** ** The two meta-steps, from start to end *)

Section Claims.
Context {B : Backend}.
Implicit Types (w : world (B:=B)) (dataset : list (ClassSource (input B))).

(** C1. A [Reptile.train_step] that returns has exported [old], the
    trainable snapshot it started with; has run [meta_batch_size] inner
    adaptations one after the other, each of which started with the
    trainable scope at [old], sampled its task with class replacement, took
    [inner_iters] steps over that task's mini-batches, exported the result
    and put the trainable scope back to [old]; and has finally set the
    trainable scope to [interpolate_vars old (average_vars new_vars)
    meta_step_size], where [new_vars] lists the exported results.  And it
    does return whenever the sampling and the inner loops go through
    ([inner_loop_runs]). *)
Theorem reptile_train_step_meta_update fuel (self : Reptile (B:=B)) dataset
    minimize_op num_classes num_shots inner_batch_size inner_iters replacement
    meta_step_size meta_batch_size w :
  let old := model_vars (session_vars w) in
  (∀ w',
     train_step fuel self dataset minimize_op num_classes num_shots
       inner_batch_size inner_iters replacement meta_step_size
       meta_batch_size w = (Ok tt, w') →
     ∃ new_vars w_last,
       chain (reptile_adaptation fuel self dataset minimize_op num_classes
                num_shots inner_batch_size inner_iters replacement old)
         w new_vars w_last ∧
       length new_vars = meta_batch_size ∧
       w' = set_vars
              (Store (interpolate_vars old (average_vars new_vars)
                        meta_step_size)
                     (other_vars (session_vars w_last))) w_last) ∧
  (inner_loop_runs fuel dataset num_classes num_shots inner_batch_size
     inner_iters replacement →
   ∃ w',
     train_step fuel self dataset minimize_op num_classes num_shots
       inner_batch_size inner_iters replacement meta_step_size
       meta_batch_size w = (Ok tt, w')).
Proof.
  intros old. split.
  - intros w' Hrun. by apply train_step_returned.
  - apply train_step_Ok.
Qed.


End Claims.

(** ** The theorems at work on the integer model *)

Lemma reptile_train_step_meta_update_witness :
  let w := Scalar.start [0; 1; 0; 1; 1] in
  let r := train_step 10 (Scalar.session false) Scalar.two_classes
             Scalar.sum_step 2 2 2 3 true 1%Z 2 w in
  inner_loop_runs 10 Scalar.two_classes 2 2 2 3 true ∧
  r = (Ok tt, r.2) ∧
  model_vars (session_vars r.2) = 100%Z ∧
  ∃ new_vars w_last,
    chain (reptile_adaptation 10 (Scalar.session false) Scalar.two_classes
             Scalar.sum_step 2 2 2 3 true 10%Z) w new_vars w_last ∧
    length new_vars = 2 ∧
    r.2 = set_vars
            (Store (interpolate_vars (b:=Scalar.backend) 10%Z
                      (average_vars (b:=Scalar.backend) new_vars) 1%Z)
                   (other_vars (session_vars w_last))) w_last.
Proof.
  intros w r.
  assert (inner_loop_runs 10 Scalar.two_classes 2 2 2 3 true) as Hruns.
  { split_and!; [done| |lia|simpl; lia].
    repeat constructor; intros n g; apply length_seq. }
  destruct (reptile_train_step_meta_update (B:=Scalar.backend) 10
              (Scalar.session false) Scalar.two_classes Scalar.sum_step
              2 2 2 3 true 1%Z 2 w) as [Hreturned Hreturns].
  destruct (Hreturns Hruns) as [w' Hok].
  assert (r = (Ok tt, r.2)) as Hrun by (vm_compute; reflexivity).
  split; [exact Hruns|]. split; [exact Hrun|].
  split; [vm_compute; reflexivity|].
  exact (Hreturned r.2 Hrun).
Defined.


(** The update of FOML is additive: in the run above the recorded last
    steps are 20 and 40, their average is 30, and the weight ends at
    [10 + 1 * 30 = 40], not at the interpolation of 10 towards 30. *)
Example foml_update_is_not_an_interpolation :
  model_vars (session_vars
    (FOML_train_step 10 (Scalar.foml_session None) Scalar.two_classes
       Scalar.sum_step 2 2 2 3 true 1%Z 2 (Scalar.start [0; 1; 0; 1; 1])).2)
  = add_vars (b:=Scalar.backend) 10%Z
      (scale_vars (b:=Scalar.backend)
         (average_vars (b:=Scalar.backend) [20%Z; 40%Z]) 1%Z) ∧
  add_vars (b:=Scalar.backend) 10%Z
    (scale_vars (b:=Scalar.backend)
       (average_vars (b:=Scalar.backend) [20%Z; 40%Z]) 1%Z) = 40%Z ∧
  interpolate_vars (b:=Scalar.backend) 10%Z
    (average_vars (b:=Scalar.backend) [20%Z; 40%Z]) 1%Z = 30%Z.
Proof. split_and!; reflexivity. Qed.

(** In transductive mode the same episode makes a single predict call. *)
Example evaluate_transductive_single_call :
  session_log
    (evaluate 10 (Scalar.session true) Scalar.two_classes Scalar.sum_step
       Scalar.parity 2 2 2 3 true false (Scalar.start [0; 1; 0; 1; 1])).2
  = [RunMinimize (B:=Scalar.backend) [22; 21] [0; 0]; RunMinimize (B:=Scalar.backend) [22; 12] [0; 1];
     RunMinimize (B:=Scalar.backend) [21; 12] [0; 1]; RunPredict (B:=Scalar.backend) [20; 10]].
Proof. reflexivity. Qed.

(** * Further properties of the module *)

(** ** The three task samplers *)

Section Samplers.
Context {B : Backend}.
Implicit Types (dataset classes : list (ClassSource (input B))).

Lemma snd_tagged (i : label) (samples : list (input B)) :
  map snd (map (λ s, (s, i)) samples) = replicate (length samples) i.
Proof. induction samples as [|s samples IH]; simpl; [done|by f_equal]. Qed.

Lemma sample_classes_snd classes class_idx num_shots g :
  Forall supplies classes →
  map snd (sample_classes class_idx classes num_shots g).1
  = concat (map (replicate num_shots) (seq class_idx (length classes))).
Proof.
  intros Hall. revert class_idx g.
  induction Hall as [|c classes Hc _ IH]; intros class_idx g; simpl; [done|].
  pose proof (Hc num_shots g) as Hlen.
  destruct (sample c num_shots g) as [samples g1].
  specialize (IH (S class_idx) g1).
  destruct (sample_classes (S class_idx) classes num_shots g1) as [more g2].
  simpl in *. rewrite map_app, snd_tagged, Hlen. f_equal. exact IH.
Qed.

(** X1. When the dataset holds at least [num_classes] data classes and
    every class supplies the shots it is asked for,
    [_sample_mini_dataset] yields [num_classes * num_shots] examples; the
    labels come in blocks, [num_shots] times 0, then [num_shots] times 1,
    and so on up to [num_classes - 1], so every label has exactly
    [num_shots] examples. *)
Theorem sample_mini_dataset_cardinality dataset num_classes num_shots g :
  num_classes ≤ length dataset →
  Forall supplies dataset →
  length (_sample_mini_dataset dataset num_classes num_shots g).1
  = num_classes * num_shots ∧
  map snd (_sample_mini_dataset dataset num_classes num_shots g).1
  = concat (map (replicate num_shots) (seq 0 num_classes)) ∧
  ∀ l, l < num_classes →
    length (by_label l (_sample_mini_dataset dataset num_classes num_shots g).1)
    = num_shots.
Proof.
  intros Hle Hsup. unfold _sample_mini_dataset.
  pose proof (random_shuffle_Permutation dataset g) as Hperm.
  destruct (random_shuffle dataset g) as [shuffled g1]. simpl in Hperm.
  assert (length (take num_classes shuffled) = num_classes) as Hlen.
  { rewrite length_take, Hperm. lia. }
  assert (Forall supplies (take num_classes shuffled)) as Hcs.
  { apply Forall_take. by rewrite Hperm. }
  pose proof (sample_classes_snd _ 0 num_shots g1 Hcs) as Hsnd.
  rewrite Hlen in Hsnd.
  split_and!; [|done|].
  - rewrite <- (length_map snd), Hsnd.
    rewrite (concat_length_uniform _ num_shots).
    + by rewrite length_map, length_seq.
    + apply Forall_forall. intros y (i & -> & _)%list_elem_of_fmap.
      apply length_replicate.
  - intros l Hl. rewrite sample_classes_counts by done.
    rewrite Hlen. by rewrite decide_True by lia.
Qed.

Lemma sample_draws_snd (draws : list (ClassSource (input B)))
    class_idx num_classes g :
  Forall supplies draws →
  map snd (sample_draws class_idx draws num_classes g).1
  = map (λ i, i mod num_classes) (seq class_idx (length draws)).
Proof.
  intros Hall. revert class_idx g.
  induction Hall as [|c draws Hc _ IH]; intros class_idx g; simpl; [done|].
  pose proof (Hc 1 g) as Hlen.
  destruct (sample c 1 g) as [samples g1].
  specialize (IH (S class_idx) g1).
  destruct (sample_draws (S class_idx) draws num_classes g1) as [more g2].
  simpl in *. rewrite map_app, snd_tagged, Hlen. f_equal. exact IH.
Qed.

Lemma length_by_label_snd (l : label) (task : list (input B * label)) :
  length (by_label l task) = length (filter (λ x, x = l) (map snd task)).
Proof.
  unfold by_label. induction task as [|it task IH]; [done|].
  simpl map. rewrite !filter_cons. destruct (decide (it.2 = l)); simpl; lia.
Qed.

Lemma count_eq_seq (l start n : nat) :
  length (filter (λ x, x = l) (seq start n))
  = if decide (start ≤ l < start + n) then 1 else 0.
Proof.
  revert start. induction n as [|n IH]; intros start; simpl.
  { destruct (decide _); [lia|done]. }
  rewrite filter_cons. specialize (IH (S start)).
  destruct (decide (start = l)) as [->|]; simpl; rewrite IH;
    repeat destruct (decide _); lia.
Qed.

(** Round-robin labels give every label its share. *)
Lemma count_mod_seq (l num_classes num_shots : nat) :
  l < num_classes →
  length (filter (λ x, x = l)
            (map (λ i, i mod num_classes) (seq 0 (num_classes * num_shots))))
  = num_shots.
Proof.
  intros Hl. induction num_shots as [|num_shots IH].
  { by rewrite Nat.mul_0_r. }
  replace (num_classes * S num_shots)
    with (num_classes * num_shots + num_classes) by lia.
  rewrite seq_app, map_app, filter_app, length_app, IH. simpl.
  assert (map (λ i, i mod num_classes)
            (seq (num_classes * num_shots) num_classes)
          = seq 0 num_classes) as ->.
  { rewrite <- (Nat.add_0_r (num_classes * num_shots)) at 1.
    rewrite <- fmap_add_seq.
    change (map ?f (?h <$> ?k)) with (f <$> (h <$> k)).
    rewrite <- list_fmap_compose.
    rewrite <- (list_fmap_id (seq 0 num_classes)) at 2.
    apply list_fmap_ext. intros _ j Hj%list_elem_of_lookup_2.
    apply elem_of_seq in Hj. simpl.
    rewrite Nat.add_comm, Nat.mul_comm, Nat.Div0.mod_add.
    apply Nat.mod_small. lia. }
  rewrite count_eq_seq. rewrite decide_True by lia. lia.
Qed.

(** X2. [_sample_mini_dataset_with_replacements] raises [IndexError]
    exactly when the dataset is empty and at least one example is asked
    for.  On a non-empty dataset whose classes supply what they are asked
    for it yields [num_classes * num_shots] examples, the i-th of them
    under label [i mod num_classes], so every label below [num_classes]
    has exactly [num_shots] examples. *)
Theorem sample_with_replacements_labels dataset num_classes num_shots g :
  (dataset = [] → 0 < num_classes * num_shots →
   (_sample_mini_dataset_with_replacements dataset num_classes num_shots g).1
   = inl IndexError) ∧
  (num_classes * num_shots = 0 →
   (_sample_mini_dataset_with_replacements dataset num_classes num_shots g).1
   = inr []) ∧
  (dataset ≠ [] → Forall supplies dataset →
   ∃ task,
     (_sample_mini_dataset_with_replacements dataset num_classes num_shots g).1
     = inr task ∧
     length task = num_classes * num_shots ∧
     map snd task
     = map (λ i, i mod num_classes) (seq 0 (num_classes * num_shots)) ∧
     ∀ l, l < num_classes → length (by_label l task) = num_shots).
Proof.
  unfold _sample_mini_dataset_with_replacements. split_and!.
  - intros -> Hpos. simpl.
    destruct (num_classes * num_shots) as [|k]; [lia|]. simpl.
    by destruct (randbelow 0 g).
  - intros ->. by destruct (random_shuffle dataset g).
  - intros Hne Hsup.
    pose proof (random_shuffle_Permutation dataset g) as Hperm.
    destruct (random_shuffle dataset g) as [shuffled g1]. simpl in Hperm.
    assert (shuffled ≠ []) as Hne'.
    { intros ->. by apply Permutation_nil_l in Hperm. }
    destruct (random_choices_ok shuffled (num_classes * num_shots) g1 Hne')
      as (cs & g2 & -> & Hlen & Hall).
    assert (Forall supplies cs) as Hcs.
    { rewrite Forall_forall in Hall, Hsup. apply Forall_forall.
      intros c Hc. apply Hsup. rewrite <- Hperm. by apply Hall. }
    pose proof (sample_draws_snd cs 0 num_classes g2 Hcs) as Hsnd.
    pose proof (sample_draws_length cs 0 num_classes g2 Hcs) as Hdraws.
    destruct (sample_draws 0 cs num_classes g2) as [task g3].
    simpl in *. rewrite Hlen in Hsnd. exists task.
    split_and!; [done|congruence|done|].
    intros l Hl. rewrite length_by_label_snd, Hsnd.
    by apply count_mod_seq.
Qed.

(** X3. [_sample_mini_dataset_force_1class] raises [IndexError] on an
    empty dataset.  On any other dataset it returns what one data class of
    the dataset hands out for [num_shots], every example under label 0. *)
Theorem sample_force_1class_single_label dataset num_shots g :
  (dataset = [] →
   (_sample_mini_dataset_force_1class dataset num_shots g).1 = inl IndexError) ∧
  (dataset ≠ [] →
   ∃ class_obj g0,
     class_obj ∈ dataset ∧
     (_sample_mini_dataset_force_1class dataset num_shots g).1
     = inr (map (λ s, (s, 0)) (sample class_obj num_shots g0).1)).
Proof.
  unfold _sample_mini_dataset_force_1class. split.
  - intros ->. simpl. by destruct (randbelow 0 g).
  - intros Hne.
    pose proof (random_shuffle_Permutation dataset g) as Hperm.
    destruct (random_shuffle dataset g) as [shuffled g1]. simpl in Hperm.
    assert (shuffled ≠ []) as Hne'.
    { intros ->. by apply Permutation_nil_l in Hperm. }
    destruct (random_choices_ok shuffled 1 g1 Hne')
      as (cs & g2 & -> & Hlen & Hall).
    destruct cs as [|c cs]; [done|]. simpl.
    apply Forall_cons in Hall as [Hc _].
    exists c, g2. split; [by rewrite <- Hperm|].
    by destruct (sample c num_shots g2).
Qed.

End Samplers.

Lemma sample_mini_dataset_cardinality_witness :
  let task := (_sample_mini_dataset (B:=Scalar.backend) Scalar.two_classes
                 2 3 [1]).1 in
  2 ≤ length Scalar.two_classes ∧
  task = [(10, 0); (11, 0); (12, 0); (20, 1); (21, 1); (22, 1)] ∧
  length task = 2 * 3 ∧
  map snd task = concat (map (replicate 3) (seq 0 2)).
Proof.
  intros task.
  assert (2 ≤ length Scalar.two_classes) as Hle by (simpl; lia).
  split; [exact Hle|]. split; [reflexivity|].
  destruct (sample_mini_dataset_cardinality (B:=Scalar.backend)
              Scalar.two_classes 2 3 [1] Hle) as (Hlen & Hsnd & _).
  { repeat constructor; intros n g; apply length_seq. }
  split; [exact Hlen|exact Hsnd].
Defined.

Lemma sample_with_replacements_labels_witness :
  let r := (_sample_mini_dataset_with_replacements (B:=Scalar.backend)
              Scalar.two_classes 2 2 [0; 1; 0; 1; 1]).1 in
  r = inr [(10, 0); (20, 1); (10, 0); (10, 1)] ∧
  (_sample_mini_dataset_with_replacements (B:=Scalar.backend) [] 2 2 []).1
  = inl IndexError ∧
  ∃ task,
    r = inr task ∧ length task = 2 * 2 ∧
    map snd task = map (λ i, i mod 2) (seq 0 (2 * 2)) ∧
    ∀ l, l < 2 → length (by_label l task) = 2.
Proof.
  intros r. split; [reflexivity|].
  destruct (sample_with_replacements_labels (B:=Scalar.backend) [] 2 2 [])
    as (Hraise & _ & _).
  split; [apply Hraise; [done|lia]|].
  destruct (sample_with_replacements_labels (B:=Scalar.backend)
              Scalar.two_classes 2 2 [0; 1; 0; 1; 1]) as (_ & _ & Htask).
  apply Htask; [done|].
  repeat constructor; intros n g; apply length_seq.
Defined.

Lemma sample_force_1class_single_label_witness :
  (_sample_mini_dataset_force_1class (B:=Scalar.backend) [] 3 []).1
  = inl IndexError ∧
  (_sample_mini_dataset_force_1class (B:=Scalar.backend) Scalar.two_classes
     3 [0; 1]).1 = inr [(10, 0); (11, 0); (12, 0)] ∧
  ∃ class_obj g0,
    class_obj ∈ Scalar.two_classes ∧
    (_sample_mini_dataset_force_1class (B:=Scalar.backend) Scalar.two_classes
       3 [0; 1]).1
    = inr (map (λ s, (s, 0)) (sample class_obj 3 g0).1).
Proof.
  destruct (sample_force_1class_single_label (B:=Scalar.backend) [] 3 [])
    as [Hraise _].
  split; [by apply Hraise|]. split; [reflexivity|].
  destruct (sample_force_1class_single_label (B:=Scalar.backend)
              Scalar.two_classes 3 [0; 1]) as [_ Hone].
  by apply Hone.
Defined.

(** ** More on [_mini_batches] *)

(** X4. Without replacement, on a non-empty [samples] with
    [num_batches >= 1], the generator returns after exactly [num_batches]
    batches, all of one length ([batch_size], or 1 when [batch_size] is
    smaller), and the batches laid end to end are a prefix of successive
    full shuffles of [samples] laid end to end: consecutive batches are
    consecutive chunks of the shuffles, nothing is skipped and nothing is
    used twice within one shuffle. *)
Theorem mini_batches_chunks_of_shuffles {A} fuel (samples : list A)
    batch_size num_batches g :
  samples ≠ [] →
  (1 ≤ num_batches)%Z →
  (num_batches * Z.of_nat (batch_len batch_size) ≤ Z.of_nat fuel)%Z →
  let r := (_mini_batches fuel samples batch_size num_batches false g).1 in
  finish r = Ok tt ∧
  length (yielded r) = Z.to_nat num_batches ∧
  Forall (λ batch, length batch = batch_len batch_size) (yielded r) ∧
  ∃ shuffles unused,
    Forall (λ s, s ≡ₚ samples) shuffles ∧
    concat shuffles = concat (yielded r) ++ unused.
Proof.
  intros Hne Hnb Hfuel. unfold _mini_batches. simpl.
  destruct (shuffle_batches_spec fuel batch_size num_batches samples []
              0%Z [] g)
    as (ys & g' & -> & Hlen & Hcnt & _ & _ & shuffles & unused & Hsh & Hcat);
    [done|lia|unfold batch_len; simpl; lia|apply list_subseteq_nil
    |simpl; lia|].
  simpl in *. split_and!; [done|lia|done|]. by exists shuffles, unused.
Qed.

Lemma mini_batches_chunks_of_shuffles_witness :
  let samples := [(1, 0); (2, 0); (3, 1)] in
  let r := (_mini_batches 4 samples 2 2 false [0; 0; 1; 0]).1 in
  yielded r = [[(2, 0); (3, 1)]; [(1, 0); (1, 0)]] ∧
  finish r = Ok tt ∧
  length (yielded r) = 2 ∧
  Forall (λ batch, length batch = 2) (yielded r) ∧
  ∃ shuffles unused,
    Forall (λ s, s ≡ₚ samples) shuffles ∧
    concat shuffles = concat (yielded r) ++ unused.
Proof.
  intros samples r. split; [reflexivity|].
  apply (mini_batches_chunks_of_shuffles 4 samples 2 2 [0; 0; 1; 0]);
    [done|lia|vm_compute; discriminate].
Defined.

(** Reshuffling with a batch count that can no longer be met: every pass
    ends exhausted, and all samples of all passes sit in the batches
    yielded and in the batch being filled. *)
Lemma shuffle_batches_unbounded {A} fuel batch_size num_batches
    (samples cur : list A) batch_count out g :
  (num_batches ≤ batch_count)%Z →
  length cur < batch_len batch_size →
  ∃ ys (leftover : list A),
    (shuffle_batches fuel batch_size num_batches samples cur batch_count
       out g).1 = GenResult (out ++ ys) Timeout ∧
    length ys * batch_len batch_size + length leftover
    = length cur + fuel * length samples ∧
    length leftover < batch_len batch_size.
Proof.
  revert samples cur batch_count out g.
  induction fuel as [|fuel IH]; intros samples cur batch_count out g Hbc Hcur.
  { exists [], cur. simpl. rewrite app_nil_r. split_and!; [done|lia|done]. }
  simpl.
  pose proof (random_shuffle_length samples g) as Hlen.
  destruct (random_shuffle samples g) as [s g1]. simpl in Hlen.
  pose proof (for_samples_spec batch_size num_batches s cur batch_count out
                Hcur) as Hpass.
  destruct (for_samples batch_size num_batches s cur batch_count out)
    as [out'|cur' bc' out'].
  - destruct Hpass as (ys & _ & _ & _ & _ & _ & _ & Hcnt & Hne).
    destruct ys; [done|]. simpl in Hcnt. lia.
  - destruct Hpass as (ys & -> & Hcat & Hall & -> & Hcur' & _).
    destruct (IH s cur' (batch_count + Z.of_nat (length ys))%Z (out ++ ys) g1)
      as (zs & leftover & Heq & Hsum & Hleft); [lia|done|].
    exists (ys ++ zs), leftover. rewrite Heq, <- app_assoc.
    split_and!; [done| |done].
    assert (length (concat ys ++ cur') = length (cur ++ s)) as Hl
      by by rewrite Hcat.
    rewrite !length_app, (concat_length_uniform _ _ Hall) in Hl.
    rewrite length_app, Hlen in *. lia.
Qed.

(** X5. Without replacement and with [num_batches <= 0] the generator
    never returns: the count of batches is compared with [num_batches]
    only after it has been raised to at least 1.  After [fuel] reshuffles
    it is still running and has yielded [fuel * len(samples)] samples in
    full batches, that is [fuel * len(samples) / batch_len] batches. *)
Theorem mini_batches_zero_batches_diverges {A} fuel (samples : list A)
    batch_size num_batches g :
  (num_batches ≤ 0)%Z →
  let r := (_mini_batches fuel samples batch_size num_batches false g).1 in
  finish r = Timeout ∧
  length (yielded r) = (fuel * length samples) / batch_len batch_size.
Proof.
  intros Hnb. unfold _mini_batches. simpl.
  assert (0 < batch_len batch_size) as Hpos by (unfold batch_len; lia).
  destruct (shuffle_batches_unbounded fuel batch_size num_batches samples []
              0%Z [] g Hnb Hpos) as (ys & leftover & -> & Hsum & Hleft).
  simpl in *. split; [done|].
  apply (Nat.div_unique _ _ _ (length leftover)); [done|lia].
Qed.

Lemma mini_batches_zero_batches_diverges_witness :
  let r := (_mini_batches 3 [(1, 0); (2, 0)] 2 0 false []).1 in
  (0 ≤ 0)%Z ∧
  yielded r = [[(2, 0); (1, 0)]; [(1, 0); (2, 0)]; [(2, 0); (1, 0)]] ∧
  finish r = Timeout ∧
  length (yielded r) = (3 * 2) / batch_len 2 ∧
  (_mini_batches 3 [(1, 0); (2, 0)] 2 0 true []).1 = GenResult [] (Ok tt).
Proof.
  intros r. split; [lia|]. split; [reflexivity|].
  destruct (mini_batches_zero_batches_diverges 3 [(1, 0); (2, 0)] 2 0 []
              ltac:(lia)) as [Hfin Hlen].
  split; [exact Hfin|]. split; [exact Hlen|reflexivity].
Defined.

(** ** Loops that cannot end *)

Section Hangs.
Context {B : Backend}.
Implicit Types (w : world (B:=B)) (dataset : list (ClassSource (input B))).

Lemma bind_Timeout_intro {A C} (m : M A) (k : A → M C) w w1 :
  m w = (Timeout, w1) → (m ≫= k) w = (Timeout, w1).
Proof. intros Hm. unfold mbind, M_bind, bind. by rewrite Hm. Qed.

(** Every outcome of a sequence is an outcome of its second part after
    the first has returned, or the failure of the first. *)
Lemma bind_cases {A C} (m : M A) (k : A → M C) w o w' :
  (m ≫= k) w = (o, w') →
  (∃ a w1, m w = (Ok a, w1) ∧ k a w1 = (o, w')) ∨
  (∃ e, m w = (Raise e, w') ∧ o = Raise e) ∨
  (m w = (Timeout, w') ∧ o = Timeout).
Proof.
  unfold mbind, M_bind, bind. destruct (m w) as [[a|e|] w1]; intros Heq.
  - left. eauto.
  - right. left. injection Heq as <- <-. eauto.
  - right. right. by injection Heq as <- <-.
Qed.

Lemma sample_with_replacements_inr dataset num_classes num_shots g :
  dataset ≠ [] →
  ∃ task g',
    _sample_mini_dataset_with_replacements dataset num_classes num_shots g
    = (inr task, g').
Proof.
  intros Hne. unfold _sample_mini_dataset_with_replacements.
  pose proof (random_shuffle_Permutation dataset g) as Hperm.
  destruct (random_shuffle dataset g) as [shuffled g1]. simpl in Hperm.
  assert (shuffled ≠ []) as Hne'.
  { intros ->. by apply Permutation_nil_l in Hperm. }
  destruct (random_choices_ok shuffled (num_classes * num_shots) g1 Hne')
    as (cs & g2 & -> & _).
  destruct (sample_draws 0 cs num_classes g2) as [task g3]. by do 2 eexists.
Qed.

(** Without replacement and without a batch count to reach, the generator
    is cut by the fuel, whatever the fuel, and has yielded no empty
    batch. *)
Lemma mini_batches_no_count {A} fuel (samples : list A) batch_size
    num_batches g :
  (num_batches ≤ 0)%Z →
  ∃ batches g',
    _mini_batches fuel samples batch_size num_batches false g
    = (GenResult batches Timeout, g') ∧
    Forall (λ batch, batch ≠ []) batches.
Proof.
  intros Hnb. unfold _mini_batches.
  assert (0 < batch_len batch_size) as Hpos by (unfold batch_len; lia).
  destruct (shuffle_batches_prefix fuel batch_size num_batches samples []
              0%Z [] g Hpos) as (ys & Hy & Hlen & Hfin & _).
  destruct (shuffle_batches fuel batch_size num_batches samples [] 0%Z [] g)
    as [[batches fin] g']. simpl in *. subst batches.
  exists ys, g'. split.
  - destruct Hfin as [->|(_ & Hcnt & Hne)]; [done|].
    destruct ys; [done|]. simpl in Hcnt. lia.
  - eapply Forall_impl; [exact Hlen|]. intros batch Hb ->. simpl in Hb. lia.
Qed.

Lemma for_gen_Timeout {A} (gen : rng → gen_result A * rng)
    (body : A → M unit) (P : A → Prop) w ys g :
  gen (random_state w) = (GenResult ys Timeout, g) →
  (∀ x w1, P x → ∃ w2, body x w1 = (Ok tt, w2)) →
  Forall P ys →
  ∃ w', for_gen gen body w = (Timeout, w').
Proof.
  intros Hgen Hbody Hall. unfold for_gen.
  erewrite bind_Ok_intro; [|apply lift_rng_Ok; eauto].
  destruct (for_each_Ok ys body P (set_rng g w) Hbody Hall) as [w1 H1].
  simpl. erewrite bind_Ok_intro by exact H1. by eexists.
Qed.

(** X6. Without replacement and with [inner_iters <= 0],
    [Reptile.train_step] (on a non-empty dataset, for at least one task)
    never ends: the loop over the mini-batches of the first task keeps
    taking inner steps for as long as it is run.  [Reptile.evaluate] never
    returns a count then; it never ends either, unless it is on the
    augmentation path and a stack of augmented images fails to reshape,
    which raises instead. *)
Theorem no_replacement_needs_inner_iters fuel (self : Reptile (B:=B)) dataset
    minimize_op predictions num_classes num_shots inner_batch_size
    inner_iters meta_step_size meta_batch_size augment w :
  (inner_iters ≤ 0)%Z →
  (dataset ≠ [] → 0 < meta_batch_size →
   (train_step fuel self dataset minimize_op num_classes num_shots
      inner_batch_size inner_iters false meta_step_size meta_batch_size w).1
   = Timeout) ∧
  (∀ n w',
     evaluate fuel self dataset minimize_op predictions num_classes num_shots
       inner_batch_size inner_iters false augment w ≠ (Ok n, w')) ∧
  ((augment = true → augmentation_fits self) →
   (evaluate fuel self dataset minimize_op predictions num_classes num_shots
      inner_batch_size inner_iters false augment w).1 = Timeout).
Proof.
  intros Hiters. split_and!.
  - intros Hne Hmbs. destruct meta_batch_size as [|n]; [lia|].
    unfold train_step. erewrite bind_Ok_intro by reflexivity.
    simpl repeatM.
    destruct (sample_with_replacements_inr dataset num_classes num_shots
                (random_state w) Hne) as (task & g1 & Htask).
    destruct (mini_batches_no_count fuel task inner_batch_size inner_iters g1
                Hiters) as (batches & g2 & Hgen & Hall).
    destruct (for_gen_Timeout
                (_mini_batches fuel task inner_batch_size inner_iters false)
                (inner_step self minimize_op) _ (set_rng g1 w) batches g2
                Hgen (λ x w1, inner_step_Ok self minimize_op x w1) Hall)
      as [w' Hloop].
    erewrite bind_Timeout_intro; [done|].
    erewrite bind_Timeout_intro; [done|].
    unfold reptile_task.
    erewrite bind_Ok_intro; [|apply lift_rng_exn_Ok; eauto].
    erewrite bind_Timeout_intro; [done|exact Hloop].
  - intros n w' Hrun. unfold evaluate in Hrun.
    apply bind_Ok in Hrun as (task & w1 & (g & Htask & ->)%lift_rng_Ok & Hrun).
    apply bind_Ok in Hrun as ([train_set test_set] & w2 & _ & Hrun).
    apply bind_Ok in Hrun as (old_vars & w3 & _ & Hrun).
    apply bind_Ok in Hrun as ([] & w_tuned & Hloop & _).
    apply for_gen_Ok in Hloop as (batches & g2 & Hgen & _).
    destruct (mini_batches_no_count fuel train_set inner_batch_size
                inner_iters (random_state w3) Hiters)
      as (batches' & g' & Heq & _).
    by rewrite Heq in Hgen.
  - intros Hfits. unfold evaluate.
    destruct (_sample_mini_dataset dataset num_classes (num_shots + 1)
                (random_state w)) as [task g] eqn:Htask.
    erewrite bind_Ok_intro; [|apply lift_rng_Ok; eauto].
    destruct (split_one_Ok task) as (train_set & test_set & Hsplit).
    rewrite Hsplit. erewrite bind_Ok_intro by reflexivity.
    lazy beta iota zeta. erewrite bind_Ok_intro by reflexivity.
    destruct (mini_batches_no_count fuel train_set inner_batch_size
                inner_iters g Hiters) as (batches & g2 & Hgen & Hall).
    destruct (for_gen_Timeout
                (_mini_batches fuel train_set inner_batch_size inner_iters
                   false)
                (λ batch, if augment
                          then train_augmetation self batch minimize_op
                          else inner_step self minimize_op batch) _
                (set_rng g w) batches g2 Hgen
                (λ x w1, fine_tuning_step_Ok self minimize_op augment x w1
                           Hfits) Hall)
      as [w' Hloop].
    erewrite bind_Timeout_intro; [done|exact Hloop].
Qed.

(** X7. Without replacement a [FOML.train_step] for at least one task
    never returns when [inner_iters <= 0], nor, for a session with
    [tail_shots], when [inner_iters <= 1]: the training batches before the
    tail batch are then asked for with a count of at most 0. *)
Theorem foml_no_replacement_needs_inner_iters fuel (self : FOML (B:=B))
    dataset minimize_op num_classes num_shots inner_batch_size inner_iters
    meta_step_size meta_batch_size w w' :
  0 < meta_batch_size →
  (inner_iters ≤ 0)%Z ∨ (is_Some (tail_shots self) ∧ (inner_iters ≤ 1)%Z) →
  FOML_train_step fuel self dataset minimize_op num_classes num_shots
    inner_batch_size inner_iters false meta_step_size meta_batch_size w
  ≠ (Ok tt, w').
Proof.
  intros Hmbs Hiters Hrun.
  apply FOML_train_step_returned in Hrun
    as (updates & w_last & Hchain & Hlen & _).
  destruct Hchain as [|w0 u w1 us w2 Hadapt _]; [simpl in Hlen; lia|].
  destruct Hadapt
    as (_ & task & g1 & earlier & final & g2 & _ & _ & _ & Hgen & _).
  unfold FOML_mini_batches in Hgen.
  destruct (tail_shots self) as [shots|] eqn:Htail.
  - destruct (_split_train_test task shots) as [e|[train tail]]; [done|].
    destruct (mini_batches_no_count fuel train inner_batch_size
                (inner_iters - 1) g1) as (batches & g' & Heq & _).
    { destruct Hiters as [?|[_ ?]]; lia. }
    by rewrite Heq in Hgen.
  - destruct (mini_batches_no_count fuel task inner_batch_size inner_iters g1)
      as (batches & g' & Heq & _).
    { destruct Hiters as [?|[[? [=]] _]]; lia. }
    by rewrite Heq in Hgen.
Qed.

End Hangs.

(** On the image model the augmenter keeps the number of images, so the
    stacks it makes reshape. *)
Lemma images_augmentation_fits transductive :
  augmentation_fits (Images.session transductive).
Proof.
  intros inputs a _. unfold augmented_stack. simpl.
  rewrite !length_map, !Nat.eqb_refl. by eexists.
Qed.

Lemma no_replacement_needs_inner_iters_witness :
  let w := Scalar.start [0; 1; 0; 1; 1] in
  (0 ≤ 0)%Z ∧
  (train_step 5 (Scalar.session false) Scalar.two_classes Scalar.sum_step
     2 2 2 0 false 1%Z 2 w).1 = Timeout ∧
  (evaluate 5 (Scalar.session false) Scalar.two_classes Scalar.sum_step
     Scalar.parity 2 2 2 0 false false w).1 = Timeout ∧
  (evaluate 5 (Scalar.session false) Scalar.two_classes Scalar.sum_step
     Scalar.parity 2 2 2 0 false true w).1 = Raise ValueError ∧
  (evaluate 5 (Images.session false) Images.two_classes Images.sum_step
     Images.parity 2 2 2 0 false true (Images.start [0; 1; 0; 1; 1])).1
  = Timeout.
Proof.
  intros w. split; [lia|].
  destruct (no_replacement_needs_inner_iters (B:=Scalar.backend) 5
              (Scalar.session false) Scalar.two_classes Scalar.sum_step
              Scalar.parity 2 2 2 0 1%Z 2 false w ltac:(lia))
    as (Htrain & _ & Heval).
  destruct (no_replacement_needs_inner_iters (B:=Images.backend) 5
              (Images.session false) Images.two_classes Images.sum_step
              Images.parity 2 2 2 0 1%Z 2 true
              (Images.start [0; 1; 0; 1; 1]) ltac:(lia))
    as (_ & _ & Himages).
  split; [apply Htrain; [done|lia]|]. split; [by apply Heval|].
  split; [vm_compute; reflexivity|].
  apply Himages. intros _. apply images_augmentation_fits.
Defined.

Lemma foml_no_replacement_needs_inner_iters_witness :
  let w := Scalar.start [0; 1; 0; 1; 1] in
  0 < 2 ∧
  (FOML_train_step 5 (Scalar.foml_session (Some 1)) Scalar.two_classes
     Scalar.sum_step 2 2 2 1 false 1%Z 2 w).1 = Timeout ∧
  ∀ w',
    FOML_train_step 5 (Scalar.foml_session (Some 1)) Scalar.two_classes
      Scalar.sum_step 2 2 2 1 false 1%Z 2 w ≠ (Ok tt, w').
Proof.
  intros w. split; [lia|]. split; [reflexivity|]. intros w'.
  apply (foml_no_replacement_needs_inner_iters (B:=Scalar.backend) 5
           (Scalar.foml_session (Some 1)) Scalar.two_classes Scalar.sum_step
           2 2 2 1 1%Z 2 w w'); [lia|].
  right. split; [by eexists|lia].
Defined.

(** ** What batches are made of *)

Lemma random_sample_inr {A} (population : list A) k g batch g' :
  random_sample population k g = (inr batch, g') →
  length batch = Z.to_nat k ∧ batch ⊆+ population.
Proof.
  intros Heq.
  destruct (decide (0 ≤ k ≤ Z.of_nat (length population))%Z) as [Hk|Hk].
  - destruct (random_sample_ok population k g Hk) as (b & g0 & Hb & ? & ?).
    rewrite Hb in Heq. by injection Heq as <- <-.
  - rewrite random_sample_error in Heq by lia. done.
Qed.

Lemma sample_batches_yields {A} (samples : list A) batch_size rounds g :
  Forall (λ batch, length batch = Z.to_nat batch_size ∧ batch ⊆+ samples)
    (yielded (sample_batches samples batch_size rounds g).1).
Proof.
  revert g. induction rounds as [|rounds IH]; intros g; simpl; [done|].
  destruct (random_sample samples batch_size g) as [[e|batch] g'] eqn:Hs;
    [done|].
  apply random_sample_inr in Hs. specialize (IH g').
  destruct (sample_batches samples batch_size rounds g') as [r g''].
  simpl in *. by constructor.
Qed.

Lemma shuffle_batches_subseteq {A} fuel batch_size num_batches
    (samples cur : list A) batch_count out g :
  length cur < batch_len batch_size →
  cur ⊆ samples →
  ∃ ys,
    yielded (shuffle_batches fuel batch_size num_batches samples cur
               batch_count out g).1 = out ++ ys ∧
    Forall (λ y, y ⊆ samples) ys.
Proof.
  revert samples cur batch_count out g.
  induction fuel as [|fuel IH]; intros samples cur batch_count out g Hcur Hsub.
  { exists []. simpl. by rewrite app_nil_r. }
  simpl.
  pose proof (random_shuffle_Permutation samples g) as Hperm.
  destruct (random_shuffle samples g) as [s g1]. simpl in Hperm.
  pose proof (for_samples_spec batch_size num_batches s cur batch_count out
                Hcur) as Hpass.
  assert (cur ++ s ⊆ samples) as Hall.
  { intros x [Hx|Hx]%elem_of_app; [by apply Hsub|by rewrite <- Hperm]. }
  destruct (for_samples batch_size num_batches s cur batch_count out)
    as [out'|cur' bc' out'].
  - destruct Hpass as (ys & used & unused & -> & -> & Hcat & _).
    exists ys. split; [done|]. apply concat_subseteq. rewrite Hcat.
    intros x Hx. apply Hall. rewrite app_assoc. apply elem_of_app. by left.
  - destruct Hpass as (ys & -> & Hcat & _ & _ & Hcur' & _).
    assert (concat ys ++ cur' ⊆ samples) as Hall' by by rewrite Hcat.
    destruct (IH s cur' bc' (out ++ ys) g1 Hcur') as (zs & Hy & Hzs).
    { intros x Hx. rewrite Hperm. apply Hall', elem_of_app. by right. }
    exists (ys ++ zs). rewrite Hy, <- app_assoc. split; [done|].
    apply Forall_app. split.
    + apply concat_subseteq. intros x Hx. apply Hall', elem_of_app. by left.
    + eapply Forall_impl; [exact Hzs|]. intros y Hy' x Hx.
      rewrite <- Hperm. by apply Hy'.
Qed.

(** Whatever it does next, the generator has only yielded samples. *)
Lemma mini_batches_subseteq {A} fuel (samples : list A) batch_size
    num_batches replacement g :
  Forall (λ batch, batch ⊆ samples)
    (yielded (_mini_batches fuel samples batch_size num_batches
                replacement g).1).
Proof.
  unfold _mini_batches. destruct replacement.
  - eapply Forall_impl; [apply sample_batches_yields|].
    intros batch [_ Hsub] x Hx. by eapply elem_of_submseteq.
  - destruct (shuffle_batches_subseteq fuel batch_size num_batches samples []
                0%Z [] g) as (ys & -> & Hys);
      [unfold batch_len; simpl; lia|apply list_subseteq_nil|done].
Qed.

Lemma mini_batches_sizes {A} fuel (samples : list A) batch_size
    num_batches replacement g :
  (1 ≤ batch_size)%Z →
  Forall (λ batch, length batch = Z.to_nat batch_size)
    (yielded (_mini_batches fuel samples batch_size num_batches
                replacement g).1).
Proof.
  intros Hbs. unfold _mini_batches. destruct replacement.
  - eapply Forall_impl; [apply sample_batches_yields|]. by intros batch [? _].
  - destruct (shuffle_batches_prefix fuel batch_size num_batches samples []
                0%Z [] g) as (ys & -> & Hys & _);
      [unfold batch_len; simpl; lia|].
    simpl. eapply Forall_impl; [exact Hys|]. intros batch ->.
    unfold batch_len. lia.
Qed.

(** ** The steps of a meta-step *)

Section Steps.
Context {B : Backend}.
Implicit Types (w : world (B:=B)) (self : Reptile (B:=B)).

Lemma minimize_feeds_app (l1 l2 : list (event (B:=B))) :
  minimize_feeds (l1 ++ l2) = minimize_feeds l1 ++ minimize_feeds l2.
Proof.
  induction l1 as [|e l1 IH]; [done|]. destruct e; simpl; by rewrite ?IH.
Qed.

Lemma inner_step_feeds self minimize_op batch w w' :
  inner_step self minimize_op batch w = (Ok tt, w') →
  ∃ calls,
    session_log w' = session_log w ++ calls ∧
    minimize_feeds calls = [(map fst batch, map snd batch)] ∧
    Forall (λ e, ¬ is_predict e) calls.
Proof.
  unfold inner_step. intros Hrun.
  apply bind_Ok in Hrun as ([inputs labels] & w1 & Hunzip & Hrun).
  apply unzip_batch_Ok in Hunzip as (_ & [= -> ->] & ->).
  apply bind_Ok in Hrun as ([] & w2 & Hpre & Hmin).
  unfold run_minimize, modify in Hmin. injection Hmin as <-.
  unfold run_pre_step, modify, mret, M_ret, ret in Hpre.
  destruct (_pre_step_op self); injection Hpre as <-.
  - exists [RunPreStep; RunMinimize (map fst batch) (map snd batch)].
    simpl. rewrite <- app_assoc. split_and!; [done|done|].
    repeat constructor; by intros [].
  - exists [RunMinimize (map fst batch) (map snd batch)].
    split_and!; [done|done|]. repeat constructor; by intros [].
Qed.

Lemma for_each_inner_step_feeds self minimize_op batches w w' :
  for_each batches (inner_step self minimize_op) w = (Ok tt, w') →
  ∃ calls,
    session_log w' = session_log w ++ calls ∧
    minimize_feeds calls = map (λ batch, (map fst batch, map snd batch)) batches ∧
    Forall (λ e, ¬ is_predict e) calls.
Proof.
  revert w. induction batches as [|batch batches IH]; intros w Hrun;
    simpl in Hrun.
  { unfold mret, M_ret, ret in Hrun. injection Hrun as <-.
    exists []. by rewrite app_nil_r. }
  apply bind_Ok in Hrun as ([] & w1 & Hstep & Hrun).
  apply inner_step_feeds in Hstep as (c1 & Hl1 & Hf1 & Hn1).
  apply IH in Hrun as (c2 & Hl2 & Hf2 & Hn2).
  exists (c1 ++ c2). rewrite Hl2, Hl1, <- app_assoc, minimize_feeds_app.
  split_and!; [done|by rewrite Hf1, Hf2|by apply Forall_app].
Qed.

Lemma reptile_chain_feeds fuel self dataset minimize_op num_classes num_shots
    inner_batch_size inner_iters replacement old_vars w new_vars w' :
  chain (reptile_adaptation fuel self dataset minimize_op num_classes
           num_shots inner_batch_size inner_iters replacement old_vars)
    w new_vars w' →
  ∃ calls,
    session_log w' = session_log w ++ calls ∧
    Forall (λ e, ¬ is_predict e) calls ∧
    length (minimize_feeds calls) = length new_vars * Z.to_nat inner_iters ∧
    ((1 ≤ inner_batch_size)%Z →
     Forall (λ feed, length feed.1 = Z.to_nat inner_batch_size ∧
                     length feed.2 = Z.to_nat inner_batch_size)
       (minimize_feeds calls)).
Proof.
  induction 1 as [w|w new w1 news w2 Hadapt _ IH].
  { exists []. rewrite app_nil_r. by split_and!. }
  destruct Hadapt as (_ & task & g1 & batches & g2 & w_end & _ & Hgen & Hlen
                      & Hloop & _ & ->).
  apply for_each_inner_step_feeds in Hloop as (c1 & Hl1 & Hf1 & Hn1).
  destruct IH as (c2 & Hl2 & Hn2 & Hcount & Hsizes).
  exists (c1 ++ c2). simpl in Hl2, Hl1.
  rewrite Hl2, Hl1, <- app_assoc, minimize_feeds_app, length_app, Hf1,
    length_map, Hlen, Hcount.
  split_and!; [done|by apply Forall_app|simpl; lia|].
  intros Hbs. apply Forall_app. split; [|by apply Hsizes].
  pose proof (mini_batches_sizes fuel task inner_batch_size inner_iters
                replacement g1 Hbs) as Hall.
  rewrite Hgen in Hall. simpl in Hall.
  apply Forall_fmap. eapply Forall_impl; [exact Hall|].
  intros batch Hb. simpl. by rewrite !length_map.
Qed.

(** X8. A [Reptile.train_step] that returns has run [minimize_op] exactly
    [meta_batch_size * inner_iters] times (none when [inner_iters] is
    negative) and has fetched no prediction; when [inner_batch_size >= 1],
    every one of these runs was fed [inner_batch_size] inputs and as many
    labels. *)
Theorem train_step_runs_all_steps fuel self dataset minimize_op num_classes
    num_shots inner_batch_size inner_iters replacement meta_step_size
    meta_batch_size w w' :
  train_step fuel self dataset minimize_op num_classes num_shots
    inner_batch_size inner_iters replacement meta_step_size meta_batch_size w
  = (Ok tt, w') →
  ∃ calls,
    session_log w' = session_log w ++ calls ∧
    Forall (λ e, ¬ is_predict e) calls ∧
    length (minimize_feeds calls) = meta_batch_size * Z.to_nat inner_iters ∧
    ((1 ≤ inner_batch_size)%Z →
     Forall (λ feed, length feed.1 = Z.to_nat inner_batch_size ∧
                     length feed.2 = Z.to_nat inner_batch_size)
       (minimize_feeds calls)).
Proof.
  intros Hrun.
  apply train_step_returned in Hrun as (new_vars & w_last & Hchain & Hlen & ->).
  apply reptile_chain_feeds in Hchain as (calls & Hlog & Hnone & Hcount & Hsz).
  exists calls. rewrite Hlen in Hcount. by split_and!.
Qed.

End Steps.

Lemma train_step_runs_all_steps_witness :
  let w := Scalar.start [0; 1; 0; 1; 1] in
  let r := train_step 10 (Scalar.session false) Scalar.two_classes
             Scalar.sum_step 2 2 2 3 true 1%Z 2 w in
  r = (Ok tt, r.2) ∧
  length (minimize_feeds (session_log r.2)) = 6 ∧
  ∃ calls,
    session_log r.2 = session_log w ++ calls ∧
    Forall (λ e, ¬ is_predict e) calls ∧
    length (minimize_feeds calls) = 2 * Z.to_nat 3 ∧
    ((1 ≤ 2)%Z →
     Forall (λ feed, length feed.1 = Z.to_nat 2 ∧ length feed.2 = Z.to_nat 2)
       (minimize_feeds calls)).
Proof.
  intros w r.
  assert (r = (Ok tt, r.2)) as Hrun by (vm_compute; reflexivity).
  split; [exact Hrun|]. split; [vm_compute; reflexivity|].
  exact (train_step_runs_all_steps (B:=Scalar.backend) 10
           (Scalar.session false) Scalar.two_classes Scalar.sum_step
           2 2 2 3 true 1%Z 2 w r.2 Hrun).
Defined.

(** ** FOML beside Reptile *)

Section FOMLBatches.
Context {B : Backend}.
Implicit Types (w : world (B:=B)) (self : FOML (B:=B)).

(** X9. When a FOML session has [tail_shots] and its batch generator
    returns, the task was split into a training part and a tail holding the
    first [tail_shots] examples of every label; the generator has yielded
    [inner_iters - 1] batches made of examples of the training part only,
    and then the tail as the last batch.  For a task without duplicate
    examples no example of the tail is in any earlier batch. *)
Theorem foml_tail_batch_is_reserved fuel self (task : list (input B * label))
    inner_batch_size inner_iters replacement g shots batches g' :
  tail_shots self = Some shots →
  FOML_mini_batches fuel self task inner_batch_size inner_iters replacement g
  = (GenResult batches (Ok tt), g') →
  ∃ train tail earlier,
    _split_train_test task shots = inr (train, tail) ∧
    batches = earlier ++ [tail] ∧
    length earlier = Z.to_nat (inner_iters - 1) ∧
    (∀ l, by_label l tail = take shots (by_label l task)) ∧
    Forall (λ batch, batch ⊆ train) earlier ∧
    (NoDup task → Forall (λ batch, ∀ x, x ∈ batch → x ∉ tail) earlier).
Proof.
  intros Htail Hgen. unfold FOML_mini_batches in Hgen. rewrite Htail in Hgen.
  destruct (_split_train_test task shots) as [e|[train tail]] eqn:Hsplit;
    [done|].
  pose proof (mini_batches_returned_length fuel train inner_batch_size
                (inner_iters - 1) replacement g) as Hlen.
  pose proof (mini_batches_subseteq fuel train inner_batch_size
                (inner_iters - 1) replacement g) as Hsub.
  destruct (_mini_batches fuel train inner_batch_size (inner_iters - 1)
              replacement g) as [[earlier fin] g1].
  simpl in *. destruct fin as [[]|e|]; simpl in Hgen; [|done..].
  injection Hgen as <- <-.
  apply split_train_test_inr in Hsplit as Hspec.
  destruct Hspec as (Hl & Hperm & _).
  exists train, tail, earlier.
  split_and!; [done|done|by apply Hlen|apply Hl|done|].
  intros Hnd. rewrite <- Hperm in Hnd.
  apply NoDup_app in Hnd as (_ & Hdisj & _).
  eapply Forall_impl; [exact Hsub|]. intros batch Hb x Hx.
  by apply Hdisj, Hb.
Qed.

Lemma for_each_snoc {A} (xs : list A) (x : A) (body : A → M unit) w w1 w2 :
  for_each xs body w = (Ok tt, w1) →
  body x w1 = (Ok tt, w2) →
  for_each (xs ++ [x]) body w = (Ok tt, w2).
Proof.
  revert w. induction xs as [|y xs IH]; intros w Hxs Hx; simpl in *.
  { unfold mret, M_ret, ret in Hxs. injection Hxs as ->.
    erewrite bind_Ok_intro by exact Hx. done. }
  apply bind_Ok in Hxs as ([] & w0 & Hy & Hxs).
  erewrite bind_Ok_intro by exact Hy. by apply IH.
Qed.

(** Without [tail_shots], an inner adaptation of FOML is one of Reptile. *)
Lemma foml_adaptation_reptile_task fuel self dataset minimize_op num_classes
    num_shots inner_batch_size inner_iters replacement old_vars w update w' :
  tail_shots self = None →
  foml_adaptation fuel self dataset minimize_op num_classes num_shots
    inner_batch_size inner_iters replacement old_vars w update w' →
  ∃ new,
    reptile_task fuel (reptile self) dataset minimize_op num_classes
      num_shots inner_batch_size inner_iters replacement old_vars w
    = (Ok new, w').
Proof.
  intros Htail (_ & task & g1 & earlier & final & g2 & w_pre & w_end & Htask
                & Hgen & Hearlier & Hfinal & _ & ->).
  unfold FOML_mini_batches in Hgen. rewrite Htail in Hgen.
  pose proof (for_each_snoc _ _ _ _ _ _ Hearlier Hfinal) as Hloop.
  unfold reptile_task.
  erewrite bind_Ok_intro; [|apply lift_rng_exn_Ok; eauto].
  erewrite bind_Ok_intro; [|apply for_gen_Ok; eauto].
  erewrite bind_Ok_intro by reflexivity.
  erewrite bind_Ok_intro by reflexivity. by eexists.
Qed.

Lemma foml_chain_reptile_tasks fuel self dataset minimize_op num_classes
    num_shots inner_batch_size inner_iters replacement old_vars w updates w' :
  tail_shots self = None →
  chain (foml_adaptation fuel self dataset minimize_op num_classes num_shots
           inner_batch_size inner_iters replacement old_vars) w updates w' →
  ∃ new_vars,
    repeatM (length updates)
      (reptile_task fuel (reptile self) dataset minimize_op num_classes
         num_shots inner_batch_size inner_iters replacement old_vars) w
    = (Ok new_vars, w').
Proof.
  intros Htail. induction 1 as [w|w u w1 us w2 Hadapt _ [news IH]]; simpl.
  { by eexists. }
  destruct (foml_adaptation_reptile_task _ _ _ _ _ _ _ _ _ _ _ _ _ Htail
              Hadapt) as [new Hnew].
  erewrite bind_Ok_intro by exact Hnew.
  erewrite bind_Ok_intro by exact IH. by eexists.
Qed.

(** X10. Without [tail_shots], FOML samples its tasks and batches just
    like Reptile: where a [FOML.train_step] returns, [Reptile.train_step]
    on the same arguments from the same state returns too, having run the
    same ops in the same order and drawn the same random numbers; the two
    end states differ in the trainable variables only. *)
Theorem foml_follows_reptile fuel self dataset minimize_op num_classes
    num_shots inner_batch_size inner_iters replacement meta_step_size
    meta_batch_size w w_foml :
  tail_shots self = None →
  FOML_train_step fuel self dataset minimize_op num_classes num_shots
    inner_batch_size inner_iters replacement meta_step_size meta_batch_size w
  = (Ok tt, w_foml) →
  ∃ w_reptile,
    train_step fuel (reptile self) dataset minimize_op num_classes num_shots
      inner_batch_size inner_iters replacement meta_step_size
      meta_batch_size w = (Ok tt, w_reptile) ∧
    session_log w_reptile = session_log w_foml ∧
    random_state w_reptile = random_state w_foml ∧
    augmenter w_reptile = augmenter w_foml ∧
    other_vars (session_vars w_reptile) = other_vars (session_vars w_foml).
Proof.
  intros Htail Hrun.
  apply FOML_train_step_returned in Hrun
    as (updates & w_last & Hchain & Hlen & ->).
  destruct (foml_chain_reptile_tasks _ _ _ _ _ _ _ _ _ _ _ _ _ Htail Hchain)
    as [news Hnews].
  rewrite Hlen in Hnews. unfold train_step.
  erewrite bind_Ok_intro by reflexivity.
  erewrite bind_Ok_intro by exact Hnews.
  eexists. split; [reflexivity|]. by split_and!.
Qed.

End FOMLBatches.

Lemma foml_tail_batch_is_reserved_witness :
  let task : list (input Scalar.backend * label) :=
    [(10, 0); (11, 0); (12, 0); (20, 1); (21, 1); (22, 1)] in
  let r := FOML_mini_batches (B:=Scalar.backend) 10
             (Scalar.foml_session (Some 1)) task 2 3 false [0; 1; 2] in
  r.1 = GenResult [[(21, 1); (22, 1)]; [(12, 0); (11, 0)];
                   [(10, 0); (20, 1)]] (Ok tt) ∧
  ∃ train tail earlier,
    _split_train_test task 1 = inr (train, tail) ∧
    yielded r.1 = earlier ++ [tail] ∧
    length earlier = Z.to_nat (3 - 1) ∧
    (∀ l, by_label l tail = take 1 (by_label l task)) ∧
    Forall (λ batch, batch ⊆ train) earlier ∧
    (NoDup task → Forall (λ batch, ∀ x, x ∈ batch → x ∉ tail) earlier).
Proof.
  intros task r.
  assert (r = (GenResult (yielded r.1) (Ok tt), r.2)) as Hrun
    by (vm_compute; reflexivity).
  split; [vm_compute; reflexivity|].
  exact (foml_tail_batch_is_reserved (B:=Scalar.backend) 10
           (Scalar.foml_session (Some 1)) task 2 3 false [0; 1; 2] 1
           (yielded r.1) r.2 eq_refl Hrun).
Defined.

Lemma foml_follows_reptile_witness :
  let w := Scalar.start [0; 1; 0; 1; 1] in
  let rf := FOML_train_step 10 (Scalar.foml_session None) Scalar.two_classes
              Scalar.sum_step 2 2 2 3 true 1%Z 2 w in
  let rr := train_step 10 (Scalar.session false) Scalar.two_classes
              Scalar.sum_step 2 2 2 3 true 1%Z 2 w in
  rf = (Ok tt, rf.2) ∧
  rr = (Ok tt, rr.2) ∧
  model_vars (session_vars rf.2) = 40%Z ∧
  model_vars (session_vars rr.2) = 100%Z ∧
  ∃ w_reptile,
    rr = (Ok tt, w_reptile) ∧
    session_log w_reptile = session_log rf.2 ∧
    random_state w_reptile = random_state rf.2 ∧
    augmenter w_reptile = augmenter rf.2 ∧
    other_vars (session_vars w_reptile) = other_vars (session_vars rf.2).
Proof.
  intros w rf rr.
  assert (rf = (Ok tt, rf.2)) as Hrun by (vm_compute; reflexivity).
  split; [exact Hrun|]. split; [vm_compute; reflexivity|].
  split; [vm_compute; reflexivity|]. split; [vm_compute; reflexivity|].
  exact (foml_follows_reptile (B:=Scalar.backend) 10
           (Scalar.foml_session None) Scalar.two_classes Scalar.sum_step
           2 2 2 3 true 1%Z 2 w rf.2 eq_refl Hrun).
Defined.

(** ** Episodes that fail *)

Section Failure.
Context {B : Backend}.
Variables (self : Reptile (B:=B)) (minimize_op : train_op (B:=B)).
Implicit Types (w : world (B:=B)).

Lemma ran_same w w' :
  session_log w' = session_log w → session_vars w' = session_vars w →
  ran self minimize_op w w'.
Proof. intros Hl Hv. exists []. by rewrite app_nil_r. Qed.

Lemma ran_trans w1 w2 w3 :
  ran self minimize_op w1 w2 → ran self minimize_op w2 w3 →
  ran self minimize_op w1 w3.
Proof.
  intros (c1 & Hl1 & Hv1) (c2 & Hl2 & Hv2). exists (c1 ++ c2).
  rewrite Hl2, Hl1, Hv2, Hv1, <- app_assoc. split; [done|].
  unfold replay. by rewrite foldl_app.
Qed.

Lemma only_runs_bind {A C} (m : M A) (k : A → M C) :
  only_runs self minimize_op m → (∀ a, only_runs self minimize_op (k a)) →
  only_runs self minimize_op (m ≫= k).
Proof.
  intros Hm Hk w o w' Hrun.
  apply bind_cases in Hrun as [(a & w1 & H1 & H2)|[(e & H1 & _)|[H1 _]]].
  - eapply ran_trans; [by eapply Hm|by eapply Hk].
  - by eapply Hm.
  - by eapply Hm.
Qed.

Lemma only_runs_ret {A} (a : A) : only_runs self minimize_op (mret a).
Proof. intros w o w' [= _ <-]. by apply ran_same. Qed.

Lemma only_runs_raise {A} e : only_runs self minimize_op (raise (A:=A) e).
Proof. intros w o w' [= _ <-]. by apply ran_same. Qed.

Lemma only_runs_lift_rng {A} (f : rng → A * rng) :
  only_runs self minimize_op (lift_rng f).
Proof.
  intros w o w'. unfold lift_rng. destruct (f _) as [a g].
  intros [= _ <-]. by apply ran_same.
Qed.

Lemma only_runs_lift_exn {A} (r : exn + A) :
  only_runs self minimize_op (lift_exn r).
Proof. destruct r; [apply only_runs_raise|apply (only_runs_ret a)]. Qed.

Lemma only_runs_gen_finish {A} (r : gen_result A) :
  only_runs self minimize_op (gen_finish r).
Proof. intros w o w' [= _ <-]. by apply ran_same. Qed.

Lemma only_runs_for_each {A} (xs : list A) (body : A → M unit) :
  (∀ x, only_runs self minimize_op (body x)) →
  only_runs self minimize_op (for_each xs body).
Proof.
  intros Hbody. induction xs as [|x xs IH]; simpl.
  - apply (only_runs_ret tt).
  - apply only_runs_bind; [apply Hbody|by intros _].
Qed.

Lemma only_runs_for_gen {A} (gen : rng → gen_result A * rng)
    (body : A → M unit) :
  (∀ x, only_runs self minimize_op (body x)) →
  only_runs self minimize_op (for_gen gen body).
Proof.
  intros Hbody. unfold for_gen.
  apply only_runs_bind; [apply only_runs_lift_rng|]. intros r.
  apply only_runs_bind; [by apply only_runs_for_each|]. intros _.
  apply only_runs_gen_finish.
Qed.

Lemma only_runs_unzip_batch (batch : list (input B * label)) :
  only_runs self minimize_op (unzip_batch batch).
Proof.
  destruct batch; [apply only_runs_raise|].
  apply (only_runs_ret (_, _)).
Qed.

Lemma only_runs_pre_step : only_runs self minimize_op (run_pre_step self).
Proof.
  intros w o w'. unfold run_pre_step.
  destruct (_pre_step_op self) as [op|] eqn:Hop.
  - intros [= _ <-]. exists [RunPreStep]. split; [done|].
    simpl. by rewrite Hop.
  - intros [= _ <-]. by apply ran_same.
Qed.

Lemma only_runs_minimize inputs labels :
  only_runs self minimize_op (run_minimize minimize_op inputs labels).
Proof.
  intros w o w' [= _ <-]. by exists [RunMinimize inputs labels].
Qed.

Lemma only_runs_predict predictions inputs :
  only_runs self minimize_op (run_predict predictions inputs).
Proof. intros w o w' [= _ <-]. by exists [RunPredict inputs]. Qed.

Lemma only_runs_aug inputs : only_runs self minimize_op (run_aug self inputs).
Proof.
  intros w o w'. unfold run_aug. destruct (aug _ _ _) as [imgs a].
  intros [= _ <-]. by apply ran_same.
Qed.

Lemma only_runs_inner_step batch :
  only_runs self minimize_op (inner_step self minimize_op batch).
Proof.
  unfold inner_step.
  apply only_runs_bind; [apply only_runs_unzip_batch|]. intros [inputs labels].
  apply only_runs_bind; [apply only_runs_pre_step|]. intros _.
  apply only_runs_minimize.
Qed.

Lemma only_runs_augment_rounds rounds batch images labels :
  only_runs self minimize_op (augment_rounds self rounds batch images labels).
Proof.
  revert images labels. induction rounds as [|i rounds IH]; intros images labels.
  { apply (only_runs_ret (_, _)). }
  simpl. apply only_runs_bind; [apply only_runs_unzip_batch|].
  intros [inputs lbls]. destruct (decide (i = 0)).
  - apply only_runs_bind; [apply only_runs_aug|]. intros more. apply IH.
  - apply only_runs_bind; [apply only_runs_aug|]. intros more. apply IH.
Qed.

Lemma only_runs_train_augmetation batch :
  only_runs self minimize_op (train_augmetation self batch minimize_op).
Proof.
  unfold train_augmetation.
  apply only_runs_bind; [apply only_runs_augment_rounds|].
  intros [images labels].
  apply only_runs_bind.
  { unfold reshape_stack. destruct (reshape_images images) as [imgs|];
      [apply (only_runs_ret imgs)|apply only_runs_raise]. }
  intros imgs.
  apply only_runs_bind; [apply only_runs_pre_step|]. intros _.
  apply only_runs_minimize.
Qed.

Lemma only_runs_predict_each train_set test_set predictions res :
  only_runs self minimize_op (predict_each train_set test_set predictions res).
Proof.
  revert res. induction test_set as [|t test_set IH]; intros res.
  { apply (only_runs_ret res). }
  simpl. apply only_runs_bind; [apply only_runs_unzip_batch|].
  intros [inputs lbls].
  apply only_runs_bind; [apply only_runs_predict|]. intros preds.
  destruct (last preds); [apply IH|apply only_runs_raise].
Qed.

Lemma only_runs_test_predictions train_set test_set predictions :
  only_runs self minimize_op
    (_test_predictions self train_set test_set predictions).
Proof.
  unfold _test_predictions. destruct (_transductive self).
  - apply only_runs_bind; [apply only_runs_unzip_batch|].
    intros [inputs lbls]. apply only_runs_predict.
  - apply only_runs_predict_each.
Qed.

(** X11. [evaluate] puts the variables back only when it returns.  However
    an episode ends, the session has run a sequence of ops (the log grows by
    them); when it returns a count the variables are those it started with,
    and when it raises or hangs they are left as these ops made them: the
    fine-tuned values stay in the session. *)
Theorem evaluate_restores_only_on_return fuel dataset predictions num_classes
    num_shots inner_batch_size inner_iters replacement augment w o w' :
  evaluate fuel self dataset minimize_op predictions num_classes num_shots
    inner_batch_size inner_iters replacement augment w = (o, w') →
  ∃ calls,
    session_log w' = session_log w ++ calls ∧
    session_vars w'
    = match o with
      | Ok _ => session_vars w
      | _ => replay self minimize_op calls (session_vars w)
      end.
Proof.
  intros Hrun. unfold evaluate in Hrun.
  apply bind_cases in Hrun as [(task & w1 & H1 & Hrun)|[(e & H1 & ->)|[H1 ->]]];
    [|change (ran self minimize_op w w'); by eapply only_runs_lift_rng..].
  pose proof (only_runs_lift_rng _ _ _ _ H1) as R1.
  assert (session_vars w1 = session_vars w) as Hv1.
  { unfold lift_rng in H1. destruct (_sample_mini_dataset _ _ _ _).
    by injection H1 as _ <-. }
  apply bind_cases in Hrun
    as [([train_set test_set] & w2 & H2 & Hrun)|[(e & H2 & ->)|[H2 ->]]];
    [|change (ran self minimize_op w w');
      eapply ran_trans; [exact R1|by eapply only_runs_lift_exn]..].
  pose proof (only_runs_lift_exn _ _ _ _ H2) as R2.
  assert (w2 = w1) as ->.
  { destruct (_split_train_test task 1); by injection H2. }
  apply bind_cases in Hrun as [(old & w3 & H3 & Hrun)|[(e & H3 & _)|[H3 _]]];
    [|done..].
  injection H3 as <- <-.
  assert (∀ batch, only_runs self minimize_op
            (if augment then train_augmetation self batch minimize_op
             else inner_step self minimize_op batch)) as Hbody.
  { intros batch. destruct augment;
      [apply only_runs_train_augmetation|apply only_runs_inner_step]. }
  apply bind_cases in Hrun as [([] & w4 & H4 & Hrun)|[(e & H4 & ->)|[H4 ->]]];
    [|change (ran self minimize_op w w');
      eapply ran_trans;
        [exact R1|exact (only_runs_for_gen _ _ Hbody _ _ _ H4)]..].
  pose proof (only_runs_for_gen _ _ Hbody _ _ _ H4) as R4.
  apply bind_cases in Hrun as [(preds & w5 & H5 & Hrun)|[(e & H5 & ->)|[H5 ->]]];
    [|change (ran self minimize_op w w');
      eapply ran_trans; [exact R1|];
      eapply ran_trans; [exact R4|by eapply only_runs_test_predictions]..].
  pose proof (only_runs_test_predictions _ _ _ _ _ _ H5) as R5.
  injection Hrun as <- <-.
  destruct (ran_trans _ _ _ R1 (ran_trans _ _ _ R4 R5)) as (calls & Hl & _).
  exists calls. by split.
Qed.


End Failure.

(** An episode whose prediction op answers with no label at all: the
    fetch of the last prediction raises after three inner steps, and the
    weight stays at its fine-tuned value 120 instead of the initial 10. *)
Lemma evaluate_restores_only_on_return_witness :
  let w := Scalar.start [0; 1; 0; 1; 1] in
  let r := evaluate 10 (Scalar.session false) Scalar.two_classes
             Scalar.sum_step (λ _ _, []) 2 2 2 3 true false w in
  r.1 = Raise IndexError ∧
  session_vars r.2 = Store (B:=Scalar.backend) 120%Z 3 ∧
  ∃ calls,
    session_log r.2 = session_log w ++ calls ∧
    session_vars r.2
    = replay (Scalar.session false) Scalar.sum_step calls (session_vars w).
Proof.
  intros w r.
  assert (r = (Raise IndexError, r.2)) as Hrun by (vm_compute; reflexivity).
  split; [vm_compute; reflexivity|]. split; [vm_compute; reflexivity|].
  exact (evaluate_restores_only_on_return (B:=Scalar.backend)
           (Scalar.session false) Scalar.sum_step 10 Scalar.two_classes
           (λ _ _, []) 2 2 2 3 true false w (Raise IndexError) r.2 Hrun).
Defined.


(** ** An evaluation episode, call by call *)

Section Episode.
Context {B : Backend}.
Implicit Types (w : world (B:=B)) (self : Reptile (B:=B)).

Lemma train_augmetation_feeds self minimize_op batch w w' :
  train_augmetation self batch minimize_op w = (Ok tt, w') →
  ∃ calls feed,
    session_log w' = session_log w ++ calls ∧
    minimize_feeds calls = [feed] ∧
    fine_tuning_feed self true batch feed ∧
    Forall (λ e, ¬ is_predict e) calls.
Proof.
  intros Hrun. destruct (decide (batch = [])) as [->|Hne]; [done|].
  rewrite train_augmetation_unfold in Hrun by done. cbv zeta in Hrun.
  destruct (reshape_images _) as [images|] eqn:Hresh; [|done].
  apply bind_Ok in Hrun as ([] & w2 & Hpre & Hmin).
  unfold run_minimize, modify in Hmin. injection Hmin as <-.
  unfold run_pre_step, modify, mret, M_ret, ret in Hpre.
  set (labels := map snd batch) in *.
  assert (fine_tuning_feed self true batch
            (images, labels ++ labels ++ labels ++ labels)) as Hfeed.
  { split; [|done]. by exists (augmenter w). }
  destruct (_pre_step_op self); injection Hpre as <-.
  - exists [RunPreStep;
            RunMinimize images (labels ++ labels ++ labels ++ labels)],
           (images, labels ++ labels ++ labels ++ labels).
    split; [simpl; by rewrite <- app_assoc|]. split; [done|].
    split; [exact Hfeed|]. repeat constructor; by intros [].
  - exists [RunMinimize images (labels ++ labels ++ labels ++ labels)],
           (images, labels ++ labels ++ labels ++ labels).
    split; [done|]. split; [done|].
    split; [exact Hfeed|]. repeat constructor; by intros [].
Qed.

(** What one step of fine-tuning has done when it returns. *)
Lemma fine_tuning_step_run self minimize_op (augment : bool) batch w w' :
  (if augment then train_augmetation self batch minimize_op
   else inner_step self minimize_op batch) w = (Ok tt, w') →
  ∃ calls feed,
    session_log w' = session_log w ++ calls ∧
    minimize_feeds calls = [feed] ∧
    fine_tuning_feed self augment batch feed ∧
    Forall (λ e, ¬ is_predict e) calls ∧
    session_vars w' = replay self minimize_op calls (session_vars w).
Proof.
  intros Hrun.
  assert (ran self minimize_op w w') as (calls' & Hlog' & Hvars).
  { destruct augment;
      [by eapply only_runs_train_augmetation|by eapply only_runs_inner_step]. }
  assert (∃ calls feed,
            session_log w' = session_log w ++ calls ∧
            minimize_feeds calls = [feed] ∧
            fine_tuning_feed self augment batch feed ∧
            Forall (λ e, ¬ is_predict e) calls)
    as (calls & feed & Hlog & Hfeeds & Hfeed & Hnone).
  { destruct augment.
    - by apply train_augmetation_feeds in Hrun.
    - apply inner_step_feeds in Hrun as (calls & Hlog & Hfeeds & Hnone).
      by exists calls, (map fst batch, map snd batch). }
  assert (calls' = calls) as ->.
  { rewrite Hlog in Hlog'. by apply app_inv_head in Hlog'. }
  by exists calls, feed.
Qed.

(** What the fine-tuning loop has done when it returns: one optimisation
    step per batch, on the feed of that batch, and nothing but these steps
    has touched the variables. *)
Lemma fine_tuning_steps self minimize_op (augment : bool) batches w w' :
  for_each batches
    (λ batch, if augment then train_augmetation self batch minimize_op
              else inner_step self minimize_op batch) w = (Ok tt, w') →
  ∃ steps,
    session_log w' = session_log w ++ steps ∧
    Forall (λ e, ¬ is_predict e) steps ∧
    Forall2 (fine_tuning_feed self augment) batches (minimize_feeds steps) ∧
    session_vars w' = replay self minimize_op steps (session_vars w).
Proof.
  revert w. induction batches as [|batch batches IH]; intros w Hrun;
    simpl in Hrun.
  { unfold mret, M_ret, ret in Hrun. injection Hrun as <-.
    exists []. rewrite app_nil_r. split_and!; [done|done|constructor|done]. }
  apply bind_Ok in Hrun as ([] & w1 & Hstep & Hrun).
  apply fine_tuning_step_run in Hstep
    as (c1 & feed & Hl1 & Hf1 & Hfeed & Hn1 & Hv1).
  apply IH in Hrun as (c2 & Hl2 & Hn2 & Hf2 & Hv2).
  exists (c1 ++ c2).
  rewrite Hl2, Hl1, <- app_assoc, minimize_feeds_app, Hf1, Hv2, Hv1.
  split_and!; [done|by apply Forall_app|by constructor|].
  unfold replay. by rewrite foldl_app.
Qed.

(** What a call of [evaluate] that returns has done, call by call. *)
Lemma evaluate_returned fuel self dataset minimize_op predictions num_classes
    num_shots inner_batch_size inner_iters replacement augment w n w' :
  evaluate fuel self dataset minimize_op predictions num_classes num_shots
    inner_batch_size inner_iters replacement augment w = (Ok n, w') →
  ∃ task g train_set test_set batches g' steps preds,
    _sample_mini_dataset dataset num_classes (num_shots + 1) (random_state w)
      = (task, g) ∧
    _split_train_test task 1 = inr (train_set, test_set) ∧
    (∀ l, l ∈ map snd task → length (by_label l test_set) = 1) ∧
    length test_set ≤ num_classes ∧
    _mini_batches fuel train_set inner_batch_size inner_iters replacement g
      = (GenResult batches (Ok tt), g') ∧
    session_log w'
    = session_log w ++ steps
      ++ map RunPredict
           (if _transductive self
            then [map fst test_set]
            else map (λ test_sample, map fst train_set ++ [test_sample.1])
                   test_set) ∧
    Forall (λ e, ¬ is_predict e) steps ∧
    Forall2 (fine_tuning_feed self augment) batches (minimize_feeds steps) ∧
    (let tuned := replay self minimize_op steps (session_vars w) in
     if _transductive self
     then preds = predictions (map fst test_set) tuned
     else Forall2 (λ test_sample p,
                     last (predictions
                             (map fst train_set ++ [test_sample.1]) tuned)
                     = Some p) test_set preds) ∧
    n = count_correct preds test_set ∧
    n ≤ num_classes ∧
    session_vars w' = session_vars w.
Proof.
  intros Hrun.
  destruct (evaluate_returned_count _ _ _ _ _ _ _ _ _ _ _ _ _ _ Hrun)
    as (task & g & train_set & test_set & _ & _ & Htask & Hsplit & Hone
        & Hlen & _ & _ & Hle & Hvars).
  unfold evaluate in Hrun.
  apply bind_Ok in Hrun as (task' & w1 & (g0 & Htask' & ->)%lift_rng_Ok & Hrun).
  rewrite Htask in Htask'. injection Htask' as <- <-.
  rewrite Hsplit in Hrun.
  apply bind_Ok in Hrun as ([tr te] & w2 & Hret & Hrun).
  unfold lift_exn, mret, M_ret, ret in Hret. injection Hret as <- <- <-.
  apply bind_Ok in Hrun as (old_vars & w3 & Hexp & Hrun).
  unfold export_full, get_vars in Hexp. injection Hexp as <- <-.
  apply bind_Ok in Hrun as ([] & w_tuned & Hloop & Hrun).
  apply for_gen_Ok in Hloop as (batches & g' & Hgen & Hloop).
  apply fine_tuning_steps in Hloop as (steps & Hlog & Hnone & Hfeeds & Htuned).
  apply bind_Ok in Hrun as (preds & w4 & Hpred & Hrun).
  apply bind_Ok in Hrun as ([] & w5 & Himp & Hrun).
  unfold import_full, modify in Himp. injection Himp as <-.
  unfold mret, M_ret, ret in Hrun. injection Hrun as <- <-.
  apply test_predictions_spec in Hpred as (Hpreds & _ & Hplog).
  exists task, g, train_set, test_set, batches, g', steps, preds.
  simpl in *. rewrite Htuned in Hpreds.
  split_and!; [done|done|done|done|done| |done|done|done|done|done|done].
  rewrite Hplog, Hlog, <- app_assoc. unfold predict_feeds.
  by destruct (_transductive self).
Qed.

(** C8. A call of [evaluate] that returns gives the number of test
    predictions equal to the true label, the predictions being those of
    the model as the fine-tuning steps of this call left it; the test
    split holds exactly one example of every label of the sampled task, so
    that the number is at most [num_classes]; and the call leaves the full
    variable state of the session as it found it.  Hence after any number
    of such calls, one after the other, the full state is the one before
    the first call.  And a call does return whenever the episode goes
    through ([evaluate_runs]; on the augmentation path the augmented
    stacks must reshape). *)
Theorem evaluate_restores_full_state self w calls w' :
  (∀ fuel dataset minimize_op predictions num_classes num_shots
     inner_batch_size inner_iters replacement augment n w1,
     evaluate fuel self dataset minimize_op predictions num_classes
       num_shots inner_batch_size inner_iters replacement augment w
     = (Ok n, w1) →
     ∃ task g train_set test_set batches g' steps preds,
       _sample_mini_dataset dataset num_classes (num_shots + 1)
         (random_state w) = (task, g) ∧
       _split_train_test task 1 = inr (train_set, test_set) ∧
       (∀ l, l ∈ map snd task → length (by_label l test_set) = 1) ∧
       length test_set ≤ num_classes ∧
       _mini_batches fuel train_set inner_batch_size inner_iters replacement g
         = (GenResult batches (Ok tt), g') ∧
       session_log w1
       = session_log w ++ steps
         ++ map RunPredict
              (if _transductive self
               then [map fst test_set]
               else map (λ test_sample, map fst train_set ++ [test_sample.1])
                      test_set) ∧
       Forall (λ e, ¬ is_predict e) steps ∧
       Forall2 (fine_tuning_feed self augment) batches
         (minimize_feeds steps) ∧
       (let tuned := replay self minimize_op steps (session_vars w) in
        if _transductive self
        then preds = predictions (map fst test_set) tuned
        else Forall2 (λ test_sample p,
                        last (predictions
                                (map fst train_set ++ [test_sample.1]) tuned)
                        = Some p) test_set preds) ∧
       n = count_correct preds test_set ∧
       n ≤ num_classes ∧
       session_vars w1 = session_vars w) ∧
  (chain (evaluates self) w calls w' →
   session_vars w' = session_vars w ∧
   Forall (λ e, ev_result e ≤ ev_num_classes e) calls) ∧
  (∀ fuel dataset minimize_op predictions num_classes num_shots
     inner_batch_size inner_iters replacement augment,
     evaluate_runs fuel self dataset predictions num_classes num_shots
       inner_batch_size inner_iters replacement →
     (augment = true → augmentation_fits self) →
     ∃ n w1,
       evaluate fuel self dataset minimize_op predictions num_classes
         num_shots inner_batch_size inner_iters replacement augment w
       = (Ok n, w1)).
Proof.
  split_and!; [| |intros; by apply evaluate_Ok].
  - intros fuel dataset minimize_op predictions num_classes num_shots
      inner_batch_size inner_iters replacement augment n w1 Hcall.
    destruct (evaluate_returned _ _ _ _ _ _ _ _ _ _ _ _ _ _ Hcall)
      as (task & g & train_set & test_set & batches & g' & steps & preds
          & Htask & Hsplit & Hone & Hlen & Hgen & Hlog & Hnone & Hfeeds
          & Hpreds & Hn & Hle & Hvars).
    by exists task, g, train_set, test_set, batches, g', steps, preds.
  - induction 1 as [w|w e w1 calls w2 Hcall _ [IHvars IHall]].
    { by split. }
    unfold evaluates in Hcall.
    destruct (evaluate_returned _ _ _ _ _ _ _ _ _ _ _ _ _ _ Hcall)
      as (task & g & train_set & test_set & batches & g' & steps & preds
          & _ & _ & _ & _ & _ & _ & _ & _ & _ & _ & Hle & Hvars).
    split; [congruence|by constructor].
Qed.

(** C9. In a call of [evaluate] that returns, the predict calls are made
    after all fine-tuning steps, on the variables as these steps left
    them, and are exactly these: in transductive mode one call fed all
    test inputs at once, whose output is the list of predictions;
    otherwise one call per test example, in order, each fed the training
    inputs followed by that one example, and the last entry of each output
    is that example's prediction.  And a call does return whenever the
    episode goes through ([evaluate_runs]; on the augmentation path the
    augmented stacks must reshape). *)
Theorem evaluate_predict_calls fuel self dataset minimize_op predictions
    num_classes num_shots inner_batch_size inner_iters replacement augment w :
  (∀ n w',
     evaluate fuel self dataset minimize_op predictions num_classes num_shots
       inner_batch_size inner_iters replacement augment w = (Ok n, w') →
     ∃ task g train_set test_set batches g' steps preds,
       _sample_mini_dataset dataset num_classes (num_shots + 1)
         (random_state w) = (task, g) ∧
       _split_train_test task 1 = inr (train_set, test_set) ∧
       _mini_batches fuel train_set inner_batch_size inner_iters replacement g
         = (GenResult batches (Ok tt), g') ∧
       session_log w'
       = session_log w ++ steps
         ++ map RunPredict
              (if _transductive self
               then [map fst test_set]
               else map (λ test_sample, map fst train_set ++ [test_sample.1])
                      test_set) ∧
       Forall (λ e, ¬ is_predict e) steps ∧
       Forall2 (fine_tuning_feed self augment) batches
         (minimize_feeds steps) ∧
       (let tuned := replay self minimize_op steps (session_vars w) in
        if _transductive self
        then preds = predictions (map fst test_set) tuned
        else Forall2 (λ test_sample p,
                        last (predictions
                                (map fst train_set ++ [test_sample.1]) tuned)
                        = Some p) test_set preds) ∧
       n = count_correct preds test_set) ∧
  (evaluate_runs fuel self dataset predictions num_classes num_shots
     inner_batch_size inner_iters replacement →
   (augment = true → augmentation_fits self) →
   ∃ n w',
     evaluate fuel self dataset minimize_op predictions num_classes num_shots
       inner_batch_size inner_iters replacement augment w = (Ok n, w')).
Proof.
  split; [|by apply evaluate_Ok].
  intros n w' Hrun.
  apply evaluate_returned in Hrun
    as (task & g & train_set & test_set & batches & g' & steps & preds
        & Htask & Hsplit & _ & _ & Hgen & Hlog & Hnone & Hfeeds & Hpreds
        & Hn & _).
  by exists task, g, train_set, test_set, batches, g', steps, preds.
Qed.

End Episode.

(** The image model with batches drawn with replacement: the episode goes
    through. *)
Lemma images_evaluate_runs transductive :
  evaluate_runs 10 (Images.session transductive) Images.two_classes
    Images.parity 2 2 2 3 true.
Proof.
  split_and!.
  - repeat constructor; intros n g; apply length_seq.
  - lia.
  - simpl. lia.
  - intros _ inputs s Hne. unfold Images.parity. by destruct inputs.
Qed.

(** Two evaluations in a row on the integer model leave the variables
    where they were; on the image model an evaluation on the augmentation
    path returns. *)
Lemma evaluate_restores_full_state_witness :
  let w := Scalar.start [0; 1; 0; 1; 1] in
  let calls := [Scalar.evaluation_of true 1; Scalar.evaluation_of false 1] in
  let w1 := (evaluate 10 (Scalar.session false) Scalar.two_classes
               Scalar.sum_step Scalar.parity 2 2 2 3 true false w).2 in
  let w2 := (evaluate 10 (Scalar.session false) Scalar.two_classes
               Scalar.sum_step Scalar.parity 2 2 2 3 false false w1).2 in
  chain (evaluates (Scalar.session false)) w calls w2 ∧
  session_vars w2 = session_vars w ∧
  Forall (λ e, ev_result e ≤ ev_num_classes e) calls ∧
  ∃ n wi,
    evaluate 10 (Images.session false) Images.two_classes Images.sum_step
      Images.parity 2 2 2 3 true true (Images.start [0; 1; 0; 1; 1])
    = (Ok n, wi).
Proof.
  intros w calls w1 w2.
  assert (chain (evaluates (Scalar.session false)) w calls w2) as Hchain.
  { apply (chain_cons _ w _ w1); [vm_compute; reflexivity|].
    apply (chain_cons _ w1 _ w2); [vm_compute; reflexivity|].
    apply chain_nil. }
  split; [exact Hchain|].
  destruct (evaluate_restores_full_state (Scalar.session false) w calls w2)
    as (_ & Hrestores & _).
  destruct (Hrestores Hchain) as [Hvars Hcounts].
  split; [exact Hvars|]. split; [exact Hcounts|].
  destruct (evaluate_restores_full_state (Images.session false)
              (Images.start [0; 1; 0; 1; 1]) []
              (Images.start [0; 1; 0; 1; 1])) as (_ & _ & Hreturns).
  apply Hreturns; [apply images_evaluate_runs|].
  intros _. apply images_augmentation_fits.
Defined.

Lemma evaluate_predict_calls_witness :
  let w := Scalar.start [0; 1; 0; 1; 1] in
  let r := evaluate 10 (Scalar.session false) Scalar.two_classes
             Scalar.sum_step Scalar.parity 2 2 2 3 true false w in
  r = (Ok 1, r.2) ∧
  session_log r.2
  = [RunMinimize (B:=Scalar.backend) [22; 21] [0; 0];
     RunMinimize (B:=Scalar.backend) [22; 12] [0; 1];
     RunMinimize (B:=Scalar.backend) [21; 12] [0; 1];
     RunPredict (B:=Scalar.backend) [21; 22; 11; 12; 20];
     RunPredict (B:=Scalar.backend) [21; 22; 11; 12; 10]] ∧
  ∃ task g train_set test_set batches g' steps preds,
    _sample_mini_dataset (B:=Scalar.backend) Scalar.two_classes 2 (2 + 1)
      (random_state w) = (task, g) ∧
    _split_train_test task 1 = inr (train_set, test_set) ∧
    _mini_batches 10 train_set 2 3 true g = (GenResult batches (Ok tt), g') ∧
    session_log r.2
    = session_log w ++ steps
      ++ map RunPredict
           (map (λ test_sample, map fst train_set ++ [test_sample.1])
              test_set) ∧
    Forall (λ e, ¬ is_predict e) steps ∧
    Forall2 (fine_tuning_feed (Scalar.session false) false) batches
      (minimize_feeds steps) ∧
    Forall2 (λ test_sample p,
               last (Scalar.parity (map fst train_set ++ [test_sample.1])
                       (replay (Scalar.session false) Scalar.sum_step steps
                          (session_vars w))) = Some p) test_set preds ∧
    1 = count_correct preds test_set.
Proof.
  intros w r.
  assert (r = (Ok 1, r.2)) as Hrun by (vm_compute; reflexivity).
  split; [exact Hrun|]. split; [vm_compute; reflexivity|].
  destruct (evaluate_predict_calls (B:=Scalar.backend) 10
              (Scalar.session false) Scalar.two_classes Scalar.sum_step
              Scalar.parity 2 2 2 3 true false w) as [Hcalls _].
  exact (Hcalls 1 r.2 Hrun).
Defined.

(** The same episode on the image model, on the augmentation path: every
    fine-tuning step is fed a batch of two images followed by the six
    augmented copies, and the labels four times. *)
Example evaluate_augmented_feeds :
  let r := evaluate 10 (Images.session false) Images.two_classes
             Images.sum_step Images.parity 2 2 2 3 true true
             (Images.start [0; 1; 0; 1; 1]) in
  r.1 = Ok 1 ∧
  session_vars r.2 = session_vars (Images.start [0; 1; 0; 1; 1]) ∧
  session_log r.2
  = [RunMinimize (B:=Images.backend)
       [22; 21; 122; 121; 222; 221; 322; 321] [0; 0; 0; 0; 0; 0; 0; 0];
     RunMinimize (B:=Images.backend)
       [22; 12; 422; 412; 522; 512; 622; 612] [0; 1; 0; 1; 0; 1; 0; 1];
     RunMinimize (B:=Images.backend)
       [21; 12; 721; 712; 821; 812; 921; 912] [0; 1; 0; 1; 0; 1; 0; 1];
     RunPredict (B:=Images.backend) [21; 22; 11; 12; 20];
     RunPredict (B:=Images.backend) [21; 22; 11; 12; 10]].
Proof. split_and!; vm_compute; reflexivity. Qed.

(** On numbers instead of images the augmentation path raises at the
    first batch, before any op is run. *)
Example evaluate_augmented_numbers :
  let r := evaluate 10 (Scalar.session false) Scalar.two_classes
             Scalar.sum_step Scalar.parity 2 2 2 3 true true
             (Scalar.start [0; 1; 0; 1; 1]) in
  r.1 = Raise ValueError ∧ session_log r.2 = [].
Proof. split; vm_compute; reflexivity. Qed.

(** ** The batches a FOML meta-step needs *)

Section FOMLBound.
Context {B : Backend}.
Implicit Types (w : world (B:=B)) (self : FOML (B:=B)).

Lemma random_choices_inl {A} (population : list A) k g e g' :
  random_choices population k g = (inl e, g') → e = IndexError.
Proof.
  revert g. induction k as [|k IH]; intros g; simpl; [done|].
  destruct (randbelow (length population) g) as [j g1].
  destruct (population !! j); [|by intros [= <- _]].
  specialize (IH g1).
  destruct (random_choices population k g1) as [[e'|cs] g2]; [|done].
  intros [= <- <-]. by apply IH.
Qed.

Lemma sample_with_replacements_inl (dataset : list (ClassSource (input B)))
    num_classes num_shots g e g' :
  _sample_mini_dataset_with_replacements dataset num_classes num_shots g
  = (inl e, g') → e = IndexError.
Proof.
  unfold _sample_mini_dataset_with_replacements.
  destruct (random_shuffle dataset g) as [shuffled g1].
  destruct (random_choices shuffled (num_classes * num_shots) g1)
    as [[e'|cs] g2] eqn:Hc.
  - intros [= <- <-]. by eapply random_choices_inl.
  - by destruct (sample_draws 0 cs num_classes g2).
Qed.

Lemma sample_batches_Raise {A} (samples : list A) batch_size rounds g e :
  finish (sample_batches samples batch_size rounds g).1 = Raise e →
  e = ValueError.
Proof.
  revert g. induction rounds as [|rounds IH]; intros g; simpl; [done|].
  unfold random_sample.
  destruct ((0 <=? batch_size) && _)%Z.
  - destruct (sample_pool _ _ _ _) as [batch g1]. specialize (IH g1).
    by destruct (sample_batches samples batch_size rounds g1) as [[ys fin] g2].
  - simpl. by intros [= <-].
Qed.

Lemma mini_batches_Raise {A} fuel (samples : list A) batch_size num_batches
    replacement g e :
  finish (_mini_batches fuel samples batch_size num_batches replacement g).1
  = Raise e → e = ValueError.
Proof.
  unfold _mini_batches. destruct replacement.
  - apply sample_batches_Raise.
  - destruct (shuffle_batches_prefix fuel batch_size num_batches samples []
                0%Z [] g) as (ys & _ & _ & Hfin & _).
    { unfold batch_len. simpl. lia. }
    intros Hraise. rewrite Hraise in Hfin. by destruct Hfin as [?|[? _]].
Qed.

Lemma split_train_test_inl (task : list (input B * label)) k e :
  _split_train_test task k = inl e → e = IndexError.
Proof.
  unfold _split_train_test.
  destruct (split_rounds k (label_set task) task []) as [train test].
  destruct (_ <? _); [|done]. by intros [= <-].
Qed.

Lemma FOML_mini_batches_Raise fuel self task inner_batch_size inner_iters
    replacement g e :
  finish (FOML_mini_batches fuel self task inner_batch_size inner_iters
            replacement g).1 = Raise e →
  e ≠ UnboundLocalError.
Proof.
  unfold FOML_mini_batches. destruct (tail_shots self) as [shots|].
  - destruct (_split_train_test task shots) as [e'|[train tail]] eqn:Hsplit.
    + simpl. intros [= <-]. by rewrite (split_train_test_inl _ _ _ Hsplit).
    + pose proof (mini_batches_Raise fuel train inner_batch_size
                    (inner_iters - 1) replacement g e) as Hraise.
      destruct (_mini_batches fuel train inner_batch_size (inner_iters - 1)
                  replacement g) as [[ys fin] g1].
      simpl in *. destruct fin as [[]|e'|]; simpl; [done| |done].
      intros Heq. by rewrite (Hraise Heq).
  - intros Heq. by rewrite (mini_batches_Raise _ _ _ _ _ _ _ Heq).
Qed.

Lemma foml_batches_Raise self minimize_op batches last_backup w e w' :
  foml_batches self minimize_op batches last_backup w = (Raise e, w') →
  e = ValueError.
Proof.
  revert last_backup w.
  induction batches as [|batch batches IH]; intros last_backup w Hrun;
    simpl in Hrun; [done|].
  apply bind_cases in Hrun
    as [([inputs labels] & w1 & _ & Hrun)|[(e' & Hunzip & [= ->])|[_ [=]]]];
    cycle 1.
  { destruct batch; [|done]. by injection Hunzip as <- _. }
  apply bind_cases in Hrun as [(backup & w2 & _ & Hrun)|[(e' & He & _)|[_ [=]]]];
    [|done].
  apply bind_cases in Hrun as [([] & w3 & _ & Hrun)|[(e' & He & _)|[_ [=]]]];
    cycle 1.
  { unfold run_pre_step in He. by destruct (_pre_step_op (reptile self)). }
  apply bind_cases in Hrun as [([] & w4 & _ & Hrun)|[(e' & He & _)|[_ [=]]]];
    [|done].
  by eapply IH.
Qed.

(** [UnboundLocalError] comes from nowhere but the subtraction that
    follows a batch loop without batches. *)
Lemma foml_task_unbound fuel self dataset minimize_op num_classes num_shots
    inner_batch_size inner_iters replacement old_vars last_backup w w' :
  foml_task fuel self dataset minimize_op num_classes num_shots
    inner_batch_size inner_iters replacement old_vars last_backup w
  = (Raise UnboundLocalError, w') →
  no_batches self inner_iters replacement.
Proof.
  unfold foml_task. intros Hrun.
  apply bind_cases in Hrun as [(task & w1 & _ & Hrun)|[(e & He & [= <-])|[_ [=]]]];
    cycle 1.
  { unfold lift_rng_exn in He.
    apply bind_cases in He as [(r & w0 & Hr & He)|[(e' & He & _)|[_ [=]]]].
    - apply lift_rng_Ok in Hr as (g & Hr & ->).
      destruct r as [e'|task]; [|done]. injection He as -> _.
      by apply sample_with_replacements_inl in Hr.
    - unfold lift_rng in He.
      by destruct (_sample_mini_dataset_with_replacements _ _ _ _). }
  apply bind_cases in Hrun as [(r & w2 & Hgen & Hrun)|[(e & He & _)|[_ [=]]]];
    cycle 1.
  { unfold lift_rng in He. by destruct (FOML_mini_batches _ _ _ _ _ _ _). }
  apply lift_rng_Ok in Hgen as (g2 & Hgen & ->).
  apply bind_cases in Hrun as [(lb & w3 & Hloop & Hrun)|[(e & He & [= <-])|[_ [=]]]];
    cycle 1.
  { by apply foml_batches_Raise in He. }
  apply bind_cases in Hrun as [([] & w4 & Hfin & Hrun)|[(e & He & [= <-])|[_ [=]]]];
    cycle 1.
  { unfold gen_finish in He. injection He as He _.
    pose proof (FOML_mini_batches_Raise fuel self task inner_batch_size
                  inner_iters replacement (random_state w1)
                  UnboundLocalError) as Hno.
    rewrite Hgen in Hno. by destruct (Hno He). }
  unfold gen_finish in Hfin. injection Hfin as Hfin <-.
  apply bind_cases in Hrun as [(cur & w5 & _ & Hrun)|[(e & He & _)|[_ [=]]]];
    [|done].
  destruct (foml_batches_spec _ _ _ _ _ _ _ Hloop) as (_ & Hnil & Hsnoc).
  destruct lb as [backup|].
  { apply bind_cases in Hrun as [([] & w6 & _ & Hrun)|[(e & He & _)|[_ [=]]]];
      done. }
  apply (FOML_mini_batches_empty_iff fuel self task inner_batch_size
           inner_iters replacement (random_state w1)).
  rewrite Hgen. destruct r as [batches fin]. simpl in *. subst fin.
  f_equal. destruct (decide (batches = [])) as [|Hne]; [done|].
  destruct (exists_last Hne) as (earlier & final & ->).
  by destruct (Hsnoc _ _ eq_refl) as (? & _ & _ & ?).
Qed.

Lemma foml_tasks_unbound fuel self dataset minimize_op num_classes num_shots
    inner_batch_size inner_iters replacement old_vars rounds updates
    last_backup w w' :
  foml_tasks fuel self dataset minimize_op num_classes num_shots
    inner_batch_size inner_iters replacement old_vars rounds updates
    last_backup w = (Raise UnboundLocalError, w') →
  no_batches self inner_iters replacement.
Proof.
  revert updates last_backup w.
  induction rounds as [|rounds IH]; intros updates last_backup w Hrun;
    simpl in Hrun; [done|].
  apply bind_cases in Hrun
    as [([update lb] & w1 & _ & Hrun)|[(e & He & [= <-])|[_ [=]]]].
  - by eapply IH.
  - by eapply foml_task_unbound.
Qed.

(** C10 (as the code has it).  The update of a task is computed from a
    backup bound inside the batch loop, so a [FOML.train_step] with
    [meta_batch_size >= 1] whose first task has no batch fails with
    [UnboundLocalError] instead of recording a zero update.  The generator
    returns without a batch exactly when [tail_shots] is unset,
    [replacement] is set and [inner_iters <= 0]; the step raises
    [UnboundLocalError] in that configuration (once the first task is
    sampled) and in no other.  A step that returns has had a last batch in
    every task, and had [inner_iters >= 1] if [tail_shots] is unset, and
    [inner_iters >= 2] if [tail_shots] is set and [replacement] is not.
    With [tail_shots] and [replacement] set, [inner_iters >= 2] is not
    needed: for [inner_iters <= 1] the generator yields the reserved tail
    batch alone when the split succeeds, and raises the split's
    [IndexError] without a batch when it does not. *)
Theorem foml_train_step_needs_a_batch fuel self dataset minimize_op
    num_classes num_shots inner_batch_size inner_iters replacement
    meta_step_size meta_batch_size w :
  0 < meta_batch_size →
  (∀ task g,
     (FOML_mini_batches fuel self task inner_batch_size inner_iters
        replacement g).1 = GenResult [] (Ok tt)
     ↔ tail_shots self = None ∧ replacement = true ∧ (inner_iters ≤ 0)%Z) ∧
  (tail_shots self = None → replacement = true → (inner_iters ≤ 0)%Z →
   ∀ task g1,
     _sample_mini_dataset_with_replacements dataset num_classes num_shots
       (random_state w) = (inr task, g1) →
     FOML_train_step fuel self dataset minimize_op num_classes num_shots
       inner_batch_size inner_iters replacement meta_step_size
       meta_batch_size w
     = (Raise UnboundLocalError, set_rng g1 w)) ∧
  (∀ w',
     FOML_train_step fuel self dataset minimize_op num_classes num_shots
       inner_batch_size inner_iters replacement meta_step_size
       meta_batch_size w = (Raise UnboundLocalError, w') →
     tail_shots self = None ∧ replacement = true ∧ (inner_iters ≤ 0)%Z) ∧
  (∀ w',
     FOML_train_step fuel self dataset minimize_op num_classes num_shots
       inner_batch_size inner_iters replacement meta_step_size
       meta_batch_size w = (Ok tt, w') →
     (tail_shots self = None → (1 ≤ inner_iters)%Z) ∧
     (is_Some (tail_shots self) → replacement = false →
      (2 ≤ inner_iters)%Z) ∧
     ∃ final_updates w_last,
       chain (foml_adaptation fuel self dataset minimize_op num_classes
                num_shots inner_batch_size inner_iters replacement
                (model_vars (session_vars w)))
         w final_updates w_last ∧
       length final_updates = meta_batch_size) ∧
  (∀ shots task g,
     tail_shots self = Some shots → replacement = true →
     (inner_iters ≤ 1)%Z →
     FOML_mini_batches fuel self task inner_batch_size inner_iters
       replacement g
     = match _split_train_test task shots with
       | inl _ => (GenResult [] (Raise IndexError), g)
       | inr (train, tail) => (GenResult [tail] (Ok tt), g)
       end).
Proof.
  intros Hmbs. split_and!.
  - intros task g. apply FOML_mini_batches_empty_iff.
  - intros Htail Hrepl Hiters task g1 Htask.
    by apply (foml_train_step_no_batches _ _ _ _ _ _ _ _ _ _ _ _ task).
  - intros w' Hrun. unfold FOML_train_step in Hrun.
    apply bind_cases in Hrun as [(old & w1 & _ & Hrun)|[(e & He & _)|[_ [=]]]];
      [|done].
    apply bind_cases in Hrun
      as [(updates & w2 & _ & Hrun)|[(e & He & [= <-])|[_ [=]]]]; [done|].
    by eapply foml_tasks_unbound.
  - intros w' Hrun.
    apply FOML_train_step_returned in Hrun
      as (updates & w_last & Hchain & Hlen & _).
    split_and!; [| |by exists updates, w_last].
    + intros Htail.
      destruct Hchain as [|w0 u w1 us w2 Hadapt _]; [simpl in Hlen; lia|].
      destruct Hadapt
        as (_ & task & g1 & earlier & final & g2 & _ & _ & _ & Hgen & _).
      destruct (decide (1 ≤ inner_iters)%Z) as [|Hlow]; [done|]. exfalso.
      unfold FOML_mini_batches in Hgen. rewrite Htail in Hgen.
      destruct replacement.
      * unfold _mini_batches in Hgen.
        replace (Z.to_nat inner_iters) with 0 in Hgen by lia.
        injection Hgen as Hnil _. by destruct earlier.
      * destruct (mini_batches_no_count fuel task inner_batch_size
                    inner_iters g1) as (batches & g' & Heq & _); [lia|].
        by rewrite Heq in Hgen.
    + intros [shots Htail] ->.
      destruct Hchain as [|w0 u w1 us w2 Hadapt _]; [simpl in Hlen; lia|].
      destruct Hadapt
        as (_ & task & g1 & earlier & final & g2 & _ & _ & _ & Hgen & _).
      destruct (decide (2 ≤ inner_iters)%Z) as [|Hlow]; [done|]. exfalso.
      unfold FOML_mini_batches in Hgen. rewrite Htail in Hgen.
      destruct (_split_train_test task shots) as [e|[train tail]]; [done|].
      destruct (mini_batches_no_count fuel train inner_batch_size
                  (inner_iters - 1) g1) as (batches & g' & Heq & _); [lia|].
      by rewrite Heq in Hgen.
  - intros shots task g Htail -> Hiters.
    unfold FOML_mini_batches. rewrite Htail.
    destruct (_split_train_test task shots) as [e|[train tail]] eqn:Hsplit.
    { by rewrite (split_train_test_inl _ _ _ Hsplit). }
    unfold _mini_batches.
    by replace (Z.to_nat (inner_iters - 1)) with 0 by lia.
Qed.

End FOMLBound.

Lemma foml_train_step_needs_a_batch_witness :
  let w := Scalar.start [0; 1; 0; 1; 1] in
  0 < 2 ∧
  FOML_train_step 10 (Scalar.foml_session None) Scalar.two_classes
    Scalar.sum_step 2 2 2 0 true 1%Z 2 w
  = (Raise UnboundLocalError, set_rng [] w).
Proof.
  intros w. assert (0 < 2) as Hmbs by lia. split; [exact Hmbs|].
  destruct (foml_train_step_needs_a_batch (B:=Scalar.backend) 10
              (Scalar.foml_session None) Scalar.two_classes Scalar.sum_step
              2 2 2 0 true 1%Z 2 w Hmbs) as (_ & Hraise & _).
  apply (Hraise eq_refl eq_refl ltac:(lia)
           [(10, 0); (20, 1); (10, 0); (10, 1)]).
  reflexivity.
Defined.

(** C10 as stated fails in its bound for a session with [tail_shots]:
    with one reserved tail shot, [inner_iters = 1] and replacement, every
    task's batch sequence is the tail batch alone and the meta-step
    returns. *)
Lemma foml_train_step_tail_counterexample :
  let w := Scalar.start [0; 1; 0; 1; 1] in
  (FOML_mini_batches 10 (Scalar.foml_session (Some 1))
     [(10, 0); (20, 1); (10, 0); (10, 1)] 2 1 true []).1
  = GenResult [[(10, 0); (20, 1)]] (Ok tt) ∧
  (FOML_train_step 10 (Scalar.foml_session (Some 1)) Scalar.two_classes
     Scalar.sum_step 2 2 2 1 true 1%Z 2 w).1 = Ok tt ∧
  model_vars (session_vars
    (FOML_train_step 10 (Scalar.foml_session (Some 1)) Scalar.two_classes
       Scalar.sum_step 2 2 2 1 true 1%Z 2 w).2) = 45%Z.
Proof. split_and!; reflexivity. Qed.
